(** * Layer compositing pipeline (mar141.py, mar143.py)

    A shallow embedding of the two variants of the PNG-to-MP4 layer
    merger: the sequential one (mar141.py, OpenCV video writer) and the
    parallel one (mar143.py, multiprocessing pool, frames staged in a
    temporary directory and encoded by ffmpeg).

    Python lists that are shared and mutated in place live in a store of
    list objects; exceptions are results carrying the exception class name;
    the imaging library (Pillow) is an interface with the part of its
    contract that the code relies on. *)

From Stdlib Require Import ZArith QArith Lia Ascii DecimalString DecimalNat.
From stdpp Require Import gmap strings list fin_maps sorting.

Local Open Scope string_scope.
Local Open Scope list_scope.
Local Open Scope nat_scope.
Local Open Scope stdpp_scope.

(** ** Outcomes of Python code: a value, or a raised exception (its class). *)

Inductive result (A : Type) : Type :=
| Ok (a : A)
| Raise (exc : string).
Arguments Ok {A} a.
Arguments Raise {A} exc.

(** Code with side effects: a state transformer that also reports the
    outcome.  The state reached is kept when an exception is raised, as the
    mutations a Python function made before raising stay visible. *)

Definition M (S A : Type) : Type := S → result A * S.

Definition ret {S A} (a : A) : M S A := λ s, (Ok a, s).
Definition raise {S A} (exc : string) : M S A := λ s, (Raise exc, s).
Definition bind {S A B} (c : M S A) (k : A → M S B) : M S B :=
  λ s, match c s with
       | (Ok a, s') => k a s'
       | (Raise e, s') => (Raise e, s')
       end.
Definition lift {S A} (r : result A) : M S A := λ s, (r, s).
Definition get {S} : M S S := λ s, (Ok s, s).
Definition modify {S} (f : S → S) : M S unit := λ s, (Ok tt, f s).

(** [try: body finally: fin]: [fin] runs on both exits, the outcome of the
    body is what the statement returns or propagates (when [fin] itself
    completes normally). *)
Definition try_finally {S A} (body : M S A) (fin : M S unit) : M S A :=
  λ s, match body s with
       | (r, s') => match fin s' with
                    | (Ok _, s'') => (r, s'')
                    | (Raise e, s'') => (Raise e, s'')
                    end
       end.

Notation "'do' x <- c1 ; c2" := (bind c1 (λ x, c2))
  (at level 10, x name, c1 at level 100, c2 at level 200).
Notation "'do_' c1 ; c2" := (bind c1 (λ _, c2))
  (at level 10, c1 at level 100, c2 at level 200).

Instance result_ret : MRet result := λ A a, Ok a.
Instance result_bind : MBind result := λ A B k r,
  match r with Ok a => k a | Raise e => Raise e end.

(** [xs[i]] for a non-negative index *)
Definition index {A} (xs : list A) (i : nat) : result A :=
  match xs !! i with Some x => Ok x | None => Raise "IndexError" end.

(** [for x in xs: body x] *)
Fixpoint for_each {S A} (xs : list A) (body : A → M S unit) : M S unit :=
  match xs with
  | [] => ret tt
  | x :: rest => do_ body x; for_each rest body
  end.

(** ** The imaging library

    The images that reach the effects and the compositor were all produced
    by [Image.open(path).convert("RGBA")], so the interface is that of RGBA
    rasters.  Only the size contract of each operation is assumed: what an
    operation returns has the stated size, and nothing is assumed about
    when the blur filter or [Image.new] accept their argument. *)

Definition rgba : Type := Z * Z * Z * Z.

Class Pillow := {
  image : Type;
  (** [image.size], as (width, height) *)
  image_size : image → Z * Z;
  (** [image.convert("RGBA")] *)
  convert_rgba : image → image;
  (** [image.filter(ImageFilter.GaussianBlur(radius=r))]; raises when the
      library refuses the radius *)
  GaussianBlur : Z → image → result image;
  (** [Image.new("RGBA", size, color)]; raises when the library refuses
      the colour *)
  Image_new : Z * Z → rgba → result image;
  (** [Image.alpha_composite(im1, im2)]; raises [ValueError] when the
      images do not match *)
  alpha_composite : image → image → result image;
  size_convert_rgba : ∀ im, image_size (convert_rgba im) = image_size im;
  size_GaussianBlur : ∀ r im im',
    GaussianBlur r im = Ok im' → image_size im' = image_size im;
  size_Image_new : ∀ sz c im, Image_new sz c = Ok im → image_size im = sz;
  alpha_composite_match : ∀ a b,
    image_size a = image_size b →
    ∃ c, alpha_composite a b = Ok c ∧ image_size c = image_size a;
  alpha_composite_mismatch : ∀ a b,
    image_size a ≠ image_size b → alpha_composite a b = Raise "ValueError";
}.

(** An instance that records which operations were applied: an image is
    the term of library calls that built it.  It refuses what does not fit
    the C types of the library's core: a radius that is negative or
    [2^31 - 1] and more ([ValueError]), and a colour with a component
    outside the range of a C int ([OverflowError]). *)
Inductive sym_image : Type :=
| Decoded (path : string) (sz : Z * Z)
| Converted (im : sym_image)
| Blurred (radius : Z) (im : sym_image)
| Solid (sz : Z * Z) (color : rgba)
| Over (bottom top : sym_image).

Fixpoint sym_size (im : sym_image) : Z * Z :=
  match im with
  | Decoded _ sz => sz
  | Converted im => sym_size im
  | Blurred _ im => sym_size im
  | Solid sz _ => sz
  | Over bottom _ => sym_size bottom
  end.

Definition sym_alpha_composite (a b : sym_image) : result sym_image :=
  if decide (sym_size a = sym_size b) then Ok (Over a b) else Raise "ValueError".

Definition sym_GaussianBlur (radius : Z) (im : sym_image) : result sym_image :=
  if (0 <=? radius)%Z && negb (2147483647 <=? radius)%Z
  then Ok (Blurred radius im) else Raise "ValueError".

(** The value fits a C int. *)
Definition c_int (x : Z) : bool :=
  (-2147483648 <=? x)%Z && negb (2147483648 <=? x)%Z.

Definition sym_Image_new (sz : Z * Z) (color : rgba) : result sym_image :=
  let '(r, g, b, a) := color in
  if c_int r && c_int g && c_int b && c_int a then Ok (Solid sz color)
  else Raise "OverflowError".

Lemma sym_size_GaussianBlur (r : Z) (im im' : sym_image) :
  sym_GaussianBlur r im = Ok im' → sym_size im' = sym_size im.
Proof.
  unfold sym_GaussianBlur. destruct (_ && _); [|discriminate].
  by intros [= <-].
Qed.

Lemma sym_size_Image_new (sz : Z * Z) (c : rgba) (im : sym_image) :
  sym_Image_new sz c = Ok im → sym_size im = sz.
Proof.
  destruct c as [[[r g] b] a]. unfold sym_Image_new.
  destruct (_ && _); [|discriminate]. by intros [= <-].
Qed.

Lemma sym_alpha_composite_match (a b : sym_image) :
  sym_size a = sym_size b →
  ∃ c, sym_alpha_composite a b = Ok c ∧ sym_size c = sym_size a.
Proof.
  intros Hsz. exists (Over a b). unfold sym_alpha_composite.
  rewrite decide_True by exact Hsz. split; reflexivity.
Qed.

Lemma sym_alpha_composite_mismatch (a b : sym_image) :
  sym_size a ≠ sym_size b → sym_alpha_composite a b = Raise "ValueError".
Proof.
  intros Hsz. unfold sym_alpha_composite.
  rewrite decide_False by exact Hsz. reflexivity.
Qed.

Instance SymPillow : Pillow := {|
  image := sym_image;
  image_size := sym_size;
  convert_rgba := Converted;
  GaussianBlur := sym_GaussianBlur;
  Image_new := sym_Image_new;
  alpha_composite := sym_alpha_composite;
  size_convert_rgba := λ im, eq_refl;
  size_GaussianBlur := sym_size_GaussianBlur;
  size_Image_new := sym_size_Image_new;
  alpha_composite_match := sym_alpha_composite_match;
  alpha_composite_mismatch := sym_alpha_composite_mismatch;
|}.

(** ** Effects (identical in mar141.py and mar143.py) *)

Section Effects.
Context `{Pillow}.

(** [apply_blur(image, blur_amount)] *)
Definition apply_blur (im : image) (blur_amount : Z) : result image :=
  GaussianBlur blur_amount im.

(** [apply_fog(image, fog_amount)] *)
Definition apply_fog (im : image) (fog_amount : Z) : result image :=
  fog ← Image_new (image_size im) (255, 255, 255, fog_amount)%Z;
  alpha_composite (convert_rgba im) fog.

(** The radius is one that the blur filter accepts, whatever the image. *)
Definition blur_accepted (radius : Z) : Prop :=
  ∀ im, ∃ blurred, GaussianBlur radius im = Ok blurred.

(** The opacity is one that [Image.new] accepts as the alpha of the fog
    colour, whatever the image whose size it is given. *)
Definition fog_accepted (opacity : Z) : Prop :=
  ∀ im, ∃ fog, Image_new (image_size im) (255, 255, 255, opacity)%Z = Ok fog.

(** The amounts that the gates let through are accepted by the library. *)
Definition amounts_accepted (blur_amount fog_amount : Z) : Prop :=
  ((0 < blur_amount)%Z → blur_accepted blur_amount) ∧
  ((0 < fog_amount)%Z → fog_accepted fog_amount).

(** [x in xs] on a list of ints *)
Definition py_in (x : Z) (xs : list Z) : bool := bool_decide (x ∈ xs).

(** The two gated effect statements applied to one decoded layer image:
      if layer_index in blur_layers and blur_amount > 0: ...
      if layer_index in fog_layers and fog_amount > 0: ... *)
Definition apply_effects (layer_index : nat) (blur_layers fog_layers : list Z)
    (blur_amount fog_amount : Z) (frame : image) : result image :=
  frame ←
    (if py_in (Z.of_nat layer_index) blur_layers && (0 <? blur_amount)%Z
     then apply_blur frame blur_amount else Ok frame);
  if py_in (Z.of_nat layer_index) fog_layers && (0 <? fog_amount)%Z
  then apply_fog frame fog_amount else Ok frame.
End Effects.
Arguments apply_effects : simpl never.

(** ** Layer normalization

    The padding code is the same text at mar141.py:40-44 (merge_layers),
    mar141.py:280-284 and mar143.py:302-306 (start_merge):

      num_frames = max(len(layer) for layer in layers)
      for i in range(len(layers)):
          if len(layers[i]) < num_frames:
              layers[i] += [layers[i][-1]] * (num_frames - len(layers[i]))

    [layers] is a list of references to list objects; [+=] on a list
    extends the object in place, so every alias of it sees the padding.
    A reference that the store does not hold reads as the empty list. *)

Abbreviation loc := nat (only parsing).
Abbreviation heap := (gmap nat (list string)) (only parsing).

(** [max(len(layer) for layer in layers)]; [max] of an empty sequence
    raises [ValueError]. *)
Definition max_len (layers : list loc) : M heap nat :=
  do σ <- get (S := heap);
  match layers with
  | [] => raise "ValueError"
  | _ => ret (max_list ((λ l, List.length (σ !!! l)) <$> layers))
  end.

(** One iteration of the padding loop, for [layers[i] = l]. *)
Definition pad_layer (num_frames : nat) (l : loc) : M heap unit :=
  do σ <- get (S := heap);
  let layer := σ !!! l in
  if (List.length layer <? num_frames)%nat then
    match last layer with
    | None => raise "IndexError"
    | Some p =>
        modify <[l := layer ++ replicate (num_frames - List.length layer) p]>
    end
  else ret tt.

Definition normalize (layers : list loc) : M heap nat :=
  do num_frames <- max_len layers;
  do_ for_each layers (pad_layer num_frames);
  ret num_frames.

(** What one list object looks like once padded to [n] entries. *)
Definition padded (n : nat) (layer : list string) : list string :=
  match last layer with
  | Some p => layer ++ replicate (n - List.length layer) p
  | None => layer
  end.

(** The layers of the padding example: three list objects with 3, 5 and 1
    paths. *)
Definition layers_3_5_1 : heap :=
  <[0 := ["a0.png"; "a1.png"; "a2.png"]]>
  (<[1 := ["b0.png"; "b1.png"; "b2.png"; "b3.png"; "b4.png"]]>
  (<[2 := ["c0.png"]]> ∅)).

(** A caller that passes two layers of 1 and 2 paths. *)
Definition layers_1_2 : heap :=
  <[0 := ["a.png"]]> (<[1 := ["b.png"; "c.png"]]> ∅).


(** ** mar141.py: sequential merge through an OpenCV video writer *)

Module Mar141.
Section Model.
Context `{Pillow}.

(** The image files: what [Image.open(path).convert("RGBA")] returns or
    raises for each path. *)
Variable disk : string → result image.

(** What the run does to the outside, in order. *)
Inductive event : Type :=
| writer_open (output_video : string) (fps : Z) (frame_size : Z * Z)
| writer_write (frame : image)
| callback (percent : Q)
| writer_release.

Record world : Type := World { lists : heap; trace : list event }.

Definition emit (e : event) : M world unit :=
  modify (λ w, World (lists w) (trace w ++ [e])).

Definition on_lists {A} (c : M heap A) : M world A :=
  λ w, let '(r, σ) := c (lists w) in (r, World σ (trace w)).

(** The values [callback] was invoked with, in order. *)
Definition progress_values (t : list event) : list Q :=
  omap (λ e, match e with callback q => Some q | _ => None end) t.

(** [if blur_layers and layer_index in blur_layers and blur_amount > 0]:
    the selection defaults to [None], and [None] and the empty list are
    both false. *)
Definition truthy (sel : option (list Z)) : bool :=
  match sel with Some (_ :: _) => true | _ => false end.

Definition selected (layer_index : nat) (sel : option (list Z)) (amount : Z) : bool :=
  truthy sel && py_in (Z.of_nat layer_index) (default [] sel) && (0 <? amount)%Z.

(** mar141.py:60-71, the loop over [enumerate(layers[1:], start=1)]. *)
Fixpoint merge_upper (merged_image : image) (layer_index : nat)
    (upper : list (list string)) (i : nat) (blur_amount fog_amount : Z)
    (blur_layers fog_layers : option (list Z)) : result image :=
  match upper with
  | [] => Ok merged_image
  | layer :: rest =>
      path ← index layer i;
      layer_image ← disk path;
      layer_image ←
        (if selected layer_index blur_layers blur_amount
         then apply_blur layer_image blur_amount else Ok layer_image);
      layer_image ←
        (if selected layer_index fog_layers fog_amount
         then apply_fog layer_image fog_amount else Ok layer_image);
      merged_image ← alpha_composite merged_image layer_image;
      merge_upper merged_image (S layer_index) rest i blur_amount fog_amount
        blur_layers fog_layers
  end.

(** mar141.py:57-71, the merged image of frame [i]. *)
Definition merge_frame (layers : list (list string)) (i : nat)
    (blur_amount fog_amount : Z) (blur_layers fog_layers : option (list Z))
    : result image :=
  layer0 ← index layers 0;
  path ← index layer0 i;
  merged_image ← disk path;
  merge_upper merged_image 1 (drop 1 layers) i blur_amount fog_amount
    blur_layers fog_layers.

(** [(i + 1) / total_frames * 100] *)
Definition percent (i total_frames : nat) : Q :=
  (inject_Z (Z.of_nat (i + 1)) / inject_Z (Z.of_nat total_frames) * 100)%Q.

(** mar141.py:55-81, one iteration of the frame loop. *)
Definition frame_step (layers : list loc) (total_frames : nat)
    (blur_amount fog_amount : Z) (blur_layers fog_layers : option (list Z))
    (progress_callback : bool) (i : nat) : M world unit :=
  do w <- get;
  do merged_image <-
    lift (merge_frame ((λ l, lists w !!! l) <$> layers) i blur_amount fog_amount
            blur_layers fog_layers);
  do_ emit (writer_write merged_image);
  if progress_callback then emit (callback (percent i total_frames)) else ret tt.

(** [merge_layers(layers, output_video, fps, blur_amount, fog_amount,
    blur_layers, fog_layers, progress_callback)]; [progress_callback]
    tells whether a callback was passed. *)
Definition merge_layers (layers : list loc) (output_video : string)
    (fps blur_amount fog_amount : Z) (blur_layers fog_layers : option (list Z))
    (progress_callback : bool) : M world unit :=
  do num_frames <- on_lists (normalize layers);
  do w <- get;
  do first_image <-
    lift (layer0 ← index ((λ l, lists w !!! l) <$> layers) 0;
          path ← index layer0 0;
          disk path);
  do_ emit (writer_open output_video fps (image_size first_image));
  let total_frames := num_frames in
  do_ for_each (seq 0 total_frames)
        (frame_step layers total_frames blur_amount fog_amount
           blur_layers fog_layers progress_callback);
  emit writer_release.
End Model.
End Mar141.

(** ** mar143.py: parallel merge, frames staged on disk, ffmpeg encoder *)

Module Mar143.

Fixpoint zeros (k : nat) : string :=
  match k with 0 => "" | S k => String "0"%char (zeros k) end.

(** [f"{n:05d}"]: decimal digits, zero-padded on the left to width 5 *)
Definition format_05d (n : nat) : string :=
  let digits := NilEmpty.string_of_uint (Nat.to_uint n) in
  zeros (5 - String.length digits) +:+ digits.

(** [f"frame_{frame_index:05d}.png"] *)
Definition frame_name (frame_index : nat) : string :=
  "frame_" +:+ format_05d frame_index +:+ ".png".

(** Reading a decimal number back, leading zeros allowed. *)
Definition read_decimal (s : string) : option nat :=
  Nat.of_uint <$> NilEmpty.uint_of_string s.

(** [a < b] whenever [a] comes before [b] in the list. *)
Definition strictly_ascending (xs : list nat) : Prop :=
  ∀ i j a b, i < j → xs !! i = Some a → xs !! j = Some b → a < b.

Section Model.
Context `{Pillow}.

(** The image files: what [Image.open(path).convert("RGBA")] returns or
    raises for each path. *)
Variable disk : string → result image.

(** The pool: the order in which the workers complete the submitted
    jobs, which is the order in which [imap_unordered] yields them. *)
Variable completion_order : list (nat * list string) → list (nat * list string).

(** The exit status of the ffmpeg process, given the output path, the
    frame rate and the frames it read. *)
Variable ffmpeg_exit : string → Z → list (nat * image) → Z.

Inductive event : Type :=
| makedirs (path : string)
| saved (dir name : string)
| callback (percent : Q)
| ffmpeg_run (output_video : string) (fps : Z) (frames : list (nat * image))
| rmtree (path : string).

(** The directories that hold staged frames (directory path, then file
    name), and what the run did so far. *)
Record world : Type :=
  World { dirs : gmap string (gmap string image); trace : list event }.

Definition emit (e : event) : M world unit :=
  modify (λ w, World (dirs w) (trace w ++ [e])).

Definition progress_values (t : list event) : list Q :=
  omap (λ e, match e with callback q => Some q | _ => None end) t.

(** The events of frame processing and encoding, as opposed to the
    creation and the removal of a directory. *)
Definition during_processing (e : event) : Prop :=
  match e with makedirs _ | rmtree _ => False | _ => True end.

(** A computation that only ever adds events of one kind to the trace. *)
Definition appends {A} (P : event → Prop) (c : M world A) : Prop :=
  ∀ w, ∃ evs, trace (c w).2 = trace w ++ evs ∧ Forall P evs.

(** [os.makedirs(path, exist_ok=True)] where the path is free or a
    directory; [Mar143FS.os_makedirs] adds the case in which it raises. *)
Definition os_makedirs (path : string) : M world unit :=
  do_ modify (λ w, World (match dirs w !! path with
                          | Some _ => dirs w
                          | None => <[path := ∅]> (dirs w)
                          end) (trace w));
  emit (makedirs path).

(** [shutil.rmtree(path, ignore_errors=True)] where the path is free or
    a directory of its own; [Mar143FS.shutil_rmtree] adds the case in
    which the removal fails and the error is dropped. *)
Definition shutil_rmtree (path : string) : M world unit :=
  do_ modify (λ w, World (delete path (dirs w)) (trace w));
  emit (rmtree path).

(** [image.save(os.path.join(dir, name))]; the directory must exist.
    The file holds the RGB conversion of [im], which [im] stands for. *)
Definition save (dir name : string) (im : image) : M world unit :=
  do w <- get;
  match dirs w !! dir with
  | None => raise "FileNotFoundError"
  | Some files =>
      do_ modify (λ w, World (<[dir := <[name := im]> files]> (dirs w)) (trace w));
      emit (saved dir name)
  end.

(** mar143.py:39-51, the loop over [enumerate(layer_paths)]. *)
Fixpoint composite (merged : option image) (layer_index : nat)
    (layer_paths : list string) (blur_layers fog_layers : list Z)
    (blur_amount fog_amount : Z) : result (option image) :=
  match layer_paths with
  | [] => Ok merged
  | path :: rest =>
      frame ← disk path;
      frame ← apply_effects layer_index blur_layers fog_layers
                blur_amount fog_amount frame;
      merged ← match merged with
               | None => Ok frame
               | Some merged => alpha_composite merged frame
               end;
      composite (Some merged) (S layer_index) rest blur_layers fog_layers
        blur_amount fog_amount
  end.

(** [process_frame(frame_data, temp_dir, blur_layers, fog_layers,
    blur_amount, fog_amount)]; with no layer path [merged] is still
    [None] when it is converted. *)
Definition process_frame (frame_data : nat * list string) (temp_dir : string)
    (blur_layers fog_layers : list Z) (blur_amount fog_amount : Z)
    : M world nat :=
  let '(frame_index, layer_paths) := frame_data in
  do merged <- lift (composite None 0 layer_paths blur_layers fog_layers
                       blur_amount fog_amount);
  match merged with
  | None => raise "AttributeError"
  | Some merged =>
      do_ save temp_dir (frame_name frame_index) merged;
      ret frame_index
  end.

(** mar143.py:65-68:
      for i in range(num_frames):
          layer_paths = [layer[i] for layer in image_paths]
          frame_data.append((i, layer_paths)) *)
Definition prepare_frame_data (image_paths : list (list string))
    (num_frames : nat) : result (list (nat * list string)) :=
  mapM (λ i, layer_paths ← mapM (λ layer, index layer i) image_paths;
             Ok (i, layer_paths))
       (seq 0 num_frames).

(** [(i + 1) * 100 / num_frames]; [num_frames] is positive whenever a
    job of the frame data completes. *)
Definition percent (i num_frames : nat) : Q :=
  (inject_Z (Z.of_nat ((i + 1) * 100)) / inject_Z (Z.of_nat num_frames))%Q.

(** mar143.py:83-85, [for i, _ in enumerate(pool.imap_unordered(...))]:
    the jobs come in completion order, [i] counts them.  What a job does
    to the staging directory is placed at its completion; when a job
    raises, the exception propagates from the loop and the jobs that
    would complete after it are left out. *)
Fixpoint collect (i : nat) (completed : list (nat * list string))
    (temp_dir : string) (num_frames : nat) (blur_layers fog_layers : list Z)
    (blur_amount fog_amount : Z) (progress_callback : bool) : M world unit :=
  match completed with
  | [] => ret tt
  | job :: rest =>
      do _ <- process_frame job temp_dir blur_layers fog_layers
                blur_amount fog_amount;
      do_ (if progress_callback then emit (callback (percent i num_frames))
           else ret tt);
      collect (S i) rest temp_dir num_frames blur_layers fog_layers
        blur_amount fog_amount progress_callback
  end.

(** The frames ffmpeg's image-sequence reader takes for the pattern
    [frame_%05d.png]: it starts at the first index among 0..4 that
    exists and reads consecutive indices up to the first missing one. *)
Fixpoint read_from (fuel : nat) (files : gmap string image) (i : nat)
    : list (nat * image) :=
  match fuel with
  | 0 => []
  | S fuel =>
      match files !! frame_name i with
      | Some im => (i, im) :: read_from fuel files (S i)
      | None => []
      end
  end.

Definition first_index (files : gmap string image) : option nat :=
  List.find (λ i, bool_decide (is_Some (files !! frame_name i))) (seq 0 5).

Definition read_sequence (files : gmap string image) : list (nat * image) :=
  match first_index files with
  | Some start => read_from (size files) files start
  | None => []
  end.

(** mar143.py:88-99, [subprocess.run(ffmpeg_command, check=True)] *)
Definition run_ffmpeg (temp_dir output_video : string) (fps : Z) : M world unit :=
  do w <- get;
  let frames := read_sequence (default ∅ (dirs w !! temp_dir)) in
  do_ emit (ffmpeg_run output_video fps frames);
  if (ffmpeg_exit output_video fps frames =? 0)%Z then ret tt
  else raise "CalledProcessError".

(** [merge_layers(image_paths, output_video, fps, blur_amount, fog_amount,
    blur_layers, fog_layers, progress_callback)] *)
Definition merge_layers (image_paths : list (list string)) (output_video : string)
    (fps blur_amount fog_amount : Z) (blur_layers fog_layers : list Z)
    (progress_callback : bool) : M world unit :=
  let temp_dir := "temp_frames" in
  do_ os_makedirs temp_dir;
  try_finally
    (do layer0 <- lift (index image_paths 0);
     let num_frames := List.length layer0 in
     do frame_data <- lift (prepare_frame_data image_paths num_frames);
     do_ collect 0 (completion_order frame_data) temp_dir num_frames
           blur_layers fog_layers blur_amount fog_amount progress_callback;
     run_ffmpeg temp_dir output_video fps)
    (shutil_rmtree temp_dir).

(** mar143.py:365-374, the loop over [enumerate(layers[1:], start=1)]. *)
Fixpoint merge_upper (merged_image : image) (layer_index : nat)
    (upper : list (list string)) (i : nat) (blur_amount fog_amount : Z)
    (blur_layers fog_layers : list Z) : result image :=
  match upper with
  | [] => Ok merged_image
  | layer :: rest =>
      path ← index layer i;
      layer_image ← disk path;
      layer_image ← apply_effects layer_index blur_layers fog_layers
                      blur_amount fog_amount layer_image;
      merged_image ← alpha_composite merged_image layer_image;
      merge_upper merged_image (S layer_index) rest i blur_amount fog_amount
        blur_layers fog_layers
  end.

(** mar143.py:352-376, the merged image of frame [i]. *)
Definition merged_image_at (layers : list (list string))
    (blur_amount fog_amount : Z) (blur_layers fog_layers : list Z) (i : nat)
    : result image :=
  layer0 ← index layers 0;
  path ← index layer0 i;
  first_layer ← disk path;
  first_layer ← apply_effects 0 blur_layers fog_layers blur_amount fog_amount
                  first_layer;
  merge_upper first_layer 1 (drop 1 layers) i blur_amount fog_amount
    blur_layers fog_layers.

(** [generate_merged_images(layers, blur_amount, fog_amount, blur_layers,
    fog_layers)] *)
Definition generate_merged_images (layers : list (list string))
    (blur_amount fog_amount : Z) (blur_layers fog_layers : list Z)
    : result (list image) :=
  layer0 ← index layers 0;
  mapM (merged_image_at layers blur_amount fog_amount blur_layers fog_layers)
       (seq 0 (List.length layer0)).
End Model.
End Mar143.

(** ** Sample inputs used by the examples below *)

(** Every path decodes to a 4x4 image, except one that does not exist. *)
Definition sample_disk (path : string) : result sym_image :=
  if decide (path = "missing.png") then Raise "FileNotFoundError"
  else Ok (Decoded path (4, 4)%Z).

(** A pool whose workers finish in the reverse of the submission order. *)
Definition reverse_completion (jobs : list (nat * list string))
  : list (nat * list string) := rev jobs.

(** An ffmpeg that fails when it finds no input frame and succeeds
    otherwise. *)
Definition sample_ffmpeg (output_video : string) (fps : Z)
    (frames : list (nat * sym_image)) : Z :=
  match frames with [] => 1%Z | _ => 0%Z end.

Definition empty_world : Mar143.world := Mar143.World ∅ [].

(** A staging directory left behind with two old frames in it. *)
Definition stale_world : Mar143.world :=
  Mar143.World
    {[ "temp_frames" :=
         <[ "frame_00000.png" := Decoded "old0.png" (4, 4)%Z ]>
         {[ "frame_00002.png" := Decoded "old2.png" (4, 4)%Z ]} ]} [].

(** ** Properties of a sequence of progress values *)

Definition non_decreasing (qs : list Q) : Prop :=
  ∀ i j qi qj, i ≤ j → qs !! i = Some qi → qs !! j = Some qj → (qi <= qj)%Q.

Definition within_0_100 (qs : list Q) : Prop :=
  ∀ q, q ∈ qs → (0 <= q)%Q ∧ (q <= 100)%Q.

(** The last value is 100 and no earlier value is. *)
Definition hundred_once_at_end (qs : list Q) : Prop :=
  (∃ q, last qs = Some q ∧ (q == 100)%Q) ∧
  ∀ i q, qs !! i = Some q → (q == 100)%Q → S i = List.length qs.

(** ** mar141.py: the preview images *)

Module Mar141App.
Section Model.
Context `{Pillow}.
Variable disk : string → result image.

(** mar141.py:326-337, the loop over [enumerate(layers[1:], start=1)] of
    [generate_merged_images]; the selections are lists here. *)
Fixpoint preview_upper (merged_image : image) (layer_index : nat)
    (upper : list (list string)) (i : nat) (blur_amount fog_amount : Z)
    (blur_layers fog_layers : list Z) : result image :=
  match upper with
  | [] => Ok merged_image
  | layer :: rest =>
      path ← index layer i;
      layer_image ← disk path;
      layer_image ← apply_effects layer_index blur_layers fog_layers
                      blur_amount fog_amount layer_image;
      merged_image ← alpha_composite merged_image layer_image;
      preview_upper merged_image (S layer_index) rest i blur_amount fog_amount
        blur_layers fog_layers
  end.

(** mar141.py:321-339, the merged image of frame [i]. *)
Definition preview_image_at (layers : list (list string))
    (blur_amount fog_amount : Z) (blur_layers fog_layers : list Z) (i : nat)
    : result image :=
  layer0 ← index layers 0;
  path ← index layer0 i;
  merged_image ← disk path;
  preview_upper merged_image 1 (drop 1 layers) i blur_amount fog_amount
    blur_layers fog_layers.

(** [generate_merged_images(layers, blur_amount, fog_amount, blur_layers,
    fog_layers)] of mar141.py *)
Definition generate_merged_images (layers : list (list string))
    (blur_amount fog_amount : Z) (blur_layers fog_layers : list Z)
    : result (list image) :=
  layer0 ← index layers 0;
  mapM (preview_image_at layers blur_amount fog_amount blur_layers fog_layers)
       (seq 0 (List.length layer0)).

(** The frames handed to the video writer, in order. *)
Definition written_frames (t : list (Mar141.event)) : list image :=
  omap (λ e, match e with Mar141.writer_write f => Some f | _ => None end) t.

(** The events of one iteration of the frame loop of [merge_layers]. *)
Definition frame_events (total_frames : nat) (progress_callback : bool)
    (i : nat) (frame : image) : list Mar141.event :=
  Mar141.writer_write frame ::
  (if progress_callback then [Mar141.callback (Mar141.percent i total_frames)]
   else []).
End Model.
End Mar141App.

(** ** The application class [PNGtoMP4App]

    The methods modelled here have the same text in mar141.py and in
    mar143.py.  Widgets are the data they hold: a list box is its items and
    the indices selected in it, a layer row is its grid row, its label and
    the text of its path entry. *)

Module PNGtoMP4App.

(** [f"{n}"] for a non-negative int *)
Definition str (n : nat) : string := NilEmpty.string_of_uint (Nat.to_uint n).

Record listbox : Type := Listbox { items : list string; selection : list nat }.

(** [listbox.delete(0, tk.END)]: no item is left, hence no selection. *)
Definition listbox_delete_all (lb : listbox) : listbox := Listbox [] [].

(** [listbox.insert(tk.END, text)] *)
Definition listbox_insert_end (text : string) (lb : listbox) : listbox :=
  Listbox (items lb ++ [text]) (selection lb).

Record layer_frame : Type :=
  LayerFrame { grid_row : nat; label : string; layer_path : string }.

(** The part of the object that the modelled methods read or write.
    [fps] is [None] when the text of the entry is not a number, in
    which case [IntVar.get] raises [TclError]. *)
Record app : Type := App {
  layers : list (list string);
  layer_frames : list layer_frame;
  blur_layer_listbox : listbox;
  fog_layer_listbox : listbox;
  output_video : string;
  fps : option Z;
  blur_amount : Z;
  fog_amount : Z;
}.

(** [update_layer_listboxes(self)] *)
Definition update_layer_listboxes (a : app) : app :=
  let fill (lb : listbox) :=
    foldl (λ lb i, listbox_insert_end ("Layer " +:+ str (i + 1)) lb)
          (listbox_delete_all lb) (seq 0 (List.length (layers a))) in
  App (layers a) (layer_frames a)
      (fill (blur_layer_listbox a)) (fill (fog_layer_listbox a))
      (output_video a) (fps a) (blur_amount a) (fog_amount a).

(** [add_layer_ui(self)] *)
Definition add_layer_ui (a : app) : app :=
  let layer_index := List.length (layers a) + 1 in
  let frame :=
    LayerFrame (10 + List.length (layers a))
      ("Layer " +:+ str layer_index +:+ " (Folder or PNG):") "" in
  update_layer_listboxes
    (App (layers a ++ [[]]) (layer_frames a ++ [frame])
         (blur_layer_listbox a) (fog_layer_listbox a)
         (output_video a) (fps a) (blur_amount a) (fog_amount a)).

(** [xs.pop()]: the list without its last item; raises on an empty list. *)
Definition pop {A} (xs : list A) : result (list A) :=
  match xs with
  | [] => Raise "IndexError"
  | _ => Ok (take (List.length xs - 1) xs)
  end.

(** [remove_layer_ui(self)] *)
Definition remove_layer_ui (a : app) : result app :=
  if (1 <? List.length (layers a))%nat then
    frames ← pop (layer_frames a);
    ls ← pop (layers a);
    Ok (update_layer_listboxes
          (App ls frames (blur_layer_listbox a) (fog_layer_listbox a)
               (output_video a) (fps a) (blur_amount a) (fog_amount a)))
  else Ok a.

(** The state that [__init__] leaves: no layer, default values, then
    [add_layer_ui] twice. *)
Definition init : app :=
  add_layer_ui (add_layer_ui
    (App [] [] (Listbox [] []) (Listbox [] []) "" (Some 30%Z) 0%Z 0%Z)).

(** What the user can do to the widgets between two method calls: type
    into the entries, move the sliders, and select items of the list
    boxes.  The selected indices are indices of items. *)
Definition valid_selection (lb : listbox) : Prop :=
  ∀ i, i ∈ selection lb → i < List.length (items lb).

Definition user_edit (a a' : app) : Prop :=
  layers a' = layers a ∧
  grid_row <$> layer_frames a' = grid_row <$> layer_frames a ∧
  label <$> layer_frames a' = label <$> layer_frames a ∧
  items (blur_layer_listbox a') = items (blur_layer_listbox a) ∧
  items (fog_layer_listbox a') = items (fog_layer_listbox a) ∧
  valid_selection (blur_layer_listbox a') ∧
  valid_selection (fog_layer_listbox a').

(** The states the window can be in. *)
Inductive reachable : app → Prop :=
| reachable_init : reachable init
| reachable_add a : reachable a → reachable (add_layer_ui a)
| reachable_remove a a' :
    reachable a → remove_layer_ui a = Ok a' → reachable a'
| reachable_edit a a' : reachable a → user_edit a a' → reachable a'.

(** What holds of the window in every state: there is at least one
    layer; [self.layers] holds one empty list per layer row; the rows are
    at grid rows 10, 11, ... and are labelled in order; both list boxes
    list the layers in order; and the selected indices are indices of
    layers. *)
Definition well_formed (a : app) : Prop :=
  let k := List.length (layers a) in
  1 ≤ k ∧
  layers a = replicate k [] ∧
  List.length (layer_frames a) = k ∧
  grid_row <$> layer_frames a = seq 10 k ∧
  label <$> layer_frames a =
    (λ i, "Layer " +:+ str (i + 1) +:+ " (Folder or PNG):") <$> seq 0 k ∧
  items (blur_layer_listbox a) = (λ i, "Layer " +:+ str (i + 1)) <$> seq 0 k ∧
  items (fog_layer_listbox a) = (λ i, "Layer " +:+ str (i + 1)) <$> seq 0 k ∧
  valid_selection (blur_layer_listbox a) ∧
  valid_selection (fog_layer_listbox a).

(** [s.endswith(suffix)] *)
Definition endswith (s suffix : string) : bool :=
  bool_decide (String.list_ascii_of_string suffix
                 `suffix_of` String.list_ascii_of_string s).

(** [s.startswith(prefix)] *)
Definition startswith (s prefix : string) : bool :=
  bool_decide (String.list_ascii_of_string prefix
                 `prefix_of` String.list_ascii_of_string s).

(** [os.path.join(a, b)] on a POSIX system *)
Definition os_path_join (a b : string) : string :=
  if startswith b "/" then b
  else if bool_decide (a = "") || endswith a "/" then a +:+ b
  else a +:+ "/" +:+ b.

Section StartMerge.
(** The file system as [start_merge] sees it. *)
Variable isfile : string → bool.
Variable isdir : string → bool.
Variable listdir : string → list string.

(** mar143.py:293,
    [sorted([os.path.join(path, f) for f in os.listdir(path)
             if f.endswith('.png')])] *)
Definition png_files (path : string) : list string :=
  merge_sort String.le
    (os_path_join path <$> filter (λ f, endswith f ".png" = true) (listdir path)).

(** How the first part of [start_merge] ends: with a dialog and
    [return], or with the arguments of the calls that follow. *)
Inductive prepared : Type :=
| Returned (title message : string)
| Ready (layers : list (list string)) (output_video : string)
        (fps blur_amount fog_amount : Z) (blur_layers fog_layers : list Z).

(** mar143.py:281-299, the loop over [self.layer_frames]; [inr] is the
    message of the error dialog after which the method returns. *)
Fixpoint read_layers (frames : list layer_frame) (layers : list (list string))
    : result (list (list string) + string) :=
  match frames with
  | [] => Ok (inl layers)
  | frame :: rest =>
      let path := layer_path frame in
      if bool_decide (path = "") then
        Ok (inr "Please provide paths for all layers.")
      else if isfile path && endswith path ".png" then
        read_layers rest (layers ++ [[path]])
      else if isdir path then
        match png_files path with
        | [] => Ok (inr ("The folder '" +:+ path +:+ "' contains no PNG files."))
        | files => read_layers rest (layers ++ [files])
        end
      else Raise "ValueError"
  end.

(** A layer row that the loop accepts: its path is a PNG file, or a
    folder that holds a PNG file. *)
Definition acceptable (frame : layer_frame) : Prop :=
  layer_path frame ≠ "" ∧
  (isfile (layer_path frame) && endswith (layer_path frame) ".png" = true ∨
   (isdir (layer_path frame) = true ∧ png_files (layer_path frame) ≠ [])).

(** The layer that the loop builds for an accepted row. *)
Definition layer_of (frame : layer_frame) : list string :=
  if isfile (layer_path frame) && endswith (layer_path frame) ".png"
  then [layer_path frame] else png_files (layer_path frame).

(** How the loop ends at a row that it does not accept. *)
Definition rejected (frame : layer_frame) : result (list (list string) + string) :=
  if bool_decide (layer_path frame = "") then
    Ok (inr "Please provide paths for all layers.")
  else if isdir (layer_path frame) then
    Ok (inr ("The folder '" +:+ layer_path frame +:+ "' contains no PNG files."))
  else Raise "ValueError".

(** The layers that [start_merge] hands on once every row is accepted:
    one list per row, padded to the longest. *)
Definition merged_layers (a : app) : list (list string) :=
  let layers := layer_of <$> layer_frames a in
  padded (max_list (List.length <$> layers)) <$> layers.

(** The list objects of the local variable [layers], at fresh
    locations [0 .. len(layers) - 1]. *)
Definition local_lists (layers : list (list string)) : gmap nat (list string) :=
  map_seq 0 layers.

(** mar143.py:301-306, the padding of the local lists. *)
Definition pad_local (layers : list (list string)) : result (list (list string)) :=
  match normalize (seq 0 (List.length layers)) (local_lists layers) with
  | (Ok _, σ) => Ok ((λ l, σ !!! l) <$> seq 0 (List.length layers))
  | (Raise e, _) => Raise e
  end.

(** mar143.py:279-319 (mar141.py:257-297), [start_merge] up to its
    [try] statement. *)
Definition start_merge_prepare (a : app) : result prepared :=
  collected ← read_layers (layer_frames a) [];
  match collected with
  | inr message => Ok (Returned "Error" message)
  | inl layers =>
      layers ← pad_local layers;
      let output_video := output_video a in
      fps ← match fps a with Some fps => Ok fps | None => Raise "TclError" end;
      let blur_amount := blur_amount a in
      let fog_amount := fog_amount a in
      let blur_layers := Z.of_nat <$> selection (blur_layer_listbox a) in
      let fog_layers := Z.of_nat <$> selection (fog_layer_listbox a) in
      if bool_decide (output_video = "") then
        Ok (Returned "Error" "Please specify the output video file.")
      else Ok (Ready layers output_video fps blur_amount fog_amount
                 blur_layers fog_layers)
  end.
End StartMerge.
End PNGtoMP4App.

(** A folder with three entries, two of them PNG files. *)
Definition sample_listdir (path : string) : list string :=
  if bool_decide (path = "frames") then ["b.png"; "notes.txt"; "a.png"] else [].

Definition sample_isdir (path : string) : bool := bool_decide (path = "frames").

Definition sample_isfile (path : string) : bool := bool_decide (path = "logo.png").

(** The window after the user has filled in two layers and an output
    path, and selected layer 2 for blur. *)
Definition sample_app : PNGtoMP4App.app :=
  PNGtoMP4App.App [[]; []]
    [PNGtoMP4App.LayerFrame 10 "Layer 1 (Folder or PNG):" "logo.png";
     PNGtoMP4App.LayerFrame 11 "Layer 2 (Folder or PNG):" "frames"]
    (PNGtoMP4App.Listbox ["Layer 1"; "Layer 2"] [1])
    (PNGtoMP4App.Listbox ["Layer 1"; "Layer 2"] [])
    "out.mp4" (Some 30%Z) 3%Z 0%Z.

(** ** mar143.py: the staging directory on a file system that can refuse

    [Mar143] runs [merge_layers] in a file system in which the path of the
    staging directory is free or is a directory of its own, so that
    [os.makedirs] and [shutil.rmtree] do what they are asked.  The path can
    be two other things, and both change what [merge_layers] does:
    something that is not a directory (a regular file), for which
    [os.makedirs] raises [FileExistsError]; and a directory that
    [shutil.rmtree] cannot remove, or not all of, an error that
    [ignore_errors=True] drops: a symbolic link to a directory, for one,
    which [os.makedirs(..., exist_ok=True)] accepts and on which
    [shutil.rmtree] raises [OSError] before it removes anything. *)

Module Mar143FS.
Section Model.
Context `{Pillow}.
Variable disk : string → result image.
Variable completion_order : list (nat * list string) → list (nat * list string).
Variable ffmpeg_exit : string → Z → list (nat * image) → Z.

(** What [shutil.rmtree(path, ignore_errors=True)] leaves of the
    directory at [path] that holds [files]: [None] when it removes the
    tree, the files that are left when it fails on the directory or on
    some of its entries. *)
Variable rmtree_leaves :
  string → gmap string image → option (gmap string image).

(** The directories and the trace as in [Mar143.world] (a directory that
    is reached through a symbolic link is held under the path of the
    link), and the paths that are taken by something that is not a
    directory. *)
Record file_system : Type := FileSystem {
  world : Mar143.world;
  regular_files : gset string;
}.

Definition on_world {A} (c : M Mar143.world A) : M file_system A :=
  λ fs, let '(r, w) := c (world fs) in (r, FileSystem w (regular_files fs)).

(** [os.makedirs(path, exist_ok=True)], for a path of one component:
    [mkdir] fails when the path is taken, and [exist_ok] drops the
    [FileExistsError] only if [os.path.isdir(path)], which follows
    links. *)
Definition os_makedirs (path : string) : M file_system unit :=
  do fs <- get;
  match Mar143.dirs (world fs) !! path with
  | Some _ => on_world (Mar143.os_makedirs path)
  | None =>
      if bool_decide (path ∈ regular_files fs) then raise "FileExistsError"
      else on_world (Mar143.os_makedirs path)
  end.

(** What is at [path] once [shutil.rmtree] has been at work. *)
Definition after_rmtree (path : string)
    (dirs : gmap string (gmap string image)) : gmap string (gmap string image) :=
  match dirs !! path with
  | None => dirs
  | Some files =>
      match rmtree_leaves path files with
      | None => delete path dirs
      | Some rest => <[path := rest]> dirs
      end
  end.

(** [shutil.rmtree(path, ignore_errors=True)]: it never raises, whatever
    it could remove. *)
Definition shutil_rmtree (path : string) : M file_system unit :=
  on_world
    (do_ modify (λ w, Mar143.World (after_rmtree path (Mar143.dirs w))
                        (Mar143.trace w));
     Mar143.emit (Mar143.rmtree path)).

(** mar143.py:61-99, the body of the [try] statement of [merge_layers]. *)
Definition try_block (image_paths : list (list string)) (output_video : string)
    (fps blur_amount fog_amount : Z) (blur_layers fog_layers : list Z)
    (progress_callback : bool) : M Mar143.world unit :=
  let temp_dir := "temp_frames" in
  do layer0 <- lift (index image_paths 0);
  let num_frames := List.length layer0 in
  do frame_data <- lift (Mar143.prepare_frame_data image_paths num_frames);
  do_ Mar143.collect disk 0 (completion_order frame_data) temp_dir num_frames
        blur_layers fog_layers blur_amount fog_amount progress_callback;
  Mar143.run_ffmpeg ffmpeg_exit temp_dir output_video fps.

(** [merge_layers(image_paths, output_video, fps, blur_amount, fog_amount,
    blur_layers, fog_layers, progress_callback)]: [os.makedirs] comes
    before the [try] statement, [shutil.rmtree] is its [finally]
    clause. *)
Definition merge_layers (image_paths : list (list string)) (output_video : string)
    (fps blur_amount fog_amount : Z) (blur_layers fog_layers : list Z)
    (progress_callback : bool) : M file_system unit :=
  let temp_dir := "temp_frames" in
  do_ os_makedirs temp_dir;
  try_finally
    (on_world (try_block image_paths output_video fps blur_amount fog_amount
                 blur_layers fog_layers progress_callback))
    (shutil_rmtree temp_dir).

(** A computation that leaves a directory that exists in existence. *)
Definition keeps_directory {A} (dir : string) (c : M Mar143.world A) : Prop :=
  ∀ w, is_Some (Mar143.dirs w !! dir) → is_Some (Mar143.dirs (c w).2 !! dir).
End Model.
End Mar143FS.

(** A [shutil.rmtree] that removes every tree it is given. *)
Definition rmtree_removes (path : string) (files : gmap string sym_image)
  : option (gmap string sym_image) := None.

(** "temp_frames" is a symbolic link to a directory: [shutil.rmtree]
    refuses it and leaves the directory as it is. *)
Definition rmtree_refuses_link (path : string) (files : gmap string sym_image)
  : option (gmap string sym_image) :=
  if bool_decide (path = "temp_frames") then Some files else None.

(** The directory that the link "temp_frames" leads to is empty. *)
Definition linked_fs : Mar143FS.file_system (H := SymPillow) :=
  Mar143FS.FileSystem (Mar143.World {[ "temp_frames" := ∅ ]} []) ∅.

(** "temp_frames" is a regular file. *)
Definition blocked_fs : Mar143FS.file_system (H := SymPillow) :=
  Mar143FS.FileSystem empty_world {[ "temp_frames" ]}.

(** Nothing is at "temp_frames". *)
Definition free_fs : Mar143FS.file_system (H := SymPillow) :=
  Mar143FS.FileSystem empty_world ∅.
(** *** Facts about the padding loop *)

Lemma padded_nonempty (n : nat) (layer : list string) :
  layer ≠ [] →
  ∃ p, last layer = Some p ∧
       padded n layer = layer ++ replicate (n - List.length layer) p.
Proof.
  intros Hne. unfold padded.
  destruct (last layer) as [p|] eqn:Hlast.
  - exists p. split; reflexivity.
  - apply last_None in Hlast. contradiction.
Qed.

Lemma padded_length (n : nat) (layer : list string) :
  layer ≠ [] → List.length (padded n layer) = Nat.max n (List.length layer).
Proof.
  intros Hne. destruct (padded_nonempty n layer Hne) as (p & _ & ->).
  rewrite length_app, length_replicate. lia.
Qed.

Lemma padded_long_enough (n : nat) (layer : list string) :
  n ≤ List.length layer → padded n layer = layer.
Proof.
  intros Hlen. unfold padded. destruct (last layer); [|reflexivity].
  replace (n - List.length layer) with 0 by lia. apply app_nil_r.
Qed.

Lemma padded_idemp (n : nat) (layer : list string) :
  padded n (padded n layer) = padded n layer.
Proof.
  destruct (decide (layer = [])) as [->|Hne]; [reflexivity|].
  apply padded_long_enough. rewrite padded_length by exact Hne. lia.
Qed.

Lemma padded_nonempty_inv (n : nat) (layer : list string) :
  layer ≠ [] → padded n layer ≠ [].
Proof.
  intros Hne Hnil. apply (f_equal List.length) in Hnil.
  rewrite padded_length in Hnil by exact Hne.
  destruct layer; [contradiction|]. simpl in Hnil. lia.
Qed.

(** One iteration on a non-empty list object replaces it by its padding. *)
Lemma pad_layer_run (n : nat) (l : loc) (σ : heap) (layer : list string) :
  σ !! l = Some layer → layer ≠ [] →
  pad_layer n l σ = (Ok tt, <[l := padded n layer]> σ).
Proof.
  intros Hl Hne. unfold pad_layer, bind, get.
  rewrite (lookup_total_correct _ _ _ Hl).
  destruct (Nat.ltb_spec (List.length layer) n) as [Hlt|Hge].
  - destruct (padded_nonempty n layer Hne) as (p & Hlast & Hpad).
    rewrite Hlast, Hpad. reflexivity.
  - rewrite padded_long_enough by exact Hge.
    rewrite insert_id by exact Hl. reflexivity.
Qed.

Lemma pad_loop_run (n : nat) (todo : list loc) : ∀ σ : heap,
  (∀ l, l ∈ todo → ∃ layer, σ !! l = Some layer ∧ layer ≠ []) →
  ∃ σ' : heap,
    for_each todo (pad_layer n) σ = (Ok tt, σ') ∧
    ∀ x, σ' !! x = if decide (x ∈ todo) then padded n <$> σ !! x else σ !! x.
Proof.
  induction todo as [|l rest IH]; intros σ Hall.
  - exists σ. split; [reflexivity|]. intros x.
    rewrite decide_False by apply not_elem_of_nil. reflexivity.
  - destruct (Hall l) as (layer & Hl & Hne); [left|].
    destruct (IH (<[l := padded n layer]> σ)) as (σ' & Hrun & Hσ').
    { intros l' Hl'. destruct (decide (l' = l)) as [->|Hneq].
      - exists (padded n layer). rewrite lookup_insert_eq.
        split; [reflexivity|]. by apply padded_nonempty_inv.
      - rewrite lookup_insert_ne by congruence. apply Hall. by right. }
    exists σ'. split.
    { simpl. unfold bind at 1. rewrite (pad_layer_run n l σ layer Hl Hne).
      exact Hrun. }
    intros x. rewrite Hσ'. destruct (decide (x = l)) as [->|Hneq].
    + rewrite lookup_insert_eq, Hl. rewrite (decide_True (P := l ∈ l :: rest)) by left.
      case_decide; simpl; [by rewrite padded_idemp | reflexivity].
    + rewrite lookup_insert_ne by congruence.
      destruct (decide (x ∈ rest)) as [Hin|Hnin].
      * rewrite decide_True by (by right). reflexivity.
      * rewrite decide_False; [reflexivity|].
        intros [?|?]%elem_of_cons; contradiction.
Qed.

(** The padding never touches another object, only ever appends, and
    leaves a list that already has [n] entries alone: on every run, also
    one that raises. *)
Lemma pad_layer_frame (n : nat) (l : loc) (σ : heap) :
  let σ' := (pad_layer n l σ).2 in
  (∀ x, x ≠ l → σ' !! x = σ !! x) ∧
  (∀ x layer, σ !! x = Some layer → ∃ ext, σ' !! x = Some (layer ++ ext)) ∧
  (∀ x layer, σ !! x = Some layer → n ≤ List.length layer → σ' !! x = Some layer).
Proof.
  unfold pad_layer, bind, get; simpl.
  destruct (Nat.ltb_spec (List.length (σ !!! l)) n) as [Hlt|Hge]; simpl.
  - destruct (last (σ !!! l)) as [p|] eqn:Hlast; simpl.
    + repeat split.
      * intros x Hx. by rewrite lookup_insert_ne.
      * intros x layer Hx. destruct (decide (x = l)) as [->|Hneq].
        -- rewrite lookup_insert_eq, (lookup_total_correct _ _ _ Hx). eauto.
        -- rewrite lookup_insert_ne by congruence. exists []. by rewrite app_nil_r.
      * intros x layer Hx Hlen. destruct (decide (x = l)) as [->|Hneq].
        -- rewrite (lookup_total_correct _ _ _ Hx) in Hlt. lia.
        -- by rewrite lookup_insert_ne.
    + repeat split; try done. intros x layer Hx. exists []. by rewrite app_nil_r.
  - repeat split; try done. intros x layer Hx. exists []. by rewrite app_nil_r.
Qed.

Lemma pad_loop_frame (n : nat) (todo : list loc) : ∀ σ : heap,
  let σ' := (for_each todo (pad_layer n) σ).2 in
  (∀ x, x ∉ todo → σ' !! x = σ !! x) ∧
  (∀ x layer, σ !! x = Some layer → ∃ ext, σ' !! x = Some (layer ++ ext)) ∧
  (∀ x layer, σ !! x = Some layer → n ≤ List.length layer → σ' !! x = Some layer).
Proof.
  induction todo as [|l rest IHrest]; intros σ; simpl.
  - repeat split; try done. intros x layer Hx. exists []. by rewrite app_nil_r.
  - destruct (pad_layer_frame n l σ) as (F1 & F2 & F3).
    unfold bind at 1 2 3.
    destruct (pad_layer n l σ) as [[[]|e] σ1] eqn:Hstep; simpl in *.
    + destruct (IHrest σ1) as (G1 & G2 & G3). repeat split.
      * intros x Hx. apply not_elem_of_cons in Hx as [Hxl Hxr]. by rewrite G1, F1.
      * intros x layer Hx. destruct (F2 x layer Hx) as (e1 & Hx1).
        destruct (G2 x _ Hx1) as (e2 & Hx2). exists (e1 ++ e2).
        by rewrite Hx2, app_assoc.
      * intros x layer Hx Hlen. apply G3; [|done]. by apply F3.
    + repeat split; try done. intros x Hx. apply F1.
      by apply not_elem_of_cons in Hx as [Hxl _].
Qed.

Example normalize_3_5_1 :
  ∃ σ' : heap,
    normalize [0; 1; 2] layers_3_5_1 = (Ok 5, σ') ∧
    σ' !! 0 = Some ["a0.png"; "a1.png"; "a2.png"; "a2.png"; "a2.png"] ∧
    σ' !! 1 = Some ["b0.png"; "b1.png"; "b2.png"; "b3.png"; "b4.png"] ∧
    σ' !! 2 = Some ["c0.png"; "c0.png"; "c0.png"; "c0.png"; "c0.png"].
Proof. eexists. repeat split; vm_compute; reflexivity. Qed.

(** The same list object listed twice is padded once. *)
Example normalize_aliased :
  ∃ σ' : heap,
    normalize [2; 1; 2] layers_3_5_1 = (Ok 5, σ') ∧
    σ' !! 2 = Some ["c0.png"; "c0.png"; "c0.png"; "c0.png"; "c0.png"].
Proof. eexists. repeat split; vm_compute; reflexivity. Qed.

(** C1. Normalization of a non-empty list of non-empty layers succeeds
    with the maximum layer length [n]; afterwards each layer is its old
    content followed by copies of its last path up to length [n]: its
    length is [n], the entries below the old length are unchanged, the new
    entries all equal the old last path, and a layer that already had [n]
    entries is unchanged. *)
Theorem normalize_pads_every_layer (σ : heap) (layers : list loc) :
  layers ≠ [] →
  (∀ l, l ∈ layers → ∃ layer, σ !! l = Some layer ∧ layer ≠ []) →
  ∃ (n : nat) (σ' : heap),
    normalize layers σ = (Ok n, σ') ∧
    n = max_list ((λ l, List.length (σ !!! l)) <$> layers) ∧
    ∀ l layer, l ∈ layers → σ !! l = Some layer →
      ∃ p layer',
        last layer = Some p ∧
        σ' !! l = Some layer' ∧
        layer' = layer ++ replicate (n - List.length layer) p ∧
        List.length layer' = n ∧
        (∀ i, i < List.length layer → layer' !! i = layer !! i) ∧
        (∀ i, List.length layer ≤ i < n → layer' !! i = Some p) ∧
        (List.length layer = n → layer' = layer).
Proof.
  intros Hne Hall.
  set (n := max_list ((λ l, List.length (σ !!! l)) <$> layers)).
  destruct (pad_loop_run n layers σ Hall) as (σ' & Hrun & Hσ').
  exists n, σ'. split; [|split; [reflexivity|]].
  - unfold normalize, max_len, bind, get. destruct layers as [|l0 rest]; [done|].
    fold n. unfold ret at 1. rewrite Hrun. reflexivity.
  - intros l layer Hin Hl.
    destruct (Hall l Hin) as (layer0 & Hl0 & Hne0).
    assert (layer0 = layer) as -> by congruence.
    destruct (padded_nonempty n layer Hne0) as (p & Hlast & Hpad).
    assert (List.length layer ≤ n) as Hle.
    { apply max_list_elem_of_le. apply list_elem_of_fmap.
      exists l. split; [|done]. by rewrite (lookup_total_correct _ _ _ Hl). }
    exists p, (padded n layer). rewrite Hσ', decide_True, Hl by done.
    repeat split; try done.
    + rewrite padded_length by done. lia.
    + intros i Hi. rewrite Hpad. by apply lookup_app_l.
    + intros i [Hi1 Hi2]. rewrite Hpad, lookup_app_r by done.
      apply lookup_replicate_2. lia.
    + intros Hn. apply padded_long_enough. lia.
Qed.

Lemma normalize_pads_every_layer_witness :
  ∃ σ' : heap,
    normalize [0; 1; 2] layers_3_5_1 = (Ok 5, σ') ∧
    List.length (σ' !!! 2) = 5.
Proof.
  destruct (normalize_pads_every_layer layers_3_5_1 [0; 1; 2])
    as (n & σ' & Hrun & Hn & Hlayers).
  - discriminate.
  - intros l Hl. exists (layers_3_5_1 !!! l).
    repeat (apply elem_of_cons in Hl as [->|Hl]); [..|by apply elem_of_nil in Hl];
      split; vm_compute; done.
  - assert (n = 5) as -> by (rewrite Hn; vm_compute; reflexivity).
    exists σ'. split; [exact Hrun|].
    destruct (Hlayers 2 ["c0.png"]) as (p & layer' & _ & Hl' & _ & Hlen & _).
    + set_solver.
    + vm_compute. reflexivity.
    + by rewrite (lookup_total_correct _ _ _ Hl').
Defined.

(** C8, refuted as stated: the caller's first path-list holds one
    path before normalization and two after it. *)
Lemma normalize_mutates_caller_list :
  layers_1_2 !! 0 = Some ["a.png"] ∧
  (normalize [0; 1] layers_1_2).1 = Ok 2 ∧
  (normalize [0; 1] layers_1_2).2 !! 0 = Some ["a.png"; "a.png"] ∧
  (normalize [0; 1] layers_1_2).2 ≠ layers_1_2.
Proof.
  repeat split; try (vm_compute; reflexivity).
  intros Heq. apply (f_equal (λ σ : heap, σ !! 0)) in Heq.
  vm_compute in Heq. discriminate.
Qed.

(** The heap that normalization leaves is the one its padding loop leaves. *)
Lemma normalize_final_heap (σ : heap) (layers : list loc) :
  (normalize layers σ).2 =
  match layers with
  | [] => σ
  | _ => (for_each layers
            (pad_layer (max_list ((λ l, List.length (σ !!! l)) <$> layers))) σ).2
  end.
Proof.
  unfold normalize, max_len, bind, get. destruct layers as [|l0 rest]; [reflexivity|].
  unfold ret at 1.
  destruct (for_each _ _ σ) as [[[]|e] σ1]; reflexivity.
Qed.

(** C8, amended. Normalization pads in place.  On every run (also one
    that raises): a list object that is not one of the layers is unchanged;
    every list object keeps its entries, in order, as a prefix of its new
    content; and a list object that already has the maximum length is
    unchanged. *)
Theorem normalize_frame (σ : heap) (layers : list loc) :
  let σ' := (normalize layers σ).2 in
  (∀ x, x ∉ layers → σ' !! x = σ !! x) ∧
  (∀ x layer, σ !! x = Some layer → ∃ ext, σ' !! x = Some (layer ++ ext)) ∧
  (∀ x layer, σ !! x = Some layer →
     max_list ((λ l, List.length (σ !!! l)) <$> layers) ≤ List.length layer →
     σ' !! x = Some layer).
Proof.
  simpl. rewrite normalize_final_heap. destruct layers as [|l0 rest].
  - repeat split; try done. intros x layer Hx. exists []. by rewrite app_nil_r.
  - apply pad_loop_frame.
Qed.

Lemma normalize_frame_witness :
  (normalize [0; 1] layers_1_2).2 !! 1 = Some ["b.png"; "c.png"] ∧
  (normalize [0; 1] layers_1_2).2 !! 7 = None.
Proof.
  destruct (normalize_frame layers_1_2 [0; 1]) as (F1 & F2 & F3). split.
  - apply F3; [vm_compute; reflexivity | vm_compute; lia].
  - rewrite F1; [vm_compute; reflexivity|].
    intros Hin. repeat (apply elem_of_cons in Hin as [Hin|Hin]; [discriminate|]).
    by apply elem_of_nil in Hin.
Defined.

(** ** The effects *)

Section EffectsFacts.
Context `{Pillow}.

Lemma apply_blur_size (im blurred : image) (blur_amount : Z) :
  apply_blur im blur_amount = Ok blurred → image_size blurred = image_size im.
Proof. apply size_GaussianBlur. Qed.

(** The fog layer is created with the size of the image, so that the
    composition cannot fail: [apply_fog] returns as soon as [Image.new]
    does. *)
Lemma apply_fog_run (im : image) (fog_amount : Z) :
  match Image_new (image_size im) (255, 255, 255, fog_amount)%Z with
  | Ok _ => ∃ fogged, apply_fog im fog_amount = Ok fogged ∧
                      image_size fogged = image_size im
  | Raise e => apply_fog im fog_amount = Raise e
  end.
Proof.
  unfold apply_fog.
  destruct (Image_new _ _) as [fog|e] eqn:Hnew; [|reflexivity].
  destruct (alpha_composite_match (convert_rgba im) fog)
    as (fogged & Hfog & Hsize).
  - by rewrite size_convert_rgba, (size_Image_new _ _ _ Hnew).
  - exists fogged. split; [exact Hfog|]. by rewrite Hsize, size_convert_rgba.
Qed.

Lemma apply_fog_size (im fogged : image) (fog_amount : Z) :
  apply_fog im fog_amount = Ok fogged → image_size fogged = image_size im.
Proof.
  intros Hfog. pose proof (apply_fog_run im fog_amount) as Hrun.
  destruct (Image_new _ _); [|congruence].
  destruct Hrun as (fogged' & Hfog' & Hsize). congruence.
Qed.


(** The gated effects of the compositor keep the size. *)
Lemma apply_effects_size (layer_index : nat) (blur_layers fog_layers : list Z)
    (blur_amount fog_amount : Z) (frame frame' : image) :
  apply_effects layer_index blur_layers fog_layers blur_amount fog_amount frame
    = Ok frame' →
  image_size frame' = image_size frame.
Proof.
  unfold apply_effects.
  destruct (py_in _ blur_layers && _).
  - destruct (apply_blur frame blur_amount) as [blurred|e] eqn:Hblur; [|discriminate].
    cbn. apply apply_blur_size in Hblur.
    destruct (py_in _ fog_layers && _).
    + intros Hfog%apply_fog_size. congruence.
    + intros [= <-]. exact Hblur.
  - cbn. destruct (py_in _ fog_layers && _).
    + apply apply_fog_size.
    + by intros [= <-].
Qed.

(** With amounts that the library accepts the gated effects return. *)
Lemma apply_effects_ok (layer_index : nat) (blur_layers fog_layers : list Z)
    (blur_amount fog_amount : Z) (frame : image) :
  amounts_accepted blur_amount fog_amount →
  ∃ frame', apply_effects layer_index blur_layers fog_layers
              blur_amount fog_amount frame = Ok frame' ∧
            image_size frame' = image_size frame.
Proof.
  intros [Hblur Hfog].
  assert (∃ frame', apply_effects layer_index blur_layers fog_layers
                      blur_amount fog_amount frame = Ok frame') as [frame' Heff].
  { unfold apply_effects.
    assert (∃ blurred,
              (if py_in (Z.of_nat layer_index) blur_layers && (0 <? blur_amount)%Z
               then apply_blur frame blur_amount else Ok frame) = Ok blurred)
      as [blurred ->].
    { destruct (py_in _ blur_layers); cbn; [|by eexists].
      destruct (Z.ltb_spec 0 blur_amount) as [Hpos|_]; [|by eexists].
      apply (Hblur Hpos). }
    cbn. destruct (py_in _ fog_layers); cbn; [|by eexists].
    destruct (Z.ltb_spec 0 fog_amount) as [Hpos|_]; [|by eexists].
    pose proof (apply_fog_run blurred fog_amount) as Hrun.
    destruct (Hfog Hpos blurred) as [fog Hnew]. rewrite Hnew in Hrun.
    destruct Hrun as (fogged & -> & _). by eexists. }
  exists frame'. split; [exact Heff|]. by eapply apply_effects_size.
Qed.

(** A zero amount switches the effect off whatever the selection. *)
Lemma apply_effects_blur_zero (layer_index : nat) (blur_layers fog_layers : list Z)
    (blur_amount fog_amount : Z) (frame : image) :
  apply_effects layer_index blur_layers fog_layers 0 fog_amount frame =
  apply_effects layer_index [] fog_layers blur_amount fog_amount frame.
Proof.
  unfold apply_effects, py_in. rewrite andb_false_r.
  rewrite (bool_decide_eq_false_2 (_ ∈ [])) by apply not_elem_of_nil.
  reflexivity.
Qed.

Lemma apply_effects_fog_zero (layer_index : nat) (blur_layers fog_layers : list Z)
    (blur_amount fog_amount : Z) (frame : image) :
  apply_effects layer_index blur_layers fog_layers blur_amount 0 frame =
  apply_effects layer_index blur_layers [] blur_amount fog_amount frame.
Proof.
  unfold apply_effects, py_in. rewrite andb_false_r.
  rewrite (bool_decide_eq_false_2 (_ ∈ [])) by apply not_elem_of_nil.
  reflexivity.
Qed.

(** A selected layer with a positive amount gets the effect. *)
Lemma apply_effects_blur_selected (layer_index : nat) (blur_layers : list Z)
    (blur_amount fog_amount : Z) (frame : image) :
  Z.of_nat layer_index ∈ blur_layers → (0 < blur_amount)%Z →
  apply_effects layer_index blur_layers [] blur_amount fog_amount frame =
  apply_blur frame blur_amount.
Proof.
  intros Hin Hpos. unfold apply_effects, py_in.
  rewrite (bool_decide_eq_true_2 (_ ∈ blur_layers)) by exact Hin.
  rewrite (proj2 (Z.ltb_lt _ _) Hpos). cbn.
  by destruct (apply_blur frame blur_amount).
Qed.

Lemma apply_effects_fog_selected (layer_index : nat) (fog_layers : list Z)
    (blur_amount fog_amount : Z) (frame : image) :
  Z.of_nat layer_index ∈ fog_layers → (0 < fog_amount)%Z →
  apply_effects layer_index [] fog_layers blur_amount fog_amount frame =
  apply_fog frame fog_amount.
Proof.
  intros Hin Hpos. unfold apply_effects, py_in.
  rewrite (bool_decide_eq_false_2 (_ ∈ [])) by apply not_elem_of_nil.
  rewrite (bool_decide_eq_true_2 (_ ∈ fog_layers)) by exact Hin.
  rewrite (proj2 (Z.ltb_lt _ _) Hpos). reflexivity.
Qed.
End EffectsFacts.

(** The sample library accepts a radius and an opacity within its
    ranges, those that the sliders of the window offer (0..10 and 0..255)
    among them. *)
Lemma sample_amounts_accepted (blur_amount fog_amount : Z) :
  (0 ≤ blur_amount < 2147483647)%Z → (-2147483648 ≤ fog_amount < 2147483648)%Z →
  amounts_accepted (H := SymPillow) blur_amount fog_amount.
Proof.
  intros Hblur Hfog. split; intros _ im.
  - exists (Blurred blur_amount im). cbn. unfold sym_GaussianBlur.
    replace (0 <=? blur_amount)%Z with true by (symmetry; apply Z.leb_le; lia).
    replace (2147483647 <=? blur_amount)%Z with false
      by (symmetry; apply Z.leb_gt; lia).
    reflexivity.
  - exists (Solid (sym_size im) (255, 255, 255, fog_amount)%Z).
    cbn. unfold sym_Image_new, c_int.
    replace (-2147483648 <=? fog_amount)%Z with true
      by (symmetry; apply Z.leb_le; lia).
    replace (2147483648 <=? fog_amount)%Z with false
      by (symmetry; apply Z.leb_gt; lia).
    reflexivity.
Qed.


Example fog_on_sample_image :
  apply_fog (Decoded "a.png" (4, 4)%Z) 128 =
  Ok (Over (Converted (Decoded "a.png" (4, 4)%Z))
           (Solid (4, 4)%Z (255, 255, 255, 128)%Z)).
Proof. reflexivity. Qed.

(** ** Running effectful code *)

Lemma bind_ext {S A B} (c : M S A) (k k' : A → M S B) (s : S) :
  (∀ a s', k a s' = k' a s') → bind c k s = bind c k' s.
Proof. intros Hk. unfold bind. destruct (c s) as [[a|e] s']; [apply Hk|reflexivity]. Qed.

Lemma bind_ok {S A B} (c : M S A) (k : A → M S B) (s s' : S) (a : A) :
  c s = (Ok a, s') → bind c k s = k a s'.
Proof. intros Hc. unfold bind. by rewrite Hc. Qed.

Lemma bind_raise {S A B} (c : M S A) (k : A → M S B) (s s' : S) (e : string) :
  c s = (Raise e, s') → bind c k s = (Raise e, s').
Proof. intros Hc. unfold bind. by rewrite Hc. Qed.

Lemma try_finally_ext {S A} (body body' : M S A) (fin : M S unit) (s : S) :
  body s = body' s → try_finally body fin s = try_finally body' fin s.
Proof. intros Hb. unfold try_finally. by rewrite Hb. Qed.

Lemma for_each_ext {S A} (xs : list A) (f g : A → M S unit) :
  (∀ x s, f x s = g x s) → ∀ s, for_each xs f s = for_each xs g s.
Proof.
  intros Hfg. induction xs as [|x rest IHrest]; intros s; [reflexivity|].
  simpl. unfold bind. rewrite Hfg. destruct (g x s) as [[[]|e] s']; [apply IHrest|reflexivity].
Qed.

Lemma mapM_result_ext {A B} (f g : A → result B) (xs : list A) :
  (∀ x, x ∈ xs → f x = g x) → mapM f xs = mapM g xs.
Proof.
  induction xs as [|x rest IHrest]; intros Hfg; [reflexivity|].
  simpl. rewrite Hfg by left. rewrite IHrest; [reflexivity|].
  intros y Hy. apply Hfg. by right.
Qed.

(** ** A zero amount disables the effect *)

Section Gating.
Context `{Pillow}.
Variable disk : string → result image.
Variable completion_order : list (nat * list string) → list (nat * list string).
Variable ffmpeg_exit : string → Z → list (nat * image) → Z.

Lemma selected_zero (layer_index : nat) (sel : option (list Z)) :
  Mar141.selected layer_index sel 0 = false.
Proof. unfold Mar141.selected. apply andb_false_r. Qed.

Lemma selected_empty (layer_index : nat) (amount : Z) :
  Mar141.selected layer_index (Some []) amount = false.
Proof. reflexivity. Qed.

Lemma composite_blur_zero (layer_paths : list string) (blur_layers fog_layers : list Z)
    (blur_amount fog_amount : Z) : ∀ merged layer_index,
  Mar143.composite disk merged layer_index layer_paths blur_layers fog_layers
    0 fog_amount =
  Mar143.composite disk merged layer_index layer_paths [] fog_layers
    blur_amount fog_amount.
Proof.
  induction layer_paths as [|path rest IHrest]; intros merged layer_index;
    [reflexivity|].
  cbn. destruct (disk path) as [frame|e]; cbn; [|reflexivity].
  rewrite (apply_effects_blur_zero _ _ _ blur_amount).
  destruct (apply_effects _ _ _ _ _ frame) as [frame'|e]; cbn; [|reflexivity].
  destruct merged as [m|]; cbn; [|apply IHrest].
  destruct (alpha_composite m frame'); cbn; [apply IHrest|reflexivity].
Qed.

Lemma composite_fog_zero (layer_paths : list string) (blur_layers fog_layers : list Z)
    (blur_amount fog_amount : Z) : ∀ merged layer_index,
  Mar143.composite disk merged layer_index layer_paths blur_layers fog_layers
    blur_amount 0 =
  Mar143.composite disk merged layer_index layer_paths blur_layers []
    blur_amount fog_amount.
Proof.
  induction layer_paths as [|path rest IHrest]; intros merged layer_index;
    [reflexivity|].
  cbn. destruct (disk path) as [frame|e]; cbn; [|reflexivity].
  rewrite (apply_effects_fog_zero _ _ _ _ fog_amount).
  destruct (apply_effects _ _ _ _ _ frame) as [frame'|e]; cbn; [|reflexivity].
  destruct merged as [m|]; cbn; [|apply IHrest].
  destruct (alpha_composite m frame'); cbn; [apply IHrest|reflexivity].
Qed.

Lemma process_frame_blur_zero frame_data temp_dir blur_layers fog_layers
    blur_amount fog_amount w :
  Mar143.process_frame disk frame_data temp_dir blur_layers fog_layers
    0 fog_amount w =
  Mar143.process_frame disk frame_data temp_dir [] fog_layers
    blur_amount fog_amount w.
Proof.
  destruct frame_data as [frame_index layer_paths]. unfold Mar143.process_frame.
  by rewrite (composite_blur_zero _ _ _ blur_amount).
Qed.

Lemma process_frame_fog_zero frame_data temp_dir blur_layers fog_layers
    blur_amount fog_amount w :
  Mar143.process_frame disk frame_data temp_dir blur_layers fog_layers
    blur_amount 0 w =
  Mar143.process_frame disk frame_data temp_dir blur_layers []
    blur_amount fog_amount w.
Proof.
  destruct frame_data as [frame_index layer_paths]. unfold Mar143.process_frame.
  by rewrite (composite_fog_zero _ _ _ _ fog_amount).
Qed.

(** Two runs of the collecting loop whose per-frame work agrees. *)
Lemma collect_ext completed temp_dir num_frames bl fl ba fa bl' fl' ba' fa' cb :
  (∀ job w, Mar143.process_frame disk job temp_dir bl fl ba fa w =
            Mar143.process_frame disk job temp_dir bl' fl' ba' fa' w) →
  ∀ i w, Mar143.collect disk i completed temp_dir num_frames bl fl ba fa cb w =
         Mar143.collect disk i completed temp_dir num_frames bl' fl' ba' fa' cb w.
Proof.
  intros Hjob. induction completed as [|job rest IHrest]; intros i w;
    [reflexivity|].
  simpl. unfold bind at 1 3. rewrite Hjob.
  destruct (Mar143.process_frame _ _ _ _ _ _ _ w) as [[k|e] w1]; [|reflexivity].
  apply bind_ext. intros _ w2. apply IHrest.
Qed.

Lemma merge_layers_143_ext image_paths output_video fps bl fl ba fa bl' fl' ba' fa' cb :
  (∀ job dir w, Mar143.process_frame disk job dir bl fl ba fa w =
                Mar143.process_frame disk job dir bl' fl' ba' fa' w) →
  ∀ w, Mar143.merge_layers disk completion_order ffmpeg_exit image_paths
         output_video fps ba fa bl fl cb w =
       Mar143.merge_layers disk completion_order ffmpeg_exit image_paths
         output_video fps ba' fa' bl' fl' cb w.
Proof.
  intros Hjob w. unfold Mar143.merge_layers.
  apply bind_ext. intros _ w1. apply try_finally_ext.
  apply bind_ext. intros layer0 w2. apply bind_ext. intros frame_data w3.
  unfold bind at 1 2. rewrite (collect_ext _ _ _ bl fl ba fa bl' fl' ba' fa').
  - reflexivity.
  - intros job w'. apply Hjob.
Qed.

Lemma merge_upper_143_ext upper i bl fl ba fa bl' fl' ba' fa' :
  (∀ layer_index frame,
     apply_effects layer_index bl fl ba fa frame =
     apply_effects layer_index bl' fl' ba' fa' frame) →
  ∀ merged layer_index,
    Mar143.merge_upper disk merged layer_index upper i ba fa bl fl =
    Mar143.merge_upper disk merged layer_index upper i ba' fa' bl' fl'.
Proof.
  intros Heff. induction upper as [|layer rest IHrest]; intros merged layer_index;
    [reflexivity|].
  cbn. destruct (index layer i) as [path|e]; cbn; [|reflexivity].
  destruct (disk path) as [layer_image|e]; cbn; [|reflexivity].
  rewrite Heff.
  destruct (apply_effects _ _ _ _ _ layer_image) as [im|e]; cbn; [|reflexivity].
  destruct (alpha_composite merged im); cbn; [apply IHrest|reflexivity].
Qed.

Lemma generate_merged_images_ext layers bl fl ba fa bl' fl' ba' fa' :
  (∀ layer_index frame,
     apply_effects layer_index bl fl ba fa frame =
     apply_effects layer_index bl' fl' ba' fa' frame) →
  Mar143.generate_merged_images disk layers ba fa bl fl =
  Mar143.generate_merged_images disk layers ba' fa' bl' fl'.
Proof.
  intros Heff. unfold Mar143.generate_merged_images.
  destruct (index layers 0) as [layer0|e]; cbn; [|reflexivity].
  apply mapM_result_ext. intros i _. unfold Mar143.merged_image_at.
  destruct (index layers 0) as [l0|e]; cbn; [|reflexivity].
  destruct (index l0 i) as [path|e]; cbn; [|reflexivity].
  destruct (disk path) as [first_layer|e]; cbn; [|reflexivity].
  rewrite Heff.
  destruct (apply_effects _ _ _ _ _ first_layer) as [im|e]; cbn; [|reflexivity].
  by apply merge_upper_143_ext.
Qed.

Lemma merge_upper_141_ext upper i bl fl ba fa bl' fl' ba' fa' :
  (∀ layer_index, Mar141.selected layer_index bl ba = false ∧
                  Mar141.selected layer_index bl' ba' = false ∧
                  fl = fl' ∧ fa = fa') ∨
  (∀ layer_index, Mar141.selected layer_index fl fa = false ∧
                  Mar141.selected layer_index fl' fa' = false ∧
                  bl = bl' ∧ ba = ba') →
  ∀ merged layer_index,
    Mar141.merge_upper disk merged layer_index upper i ba fa bl fl =
    Mar141.merge_upper disk merged layer_index upper i ba' fa' bl' fl'.
Proof.
  intros Hsel. induction upper as [|layer rest IHrest]; intros merged layer_index;
    [reflexivity|].
  simpl. destruct (index layer i) as [path|e]; simpl; [|reflexivity].
  destruct (disk path) as [layer_image|e]; simpl; [|reflexivity].
  assert ((if Mar141.selected layer_index bl ba
           then apply_blur layer_image ba else Ok layer_image) =
          (if Mar141.selected layer_index bl' ba'
           then apply_blur layer_image ba' else Ok layer_image)) as ->.
  { destruct Hsel as [Hsel|Hsel]; destruct (Hsel layer_index) as (H1 & H2 & H3 & H4).
    - by rewrite H1, H2.
    - by subst. }
  destruct (if Mar141.selected layer_index bl' ba' then _ else _) as [blurred|e];
    simpl; [|reflexivity].
  assert ((if Mar141.selected layer_index fl fa
           then apply_fog blurred fa else Ok blurred) =
          (if Mar141.selected layer_index fl' fa'
           then apply_fog blurred fa' else Ok blurred)) as ->.
  { destruct Hsel as [Hsel|Hsel]; destruct (Hsel layer_index) as (H1 & H2 & H3 & H4).
    - by subst.
    - by rewrite H1, H2. }
  destruct (if Mar141.selected layer_index fl' fa' then _ else _) as [im|e];
    simpl; [|reflexivity].
  destruct (alpha_composite merged im); simpl; [apply IHrest|reflexivity].
Qed.

Lemma merge_layers_141_ext layers output_video fps bl fl ba fa bl' fl' ba' fa' cb :
  (∀ upper i merged layer_index,
    Mar141.merge_upper disk merged layer_index upper i ba fa bl fl =
    Mar141.merge_upper disk merged layer_index upper i ba' fa' bl' fl') →
  ∀ w, Mar141.merge_layers disk layers output_video fps ba fa bl fl cb w =
       Mar141.merge_layers disk layers output_video fps ba' fa' bl' fl' cb w.
Proof.
  intros Hupper w. unfold Mar141.merge_layers.
  apply bind_ext. intros num_frames w1. apply bind_ext. intros w2 w3.
  apply bind_ext. intros first_image w4. apply bind_ext. intros _ w5.
  unfold bind at 1 2.
  rewrite (for_each_ext _ _
    (Mar141.frame_step disk layers num_frames ba' fa' bl' fl' cb)); [reflexivity|].
  intros i w6. unfold Mar141.frame_step. apply bind_ext. intros w7 w8.
  unfold Mar141.merge_frame.
  destruct (index _ 0) as [layer0|e]; simpl; [|reflexivity].
  destruct (index layer0 i) as [path|e]; simpl; [|reflexivity].
  destruct (disk path) as [merged|e]; simpl; [|reflexivity].
  by rewrite Hupper.
Qed.

(** C6. With [blur_amount = 0] every compositing path gives the
    result it gives with no layer selected for blur (at any amount), and
    likewise for fog: for one frame ([process_frame]), for the preview
    ([generate_merged_images]) and for whole runs of both [merge_layers]. *)
Theorem zero_amount_disables_effect
    (blur_layers fog_layers : list Z) (blur_amount fog_amount : Z) :
  (∀ frame_data temp_dir w,
     Mar143.process_frame disk frame_data temp_dir blur_layers fog_layers
       0 fog_amount w =
     Mar143.process_frame disk frame_data temp_dir [] fog_layers
       blur_amount fog_amount w) ∧
  (∀ frame_data temp_dir w,
     Mar143.process_frame disk frame_data temp_dir blur_layers fog_layers
       blur_amount 0 w =
     Mar143.process_frame disk frame_data temp_dir blur_layers []
       blur_amount fog_amount w) ∧
  (∀ image_paths output_video fps cb w,
     Mar143.merge_layers disk completion_order ffmpeg_exit image_paths
       output_video fps 0 fog_amount blur_layers fog_layers cb w =
     Mar143.merge_layers disk completion_order ffmpeg_exit image_paths
       output_video fps blur_amount fog_amount [] fog_layers cb w) ∧
  (∀ image_paths output_video fps cb w,
     Mar143.merge_layers disk completion_order ffmpeg_exit image_paths
       output_video fps blur_amount 0 blur_layers fog_layers cb w =
     Mar143.merge_layers disk completion_order ffmpeg_exit image_paths
       output_video fps blur_amount fog_amount blur_layers [] cb w) ∧
  (∀ layers,
     Mar143.generate_merged_images disk layers 0 fog_amount blur_layers fog_layers =
     Mar143.generate_merged_images disk layers blur_amount fog_amount [] fog_layers) ∧
  (∀ layers,
     Mar143.generate_merged_images disk layers blur_amount 0 blur_layers fog_layers =
     Mar143.generate_merged_images disk layers blur_amount fog_amount blur_layers []) ∧
  (∀ layers output_video fps blur_sel fog_sel cb w,
     Mar141.merge_layers disk layers output_video fps 0 fog_amount
       blur_sel fog_sel cb w =
     Mar141.merge_layers disk layers output_video fps blur_amount fog_amount
       (Some []) fog_sel cb w) ∧
  (∀ layers output_video fps blur_sel fog_sel cb w,
     Mar141.merge_layers disk layers output_video fps blur_amount 0
       blur_sel fog_sel cb w =
     Mar141.merge_layers disk layers output_video fps blur_amount fog_amount
       blur_sel (Some []) cb w).
Proof.
  repeat split; intros.
  - apply process_frame_blur_zero.
  - apply process_frame_fog_zero.
  - apply merge_layers_143_ext. intros. apply process_frame_blur_zero.
  - apply merge_layers_143_ext. intros. apply process_frame_fog_zero.
  - apply generate_merged_images_ext. intros. apply apply_effects_blur_zero.
  - apply generate_merged_images_ext. intros. apply apply_effects_fog_zero.
  - apply merge_layers_141_ext. intros. apply merge_upper_141_ext. left.
    intros k. by rewrite selected_zero, selected_empty.
  - apply merge_layers_141_ext. intros. apply merge_upper_141_ext. right.
    intros k. by rewrite selected_zero, selected_empty.
Qed.
End Gating.

(** ** Effects on the bottom layer *)

Section BaseLayer.
Context `{Pillow}.
Variable disk : string → result image.

(** mar143.py, [process_frame]: the first layer path goes through the
    gated effects before it becomes the accumulation base. *)
Lemma composite_base_gets_effects (path : string) (rest : list string)
    (blur_layers fog_layers : list Z) (blur_amount fog_amount : Z) :
  Mar143.composite disk None 0 (path :: rest) blur_layers fog_layers
    blur_amount fog_amount =
  (decoded ← disk path;
   base ← apply_effects 0 blur_layers fog_layers blur_amount fog_amount decoded;
   Mar143.composite disk (Some base) 1 rest blur_layers fog_layers
     blur_amount fog_amount).
Proof.
  cbn. destruct (disk path) as [decoded|e]; cbn; [|reflexivity].
  by destruct (apply_effects _ _ _ _ _ decoded).
Qed.

(** mar143.py, [generate_merged_images]: the same for the preview. *)
Lemma merged_image_at_base_gets_effects (layer0 : list string)
    (upper : list (list string)) (i : nat) (path : string)
    (blur_layers fog_layers : list Z) (blur_amount fog_amount : Z) :
  layer0 !! i = Some path →
  Mar143.merged_image_at disk (layer0 :: upper) blur_amount fog_amount
    blur_layers fog_layers i =
  (decoded ← disk path;
   base ← apply_effects 0 blur_layers fog_layers blur_amount fog_amount decoded;
   Mar143.merge_upper disk base 1 upper i blur_amount fog_amount
     blur_layers fog_layers).
Proof.
  intros Hpath. unfold Mar143.merged_image_at, index. cbn. by rewrite Hpath.
Qed.

(** mar141.py, [merge_layers]: the bottom layer is taken as decoded,
    whatever the selections and amounts. *)
Lemma merge_frame_base_is_raw (layer0 : list string) (upper : list (list string))
    (i : nat) (path : string) (blur_amount fog_amount : Z)
    (blur_layers fog_layers : option (list Z)) :
  layer0 !! i = Some path →
  Mar141.merge_frame disk (layer0 :: upper) i blur_amount fog_amount
    blur_layers fog_layers =
  (decoded ← disk path;
   Mar141.merge_upper disk decoded 1 upper i blur_amount fog_amount
     blur_layers fog_layers).
Proof.
  intros Hpath. unfold Mar141.merge_frame, index. cbn. by rewrite Hpath.
Qed.
End BaseLayer.

(** C2, at the failing input: layer 0 selected for blur (radius 3)
    and fog (opacity 128).  mar141's [merge_layers] writes the frame
    composed over the bottom layer as decoded, while mar143's
    [process_frame] and [generate_merged_images] compose over the blurred
    and fogged bottom layer. *)
Theorem mar141_skips_effects_on_base_layer :
  let bg := Decoded "bg.png" (4, 4)%Z in
  let fg := Decoded "fg.png" (4, 4)%Z in
  let with_effects :=
    Over (Over (Converted (Blurred 3 bg)) (Solid (4, 4)%Z (255, 255, 255, 128)%Z)) fg in
  Mar141.trace
    (Mar141.merge_layers sample_disk [0; 1] "out.mp4" 30 3 128
       (Some [0%Z]) (Some [0%Z]) false
       (Mar141.World (<[0 := ["bg.png"]]> (<[1 := ["fg.png"]]> ∅)) [])).2
  = [Mar141.writer_open "out.mp4" 30 (4, 4)%Z;
     Mar141.writer_write (Over bg fg);
     Mar141.writer_release] ∧
  Mar143.composite sample_disk None 0 ["bg.png"; "fg.png"] [0%Z] [0%Z] 3 128
  = Ok (Some with_effects) ∧
  Mar143.generate_merged_images sample_disk [["bg.png"]; ["fg.png"]] 3 128
    [0%Z] [0%Z]
  = Ok [with_effects] ∧
  Over bg fg ≠ with_effects.
Proof. repeat split; try (vm_compute; reflexivity). discriminate. Qed.

(** ** List comprehensions that may raise *)

Lemma mapM_result_ok_inv {A B} (f : A → result B) (xs : list A) : ∀ ys,
  mapM f xs = Ok ys → ∀ x, x ∈ xs → ∃ y, f x = Ok y.
Proof.
  induction xs as [|x0 rest IHrest]; intros ys Hm x Hx.
  - by apply elem_of_nil in Hx.
  - cbn in Hm. destruct (f x0) as [y0|e] eqn:Hf0; cbn in Hm; [|done].
    destruct (mapM f rest) as [ys'|e] eqn:Hrest; cbn in Hm; [|done].
    apply elem_of_cons in Hx as [->|Hx]; [eauto|]. by apply (IHrest ys').
Qed.

Lemma mapM_result_raise_inv {A B} (f : A → result B) (xs : list A) (e : string) :
  mapM f xs = Raise e → ∃ x, x ∈ xs ∧ f x = Raise e.
Proof.
  induction xs as [|x0 rest IHrest]; intros Hm; [done|].
  cbn in Hm. destruct (f x0) as [y0|e0] eqn:Hf0; cbn in Hm.
  - destruct (mapM f rest) as [ys'|e1] eqn:Hrest; cbn in Hm; [done|].
    destruct IHrest as (x & Hx & Hfx); [congruence|].
    exists x. split; [by right|done].
  - exists x0. split; [left|congruence].
Qed.

Lemma mapM_result_ok_fmap {A B} (f : A → result B) (g : A → B) (xs : list A) :
  (∀ x, x ∈ xs → f x = Ok (g x)) → mapM f xs = Ok (g <$> xs).
Proof.
  induction xs as [|x0 rest IHrest]; intros Hfg; [reflexivity|].
  cbn. rewrite Hfg by left. cbn. rewrite IHrest; [reflexivity|].
  intros x Hx. apply Hfg. by right.
Qed.

Lemma mapM_result_fmap {A B C} (f : B → result C) (g : A → B) (xs : list A) :
  mapM f (g <$> xs) = mapM (λ x, f (g x)) xs.
Proof.
  induction xs as [|x0 rest IHrest]; [reflexivity|].
  cbn. by rewrite IHrest.
Qed.

Lemma mapM_result_fst {A B} (f : A → result (A * B)) (xs : list A) :
  (∀ x y, f x = Ok y → y.1 = x) →
  ∀ ys, mapM f xs = Ok ys → ys.*1 = xs.
Proof.
  intros Hfst. induction xs as [|x0 rest IHrest]; intros ys Hm.
  - cbn in Hm. by inversion Hm.
  - cbn in Hm. destruct (f x0) as [y0|e] eqn:Hf0; cbn in Hm; [|done].
    destruct (mapM f rest) as [ys'|e] eqn:Hrest; cbn in Hm; [|done].
    inversion Hm; subst. cbn. rewrite (Hfst _ _ Hf0). f_equal. by apply IHrest.
Qed.

Lemma index_take {A} (xs : list A) (n i : nat) :
  i < n → index (take n xs) i = index xs i.
Proof. intros Hi. unfold index. by rewrite lookup_take_lt. Qed.

(** ** mar143.py: frame data, staging directory, failures before dispatch *)

Section Mar143Facts.
Context `{Pillow}.
Variable disk : string → result image.
Variable completion_order : list (nat * list string) → list (nat * list string).
Variable ffmpeg_exit : string → Z → list (nat * image) → Z.

Abbreviation merge_layers := (Mar143.merge_layers disk completion_order ffmpeg_exit).

(** *** Frame data *)

Lemma prepare_frame_data_take (image_paths : list (list string)) (n : nat) :
  Mar143.prepare_frame_data (take n <$> image_paths) n =
  Mar143.prepare_frame_data image_paths n.
Proof.
  unfold Mar143.prepare_frame_data. apply mapM_result_ext. intros i Hi.
  apply elem_of_seq in Hi. rewrite mapM_result_fmap.
  rewrite (mapM_result_ext _ (λ layer, index layer i)); [reflexivity|].
  intros layer _. apply index_take. lia.
Qed.

Lemma prepare_frame_data_raises (image_paths : list (list string)) (n : nat) e :
  Mar143.prepare_frame_data image_paths n = Raise e → e = "IndexError".
Proof.
  intros Hraise. apply mapM_result_raise_inv in Hraise as (i & _ & Hi).
  destruct (mapM _ image_paths) as [lp|e'] eqn:Hlayers; cbn in Hi; [done|].
  apply mapM_result_raise_inv in Hlayers as (layer & _ & Hlayer).
  unfold index in Hlayer. destruct (layer !! i); congruence.
Qed.

Lemma prepare_frame_data_short (image_paths : list (list string)) (n : nat) layer :
  layer ∈ image_paths → List.length layer < n →
  Mar143.prepare_frame_data image_paths n = Raise "IndexError".
Proof.
  intros Hin Hshort.
  destruct (Mar143.prepare_frame_data image_paths n) as [fd|e] eqn:Hprep.
  - exfalso.
    destruct (mapM_result_ok_inv _ _ _ Hprep (List.length layer)) as (job & Hjob).
    { apply elem_of_seq. lia. }
    destruct (mapM _ image_paths) as [lp|e'] eqn:Hlayers; cbn in Hjob; [|done].
    destruct (mapM_result_ok_inv _ _ _ Hlayers layer Hin) as (p & Hp).
    unfold index in Hp. by rewrite lookup_ge_None_2 in Hp.
  - by rewrite (prepare_frame_data_raises _ _ _ Hprep).
Qed.

Lemma prepare_frame_data_ok (image_paths : list (list string)) (n : nat) :
  (∀ layer, layer ∈ image_paths → n ≤ List.length layer) →
  Mar143.prepare_frame_data image_paths n =
  Ok ((λ i, (i, (λ layer, default "" (layer !! i)) <$> image_paths)) <$> seq 0 n).
Proof.
  intros Hlong. unfold Mar143.prepare_frame_data.
  apply mapM_result_ok_fmap. intros i Hi. apply elem_of_seq in Hi.
  rewrite (mapM_result_ok_fmap _ (λ layer, default "" (layer !! i))); [done|].
  intros layer Hlayer. unfold index.
  destruct (lookup_lt_is_Some_2 layer i) as [p ->]; [|done].
  specialize (Hlong layer Hlayer). lia.
Qed.

Lemma prepare_frame_data_indices (image_paths : list (list string)) (n : nat) fd :
  Mar143.prepare_frame_data image_paths n = Ok fd → fd.*1 = seq 0 n.
Proof.
  apply mapM_result_fst. intros i job Hjob.
  destruct (mapM _ image_paths); cbn in Hjob; [|done]. by inversion Hjob.
Qed.

(** *** A run that fails while the frame data is prepared *)

Lemma merge_layers_prepare_fails image_paths output_video fps ba fa bl fl cb w e :
  (layer0 ← index image_paths 0;
   Mar143.prepare_frame_data image_paths (List.length layer0)) = Raise e →
  merge_layers image_paths output_video fps ba fa bl fl cb w =
  (Raise e,
   Mar143.World (delete "temp_frames" (Mar143.dirs w))
     (Mar143.trace w ++ [Mar143.makedirs "temp_frames";
                         Mar143.rmtree "temp_frames"])).
Proof.
  intros Hfail. unfold Mar143.merge_layers, Mar143.os_makedirs,
    Mar143.shutil_rmtree, Mar143.emit, try_finally, bind, modify, lift.
  cbn. destruct (index image_paths 0) as [layer0|e0]; cbn in Hfail.
  - rewrite Hfail. cbn. f_equal. rewrite <- app_assoc. f_equal.
    destruct (Mar143.dirs w !! "temp_frames"); [done|]. apply delete_insert_eq.
  - inversion Hfail; subst. cbn. f_equal. rewrite <- app_assoc. f_equal.
    destruct (Mar143.dirs w !! "temp_frames"); [done|]. apply delete_insert_eq.
Qed.
End Mar143Facts.

Section Mar143Runs.
Context `{Pillow}.
Variable disk : string → result image.
Variable completion_order : list (nat * list string) → list (nat * list string).
Variable ffmpeg_exit : string → Z → list (nat * image) → Z.

Abbreviation merge_layers := (Mar143.merge_layers disk completion_order ffmpeg_exit).

(** Two inputs with the same frame data run the same. *)
Lemma merge_layers_same_frame_data image_paths image_paths' layer0 layer0'
    output_video fps ba fa bl fl cb w :
  index image_paths 0 = Ok layer0 → index image_paths' 0 = Ok layer0' →
  List.length layer0 = List.length layer0' →
  Mar143.prepare_frame_data image_paths (List.length layer0) =
  Mar143.prepare_frame_data image_paths' (List.length layer0) →
  merge_layers image_paths output_video fps ba fa bl fl cb w =
  merge_layers image_paths' output_video fps ba fa bl fl cb w.
Proof.
  intros H0 H0' Hlen Hprep. unfold Mar143.merge_layers.
  apply bind_ext. intros _ w1. apply try_finally_ext.
  unfold bind, lift. rewrite H0, H0'. cbv beta iota zeta.
  by rewrite <- Hlen, Hprep.
Qed.

(** C9. [merge_layers] of mar143 takes the number of frames from
    layer 0 and does not pad.  A run is the run on the layers cut to the
    length of layer 0, so that entries beyond that length are never used;
    when no layer is shorter than layer 0 there is one job per index of
    layer 0, holding the path of each layer at that index; and when a
    layer is shorter than layer 0 the run raises [IndexError] before any
    frame is processed. *)
Theorem frame_count_from_layer_0 (layer0 : list string) (rest : list (list string))
    output_video fps ba fa bl fl cb w :
  let image_paths := layer0 :: rest in
  let n := List.length layer0 in
  merge_layers image_paths output_video fps ba fa bl fl cb w =
  merge_layers (take n <$> image_paths) output_video fps ba fa bl fl cb w ∧
  ((∀ layer, layer ∈ rest → n ≤ List.length layer) →
   Mar143.prepare_frame_data image_paths n =
   Ok ((λ i, (i, (λ layer, default "" (layer !! i)) <$> image_paths)) <$> seq 0 n)) ∧
  (∀ layer, layer ∈ rest → List.length layer < n →
   merge_layers image_paths output_video fps ba fa bl fl cb w =
   (Raise "IndexError",
    Mar143.World (delete "temp_frames" (Mar143.dirs w))
      (Mar143.trace w ++ [Mar143.makedirs "temp_frames";
                          Mar143.rmtree "temp_frames"]))).
Proof.
  intros image_paths n. repeat split.
  - apply (merge_layers_same_frame_data _ _ layer0 (take n layer0)).
    + reflexivity.
    + reflexivity.
    + by rewrite length_take_le.
    + by rewrite prepare_frame_data_take.
  - intros Hlong. apply prepare_frame_data_ok.
    intros layer [->|Hin]%elem_of_cons; [done|by apply Hlong].
  - intros layer Hin Hshort. apply merge_layers_prepare_fails. cbn.
    apply (prepare_frame_data_short _ _ layer); [by right|done].
Qed.

(** *** What a run adds to the trace *)

Lemma appends_ret {A} P (a : A) : Mar143.appends P (ret a).
Proof. intros w. exists []. by rewrite app_nil_r. Qed.

Lemma appends_raise {A} P e : Mar143.appends (A := A) P (raise e).
Proof. intros w. exists []. by rewrite app_nil_r. Qed.

Lemma appends_lift {A} P (r : result A) : Mar143.appends P (lift r).
Proof. intros w. exists []. by rewrite app_nil_r. Qed.

Lemma appends_get P : Mar143.appends P get.
Proof. intros w. exists []. by rewrite app_nil_r. Qed.

Lemma appends_emit (P : Mar143.event → Prop) e : P e → Mar143.appends P (Mar143.emit e).
Proof. intros He w. exists [e]. split; [done|]. by constructor. Qed.

Lemma appends_bind {A B} P (c : M Mar143.world A) (k : A → M Mar143.world B) :
  Mar143.appends P c → (∀ a, Mar143.appends P (k a)) → Mar143.appends P (bind c k).
Proof.
  intros Hc Hk w. destruct (Hc w) as (evs1 & Ht1 & HP1). unfold bind.
  destruct (c w) as [[a|e] w1]; cbn in *.
  - destruct (Hk a w1) as (evs2 & Ht2 & HP2). exists (evs1 ++ evs2).
    rewrite Ht2, Ht1, app_assoc. split; [done|]. by apply Forall_app.
  - by exists evs1.
Qed.

Lemma appends_save P dir name im :
  P (Mar143.saved dir name) → Mar143.appends P (Mar143.save dir name im).
Proof.
  intros HP. unfold Mar143.save. apply appends_bind; [apply appends_get|].
  intros w0. destruct (Mar143.dirs w0 !! dir); [|apply appends_raise].
  apply appends_bind; [|intros _; by apply appends_emit].
  intros w. exists []. by rewrite app_nil_r.
Qed.

Lemma appends_process_frame P job temp_dir bl fl ba fa :
  (∀ name, P (Mar143.saved temp_dir name)) →
  Mar143.appends P (Mar143.process_frame disk job temp_dir bl fl ba fa).
Proof.
  intros HP. destruct job as [frame_index layer_paths]. unfold Mar143.process_frame.
  apply appends_bind; [apply appends_lift|]. intros [merged|]; [|apply appends_raise].
  apply appends_bind; [by apply appends_save|]. intros _. apply appends_ret.
Qed.

Lemma appends_collect P completed temp_dir n bl fl ba fa cb :
  (∀ name, P (Mar143.saved temp_dir name)) → (∀ q, P (Mar143.callback q)) →
  ∀ i, Mar143.appends P (Mar143.collect disk i completed temp_dir n bl fl ba fa cb).
Proof.
  intros Hsaved Hcb. induction completed as [|job rest IHrest]; intros i.
  - apply appends_ret.
  - cbn. apply appends_bind; [by apply appends_process_frame|]. intros _.
    apply appends_bind; [|intros _; apply IHrest].
    destruct cb; [by apply appends_emit|apply appends_ret].
Qed.

Lemma appends_run_ffmpeg P temp_dir output_video fps :
  (∀ frames, P (Mar143.ffmpeg_run output_video fps frames)) →
  Mar143.appends P (Mar143.run_ffmpeg ffmpeg_exit temp_dir output_video fps).
Proof.
  intros HP. unfold Mar143.run_ffmpeg. apply appends_bind; [apply appends_get|].
  intros w0. apply appends_bind; [by apply appends_emit|]. intros _.
  destruct (_ =? _)%Z; [apply appends_ret|apply appends_raise].
Qed.

Lemma try_block_appends image_paths output_video fps ba fa bl fl cb :
  Mar143.appends Mar143.during_processing
    (Mar143FS.try_block disk completion_order ffmpeg_exit
       image_paths output_video fps ba fa bl fl cb).
Proof.
  unfold Mar143FS.try_block.
  apply appends_bind; [apply appends_lift|]. intros layer0.
  apply appends_bind; [apply appends_lift|]. intros frame_data.
  apply appends_bind; [by apply appends_collect|]. intros _.
  by apply appends_run_ffmpeg.
Qed.

(** [Mar143.merge_layers] is [os.makedirs], then the [try] block with
    [shutil.rmtree] as its [finally] clause. *)
Lemma merge_layers_try_block image_paths output_video fps ba fa bl fl cb :
  merge_layers image_paths output_video fps ba fa bl fl cb =
  (do_ Mar143.os_makedirs "temp_frames";
   try_finally
     (Mar143FS.try_block disk completion_order ffmpeg_exit
        image_paths output_video fps ba fa bl fl cb)
     (Mar143.shutil_rmtree "temp_frames")).
Proof. reflexivity. Qed.
End Mar143Runs.

Lemma frame_count_from_layer_0_witness :
  (Mar143.merge_layers sample_disk reverse_completion sample_ffmpeg
     [["a0"; "a1"]; ["b0"]] "out.mp4" 30 0 0 [] [] true empty_world).1
  = Raise "IndexError".
Proof.
  pose proof (frame_count_from_layer_0 sample_disk reverse_completion sample_ffmpeg
                ["a0"; "a1"] [["b0"]] "out.mp4" 30%Z 0%Z 0%Z [] [] true empty_world)
    as (_ & _ & Hshort).
  rewrite (Hshort ["b0"]); [reflexivity| |].
  - apply list_elem_of_singleton. reflexivity.
  - simpl. lia.
Defined.

(** ** Empty inputs *)

Lemma pad_layer_empty (n : nat) (l : loc) (σ : heap) :
  0 < n → σ !!! l = [] → pad_layer n l σ = (Raise "IndexError", σ).
Proof.
  intros Hn Hl. unfold pad_layer, bind, get. rewrite Hl. cbn.
  destruct n; [lia|reflexivity].
Qed.

Lemma pad_layer_outcome (n : nat) (l : loc) (σ : heap) :
  (pad_layer n l σ).1 = Ok tt ∨ (pad_layer n l σ).1 = Raise "IndexError".
Proof.
  unfold pad_layer, bind, get.
  destruct (List.length (σ !!! l) <? n); [|by left].
  destruct (last (σ !!! l)); [by left|by right].
Qed.

Lemma pad_loop_raises (n : nat) (todo : list loc) : 0 < n → ∀ (σ : heap) l,
  l ∈ todo → σ !!! l = [] →
  (for_each todo (pad_layer n) σ).1 = Raise "IndexError".
Proof.
  intros Hn. induction todo as [|l0 rest IHrest]; intros σ l Hin Hl.
  - by apply elem_of_nil in Hin.
  - cbn. unfold bind at 1.
    destruct (decide (σ !!! l0 = [])) as [Hl0|Hl0].
    { by rewrite pad_layer_empty. }
    assert (l ≠ l0) as Hneq by congruence.
    apply elem_of_cons in Hin as [?|Hin]; [done|].
    destruct (pad_layer_outcome n l0 σ) as [Hok|Hraise];
      destruct (pad_layer_frame n l0 σ) as (Hframe & _);
      destruct (pad_layer n l0 σ) as [[[]|e] σ1]; cbn in *; try done.
    apply (IHrest σ1 l Hin). rewrite !lookup_total_alt in *.
    by rewrite Hframe.
Qed.

Lemma pad_layer_zero (l : loc) (σ : heap) : pad_layer 0 l σ = (Ok tt, σ).
Proof. unfold pad_layer, bind, get. reflexivity. Qed.

Lemma pad_loop_zero (todo : list loc) (σ : heap) :
  for_each todo (pad_layer 0) σ = (Ok tt, σ).
Proof.
  induction todo as [|l0 rest IHrest]; [reflexivity|].
  change (for_each (l0 :: rest) (pad_layer 0) σ)
    with (bind (pad_layer 0 l0) (λ _, for_each rest (pad_layer 0)) σ).
  rewrite (bind_ok _ _ σ σ tt); [exact IHrest|apply pad_layer_zero].
Qed.

Lemma normalize_cons (σ : heap) (l0 : loc) (rest : list loc) :
  normalize (l0 :: rest) σ =
  let n := max_list ((λ l, List.length (σ !!! l)) <$> l0 :: rest) in
  match for_each (l0 :: rest) (pad_layer n) σ with
  | (Ok _, σ') => (Ok n, σ')
  | (Raise e, σ') => (Raise e, σ')
  end.
Proof. reflexivity. Qed.

(** With an empty layer among the layers, normalization either raises
    [IndexError] or, when all layers are empty, finds zero frames. *)
Lemma normalize_empty_layer (σ : heap) (layers : list loc) (l : loc) :
  l ∈ layers → σ !!! l = [] →
  (normalize layers σ).1 = Raise "IndexError" ∨
  (normalize layers σ = (Ok 0, σ) ∧ ∀ l', l' ∈ layers → σ !!! l' = []).
Proof.
  intros Hin Hl.
  destruct layers as [|l0 rest]; [by apply elem_of_nil in Hin|].
  rewrite normalize_cons.
  set (n := max_list ((λ l, List.length (σ !!! l)) <$> l0 :: rest)). cbv zeta.
  destruct (decide (n = 0)) as [Hn|Hn].
  - right. rewrite Hn, pad_loop_zero. split; [reflexivity|].
    intros l' Hl'. apply length_zero_iff_nil.
    assert (List.length (σ !!! l') ≤ n); [|lia].
    apply max_list_elem_of_le, list_elem_of_fmap. by exists l'.
  - left. pose proof (pad_loop_raises n (l0 :: rest) ltac:(lia) σ l Hin Hl) as Hraise.
    destruct (for_each (l0 :: rest) (pad_layer n) σ) as [[[]|e] σ1];
      cbn in *; congruence.
Qed.

Section EmptyInputs.
Context `{Pillow}.
Variable disk : string → result image.
Variable completion_order : list (nat * list string) → list (nat * list string).
Variable ffmpeg_exit : string → Z → list (nat * image) → Z.

Lemma merge_layers_141_no_layers output_video fps ba fa bl fl cb w :
  Mar141.merge_layers disk [] output_video fps ba fa bl fl cb w =
  (Raise "ValueError", w).
Proof. by destruct w. Qed.

Lemma merge_layers_141_empty_layer layers l output_video fps ba fa bl fl cb w :
  l ∈ layers → Mar141.lists w !! l = Some [] →
  ∃ σ', Mar141.merge_layers disk layers output_video fps ba fa bl fl cb w =
        (Raise "IndexError", Mar141.World σ' (Mar141.trace w)).
Proof.
  intros Hin Hl. apply lookup_total_correct in Hl.
  unfold Mar141.merge_layers. unfold bind at 1. unfold Mar141.on_lists.
  destruct (normalize_empty_layer (Mar141.lists w) layers l Hin Hl)
    as [Hraise|[Hzero Hall]].
  - destruct (normalize layers (Mar141.lists w)) as [[n|e] σ1]; cbn in *; [done|].
    exists σ1. congruence.
  - rewrite Hzero. exists (Mar141.lists w).
    unfold bind at 1. unfold get. unfold bind at 1. unfold lift. cbn.
    destruct layers as [|l0 rest]; [by apply elem_of_nil in Hin|].
    cbn. rewrite (Hall l0) by left. reflexivity.
Qed.

Lemma merge_layers_143_no_layers output_video fps ba fa bl fl cb w :
  Mar143.merge_layers disk completion_order ffmpeg_exit [] output_video fps
    ba fa bl fl cb w =
  (Raise "IndexError",
   Mar143.World (delete "temp_frames" (Mar143.dirs w))
     (Mar143.trace w ++ [Mar143.makedirs "temp_frames";
                         Mar143.rmtree "temp_frames"])).
Proof. by apply merge_layers_prepare_fails. Qed.

Lemma merge_layers_143_empty_layer layer0 rest output_video fps ba fa bl fl cb w :
  layer0 ≠ [] → [] ∈ rest →
  Mar143.merge_layers disk completion_order ffmpeg_exit (layer0 :: rest)
    output_video fps ba fa bl fl cb w =
  (Raise "IndexError",
   Mar143.World (delete "temp_frames" (Mar143.dirs w))
     (Mar143.trace w ++ [Mar143.makedirs "temp_frames";
                         Mar143.rmtree "temp_frames"])).
Proof.
  intros Hne Hin. apply merge_layers_prepare_fails. cbn.
  apply (prepare_frame_data_short _ _ []); [by right|].
  destruct layer0; [done|cbn; lia].
Qed.

(** C4, amended. There is no validation step and no
    [ValidationError]; empty inputs surface as Python's own exceptions.
    mar141's [merge_layers] raises [ValueError] on an empty list of layers
    and [IndexError] when some layer is empty, in both cases without
    opening the video writer or producing any frame.  mar143's
    [merge_layers] raises [IndexError] on an empty list of layers, and
    when layer 0 is not empty and another layer is, in both cases having
    only created and removed the staging directory. *)
Theorem empty_input_raises_builtin_error output_video fps ba fa cb :
  (∀ bl fl w,
     Mar141.merge_layers disk [] output_video fps ba fa bl fl cb w =
     (Raise "ValueError", w)) ∧
  (∀ bl fl layers l w,
     l ∈ layers → Mar141.lists w !! l = Some [] →
     ∃ σ', Mar141.merge_layers disk layers output_video fps ba fa bl fl cb w =
           (Raise "IndexError", Mar141.World σ' (Mar141.trace w))) ∧
  (∀ bl fl w,
     Mar143.merge_layers disk completion_order ffmpeg_exit [] output_video fps
       ba fa bl fl cb w =
     (Raise "IndexError",
      Mar143.World (delete "temp_frames" (Mar143.dirs w))
        (Mar143.trace w ++ [Mar143.makedirs "temp_frames";
                            Mar143.rmtree "temp_frames"]))) ∧
  (∀ bl fl layer0 rest w,
     layer0 ≠ [] → [] ∈ rest →
     Mar143.merge_layers disk completion_order ffmpeg_exit (layer0 :: rest)
       output_video fps ba fa bl fl cb w =
     (Raise "IndexError",
      Mar143.World (delete "temp_frames" (Mar143.dirs w))
        (Mar143.trace w ++ [Mar143.makedirs "temp_frames";
                            Mar143.rmtree "temp_frames"]))).
Proof.
  repeat split; intros.
  - apply merge_layers_141_no_layers.
  - by apply (merge_layers_141_empty_layer layers l).
  - apply merge_layers_143_no_layers.
  - by apply merge_layers_143_empty_layer.
Qed.
End EmptyInputs.

Lemma empty_input_raises_builtin_error_witness :
  (∃ σ', Mar141.merge_layers sample_disk [0; 1] "out.mp4" 30 0 0 None None true
           (Mar141.World (<[0 := ["a.png"]]> (<[1 := []]> ∅)) []) =
         (Raise "IndexError", Mar141.World σ' [])) ∧
  (Mar143.merge_layers sample_disk reverse_completion sample_ffmpeg
     [["a.png"]; []] "out.mp4" 30 0 0 [] [] true empty_world).1 =
  Raise "IndexError".
Proof.
  pose proof (empty_input_raises_builtin_error sample_disk reverse_completion
                sample_ffmpeg "out.mp4" 30%Z 0%Z 0%Z true) as (_ & H141 & _ & H143).
  split.
  - apply (H141 None None [0; 1] 1).
    + apply elem_of_cons. right. apply elem_of_cons. left. reflexivity.
    + vm_compute. reflexivity.
  - rewrite (H143 [] [] ["a.png"] [[]]); [reflexivity|discriminate|].
    apply elem_of_cons. left. reflexivity.
Defined.

(** C4, refuted as stated: on an empty list of layers mar141's
    [merge_layers] raises [ValueError], which is not a [ValidationError];
    and on a layer set whose only layer is empty mar143's [merge_layers]
    raises nothing before the encoder: it goes on to run ffmpeg on zero
    frames, and fails there. *)
Lemma empty_input_no_validation_error :
  (Mar141.merge_layers sample_disk [] "out.mp4" 30 0 0 None None true
     (Mar141.World ∅ [])).1 = Raise "ValueError" ∧
  (Mar141.merge_layers sample_disk [] "out.mp4" 30 0 0 None None true
     (Mar141.World ∅ [])).1 ≠ Raise "ValidationError" ∧
  Mar143.merge_layers sample_disk reverse_completion sample_ffmpeg
    [[]] "out.mp4" 30 0 0 [] [] true empty_world =
  (Raise "CalledProcessError",
   Mar143.World ∅ [Mar143.makedirs "temp_frames";
                   Mar143.ffmpeg_run "out.mp4" 30 [];
                   Mar143.rmtree "temp_frames"]).
Proof.
  split; [reflexivity|]. split; [discriminate|].
  vm_compute. reflexivity.
Qed.

(** ** Progress values *)

Lemma fraction_le (a b : Z) (n : nat) :
  0 < n → (a ≤ b)%Z →
  (inject_Z a / inject_Z (Z.of_nat n) <= inject_Z b / inject_Z (Z.of_nat n))%Q.
Proof.
  intros Hn Hab. destruct n as [|m]; [lia|].
  change (Z.of_nat (S m)) with (Z.pos (Pos.of_succ_nat m)).
  rewrite <- !Qmake_Qdiv. unfold Qle. cbn [Qnum Qden].
  apply Z.mul_le_mono_nonneg_r; [lia|exact Hab].
Qed.

Lemma fraction_eq_100 (a : Z) (n : nat) :
  0 < n →
  (inject_Z a / inject_Z (Z.of_nat n) == 100)%Q ↔ (a = 100 * Z.of_nat n)%Z.
Proof.
  intros Hn. destruct n as [|m]; [lia|].
  change (Z.of_nat (S m)) with (Z.pos (Pos.of_succ_nat m)).
  rewrite <- Qmake_Qdiv. unfold Qeq. cbn [Qnum Qden]. lia.
Qed.

Lemma fraction_nonneg (a : Z) (n : nat) :
  0 < n → (0 ≤ a)%Z → (0 <= inject_Z a / inject_Z (Z.of_nat n))%Q.
Proof.
  intros Hn Ha. destruct n as [|m]; [lia|].
  change (Z.of_nat (S m)) with (Z.pos (Pos.of_succ_nat m)).
  rewrite <- Qmake_Qdiv. unfold Qle. cbn [Qnum Qden]. lia.
Qed.

(** The values [(k + 1) * 100 / n] for [k = 0 .. n - 1]. *)
Lemma percent_sequence (f : nat → Q) (n : nat) :
  0 < n →
  (∀ k, (f k == inject_Z (Z.of_nat ((k + 1) * 100)) / inject_Z (Z.of_nat n))%Q) →
  non_decreasing (f <$> seq 0 n) ∧
  within_0_100 (f <$> seq 0 n) ∧
  hundred_once_at_end (f <$> seq 0 n).
Proof.
  intros Hn Hf.
  assert (∀ i q, (f <$> seq 0 n) !! i = Some q → i < n ∧ q = f i) as Hlookup.
  { intros i q Hi. rewrite list_lookup_fmap in Hi.
    destruct (seq 0 n !! i) as [k|] eqn:Hk; [|done].
    apply lookup_seq in Hk as [-> ?]. cbn in Hi. split; [done|congruence]. }
  repeat split.
  - intros i j qi qj Hij Hi Hj.
    apply Hlookup in Hi as [_ ->]. apply Hlookup in Hj as [_ ->].
    rewrite !Hf. apply fraction_le; [done|lia].
  - apply list_elem_of_lookup in H as [i Hi]. apply Hlookup in Hi as [_ ->].
    rewrite Hf. apply fraction_nonneg; [done|lia].
  - apply list_elem_of_lookup in H as [i Hi]. apply Hlookup in Hi as [Hlt ->].
    rewrite Hf.
    assert (100 == inject_Z (100 * Z.of_nat n) / inject_Z (Z.of_nat n))%Q as ->.
    { symmetry. by apply fraction_eq_100. }
    apply fraction_le; [done|lia].
  - exists (f (n - 1)). split.
    + rewrite last_lookup, length_fmap, length_seq, list_lookup_fmap.
      rewrite lookup_seq_lt by lia. cbn. do 2 f_equal. lia.
    + rewrite Hf. apply fraction_eq_100; [done|lia].
  - intros i q Hi Hq. apply Hlookup in Hi as [Hlt ->].
    rewrite Hf in Hq. apply fraction_eq_100 in Hq; [|done].
    rewrite length_fmap, length_seq. lia.
Qed.

Lemma bind_ok_inv {S A B} (c : M S A) (k : A → M S B) (s s' : S) (b : B) :
  bind c k s = (Ok b, s') → ∃ a s1, c s = (Ok a, s1) ∧ k a s1 = (Ok b, s').
Proof.
  unfold bind. destruct (c s) as [[a|e] s1]; intros Hk; [eauto|done].
Qed.

Lemma try_finally_ok_inv {S A} (body : M S A) (fin : M S unit) (s s' : S) (a : A) :
  try_finally body fin s = (Ok a, s') →
  ∃ s1, body s = (Ok a, s1) ∧ fin s1 = (Ok tt, s').
Proof.
  unfold try_finally. destruct (body s) as [r s1].
  destruct (fin s1) as [[[]|e] s2] eqn:Hfin; intros Heq; [|done].
  exists s1. by inversion Heq; subst.
Qed.

Lemma normalize_ok_zero (σ σ1 : heap) (layers : list loc) :
  normalize layers σ = (Ok 0, σ1) →
  σ1 = σ ∧ ∀ l, l ∈ layers → σ !!! l = [].
Proof.
  destruct layers as [|l0 rest].
  { intros Hraise. cbv [normalize max_len bind get raise] in Hraise. discriminate. }
  rewrite normalize_cons. cbv zeta.
  set (n := max_list ((λ l, List.length (σ !!! l)) <$> l0 :: rest)).
  destruct (for_each (l0 :: rest) (pad_layer n) σ) as [[[]|e] σ'] eqn:Hloop; [|done].
  intros Heq. assert (n = 0) as Hn by congruence.
  rewrite Hn, pad_loop_zero in Hloop. split; [congruence|].
  intros l Hl. apply length_zero_iff_nil.
  assert (List.length (σ !!! l) ≤ n); [|lia].
  apply max_list_elem_of_le, list_elem_of_fmap. by exists l.
Qed.

Section ProgressRuns.
Context `{Pillow}.
Variable disk : string → result image.
Variable completion_order : list (nat * list string) → list (nat * list string).
Variable ffmpeg_exit : string → Z → list (nat * image) → Z.

Abbreviation merge_layers_143 :=
  (Mar143.merge_layers disk completion_order ffmpeg_exit).

(** *** mar143.py *)

Lemma progress_values_143_app t t' :
  Mar143.progress_values (t ++ t') =
  Mar143.progress_values t ++ Mar143.progress_values t'.
Proof. apply omap_app. Qed.

Lemma appends_no_progress {A} (c : M Mar143.world A) :
  Mar143.appends (λ e, Mar143.progress_values [e] = []) c →
  ∀ w, Mar143.progress_values (Mar143.trace (c w).2) =
       Mar143.progress_values (Mar143.trace w).
Proof.
  intros Hc w. destruct (Hc w) as (evs & Htrace & Hevs).
  rewrite Htrace, progress_values_143_app.
  assert (Mar143.progress_values evs = []) as ->; [|apply app_nil_r].
  clear Htrace. induction Hevs as [|e evs He _ IHevs]; [done|].
  change (e :: evs) with ([e] ++ evs).
  by rewrite progress_values_143_app, He, IHevs.
Qed.

Lemma collect_progress temp_dir n bl fl ba fa (completed : list (nat * list string)) :
  ∀ i w w',
    Mar143.collect disk i completed temp_dir n bl fl ba fa true w = (Ok tt, w') →
    Mar143.progress_values (Mar143.trace w') =
    Mar143.progress_values (Mar143.trace w) ++
    ((λ k, Mar143.percent k n) <$> seq i (List.length completed)).
Proof.
  induction completed as [|job rest IHrest]; intros i w w' Hrun.
  - cbn in Hrun. inversion Hrun; subst. by rewrite app_nil_r.
  - cbn [Mar143.collect] in Hrun.
    apply bind_ok_inv in Hrun as (k & w1 & Hjob & Hrun).
    apply bind_ok_inv in Hrun as ([] & w2 & Hemit & Hrun).
    apply IHrest in Hrun. rewrite Hrun. inversion Hemit; subst.
    cbn [Mar143.trace List.length seq]. rewrite fmap_cons.
    rewrite progress_values_143_app, <- app_assoc.
    change (Mar143.progress_values [Mar143.callback (Mar143.percent i n)])
      with [Mar143.percent i n].
    f_equal. change w1 with (Ok k, w1).2. rewrite <- Hjob.
    apply (appends_no_progress
             (Mar143.process_frame disk job temp_dir bl fl ba fa)).
    by apply appends_process_frame.
Qed.

Lemma try_finally_rmtree {A} (body : M Mar143.world A) path w :
  try_finally body (Mar143.shutil_rmtree path) w =
  ((body w).1,
   Mar143.World (delete path (Mar143.dirs (body w).2))
     (Mar143.trace (body w).2 ++ [Mar143.rmtree path])).
Proof. unfold try_finally. by destruct (body w) as [r w']. Qed.

(** How a run of [merge_layers] goes: either it raises before the
    encoder is started, or all jobs complete, ffmpeg is run on what the
    staging directory then holds, and its exit status decides. *)
Lemma merge_layers_143_run image_paths output_video fps ba fa bl fl cb w :
  let w1 := (Mar143.os_makedirs "temp_frames" w).2 in
  let run := merge_layers_143 image_paths output_video fps ba fa bl fl cb w in
  (∃ e evs,
     run.1 = Raise e ∧
     Mar143.trace run.2 =
       Mar143.trace w1 ++ evs ++ [Mar143.rmtree "temp_frames"] ∧
     Forall (λ ev, ∀ o f frames, ev ≠ Mar143.ffmpeg_run o f frames) evs) ∨
  (∃ layer0 frame_data w2,
     index image_paths 0 = Ok layer0 ∧
     Mar143.prepare_frame_data image_paths (List.length layer0) = Ok frame_data ∧
     Mar143.collect disk 0 (completion_order frame_data) "temp_frames"
       (List.length layer0) bl fl ba fa cb w1 = (Ok tt, w2) ∧
     Mar143.trace run.2 =
       Mar143.trace w2 ++
       [Mar143.ffmpeg_run output_video fps
          (Mar143.read_sequence (default ∅ (Mar143.dirs w2 !! "temp_frames")));
        Mar143.rmtree "temp_frames"] ∧
     (run.1 = Ok tt ∨ run.1 = Raise "CalledProcessError")).
Proof.
  intros w1 run. unfold run, Mar143.merge_layers.
  rewrite (bind_ok _ _ w w1 tt) by reflexivity.
  rewrite try_finally_rmtree. cbn [fst snd].
  destruct (index image_paths 0) as [layer0|e].
  2:{ left. exists e, []. rewrite (bind_raise _ _ w1 w1 e) by reflexivity.
      split; [reflexivity|]. split; [reflexivity|constructor]. }
  rewrite (bind_ok _ _ w1 w1 layer0) by reflexivity. cbv beta zeta.
  destruct (Mar143.prepare_frame_data image_paths (List.length layer0))
    as [frame_data|e] eqn:Hprep.
  2:{ left. exists e, []. rewrite (bind_raise _ _ w1 w1 e) by reflexivity.
      split; [reflexivity|]. split; [reflexivity|constructor]. }
  rewrite (bind_ok _ _ w1 w1 frame_data) by reflexivity.
  pose proof (appends_collect disk
    (λ ev, ∀ o f frames, ev ≠ Mar143.ffmpeg_run o f frames)
    (completion_order frame_data) "temp_frames" (List.length layer0)
    bl fl ba fa cb ltac:(done) ltac:(done) 0 w1) as (evs & Htrace & Hevs).
  destruct (Mar143.collect disk 0 (completion_order frame_data) "temp_frames"
              (List.length layer0) bl fl ba fa cb w1) as [[[]|e] w2] eqn:Hcollect.
  - right. exists layer0, frame_data, w2.
    split; [reflexivity|]. split; [exact Hprep|]. split; [exact Hcollect|].
    rewrite (bind_ok _ _ w1 w2 tt Hcollect).
    unfold Mar143.run_ffmpeg, bind, get, Mar143.emit, modify. cbn.
    destruct (_ =? _)%Z; cbn; rewrite <- app_assoc; split; auto.
  - left. exists e, evs. rewrite (bind_raise _ _ w1 w2 e Hcollect).
    cbn in *. split; [reflexivity|]. split; [|done].
    by rewrite Htrace, <- app_assoc.
Qed.

(** *** mar141.py *)

Lemma percent_141_eq (k n : nat) :
  (Mar141.percent k n ==
   inject_Z (Z.of_nat ((k + 1) * 100)) / inject_Z (Z.of_nat n))%Q.
Proof.
  unfold Mar141.percent, Qdiv. rewrite Nat2Z.inj_mul, inject_Z_mult.
  change (inject_Z (Z.of_nat 100)) with 100%Q. ring.
Qed.

Lemma frame_loop_progress layers n ba fa bl fl (frames : list nat) :
  ∀ w w',
    for_each frames (Mar141.frame_step disk layers n ba fa bl fl true) w
      = (Ok tt, w') →
    Mar141.progress_values (Mar141.trace w') =
    Mar141.progress_values (Mar141.trace w) ++
    ((λ i, Mar141.percent i n) <$> frames).
Proof.
  induction frames as [|i rest IHrest]; intros w w' Hrun.
  - cbn in Hrun. inversion Hrun; subst. by rewrite app_nil_r.
  - cbn [for_each] in Hrun.
    apply bind_ok_inv in Hrun as ([] & w1 & Hstep & Hrun).
    apply IHrest in Hrun. rewrite Hrun, fmap_cons.
    assert (Mar141.progress_values (Mar141.trace w1) =
            Mar141.progress_values (Mar141.trace w) ++ [Mar141.percent i n])
      as ->; [|by rewrite <- app_assoc].
    unfold Mar141.frame_step in Hstep.
    apply bind_ok_inv in Hstep as (w0 & w0' & Hget & Hstep).
    inversion Hget; subst.
    apply bind_ok_inv in Hstep as (merged & w2 & Hmerge & Hstep).
    unfold lift in Hmerge. inversion Hmerge; subst.
    apply bind_ok_inv in Hstep as ([] & w3 & Hwrite & Hstep).
    inversion Hwrite; subst. inversion Hstep; subst. cbn [Mar141.trace].
    unfold Mar141.progress_values. rewrite !omap_app. cbn.
    by rewrite app_nil_r.
Qed.

Lemma merge_layers_141_progress layers output_video fps ba fa bl fl w w' :
  Mar141.trace w = [] →
  Mar141.merge_layers disk layers output_video fps ba fa bl fl true w
    = (Ok tt, w') →
  ∃ n, 0 < n ∧
       Mar141.progress_values (Mar141.trace w') =
       (λ i, Mar141.percent i n) <$> seq 0 n.
Proof.
  intros Hempty Hrun. unfold Mar141.merge_layers in Hrun.
  apply bind_ok_inv in Hrun as (n & w1 & Hnorm & Hrun).
  apply bind_ok_inv in Hrun as (w0 & w0' & Hget & Hrun). inversion Hget; subst.
  apply bind_ok_inv in Hrun as (first_image & w2 & Hfirst & Hrun).
  apply bind_ok_inv in Hrun as ([] & w3 & Hopen & Hrun).
  apply bind_ok_inv in Hrun as ([] & w4 & Hloop & Hrun).
  unfold lift in Hfirst. inversion Hfirst as [[Hfirst' Hw2]]. subst w2.
  inversion Hopen; subst. inversion Hrun; subst. clear Hopen Hrun Hget Hfirst.
  apply frame_loop_progress in Hloop. cbn in Hloop |- *.
  unfold Mar141.on_lists in Hnorm.
  destruct (normalize layers (Mar141.lists w)) as [r σ1] eqn:Hnormalize.
  inversion Hnorm; subst. cbn in *.
  exists n. split.
  - destruct n as [|n]; [exfalso|lia].
    apply normalize_ok_zero in Hnormalize as [-> Hall].
    destruct layers as [|l0 rest]; [done|]. cbn in Hfirst'.
    rewrite (Hall l0) in Hfirst' by left. done.
  - unfold Mar141.progress_values in *. rewrite omap_app, Hloop, !omap_app. cbn.
    by rewrite Hempty, app_nil_r.
Qed.

(** C5, amended. With a progress callback, on every successful
    run of [merge_layers] that has at least one frame, the values passed
    to the callback never decrease, lie between 0 and 100, and 100 is
    passed once, by the last call.  A successful run of mar141 always has
    a frame; one of mar143 has when layer 0 is not empty.  The pool
    completes each submitted job once, in any order; the values are the
    exact quotients. *)
Theorem progress_non_decreasing_ends_at_100 :
  (∀ jobs, completion_order jobs ≡ₚ jobs) →
  (∀ layers output_video fps ba fa bl fl w w',
     Mar141.trace w = [] →
     Mar141.merge_layers disk layers output_video fps ba fa bl fl true w
       = (Ok tt, w') →
     non_decreasing (Mar141.progress_values (Mar141.trace w')) ∧
     within_0_100 (Mar141.progress_values (Mar141.trace w')) ∧
     hundred_once_at_end (Mar141.progress_values (Mar141.trace w'))) ∧
  (∀ image_paths output_video fps ba fa bl fl w w',
     Mar143.trace w = [] →
     image_paths !! 0 ≠ Some [] →
     merge_layers_143 image_paths output_video fps ba fa bl fl true w
       = (Ok tt, w') →
     non_decreasing (Mar143.progress_values (Mar143.trace w')) ∧
     within_0_100 (Mar143.progress_values (Mar143.trace w')) ∧
     hundred_once_at_end (Mar143.progress_values (Mar143.trace w'))).
Proof.
  intros Hperm. split.
  - intros layers output_video fps ba fa bl fl w w' Hempty Hrun.
    destruct (merge_layers_141_progress _ _ _ _ _ _ _ _ _ Hempty Hrun)
      as (n & Hn & ->).
    apply percent_sequence; [done|]. intros k. apply percent_141_eq.
  - intros image_paths output_video fps ba fa bl fl w w' Hempty Hlayers Hrun.
    destruct (merge_layers_143_run image_paths output_video fps ba fa bl fl true w)
      as [(e & evs & Hraise & _)|(layer0 & fd & w2 & H0 & Hprep & Hcollect & Htrace & _)].
    { rewrite Hrun in Hraise. done. }
    rewrite Hrun in Htrace. cbn [snd] in Htrace.
    assert (Mar143.progress_values (Mar143.trace w') =
            Mar143.progress_values (Mar143.trace w2)) as ->.
    { rewrite Htrace, progress_values_143_app. apply app_nil_r. }
    rewrite (collect_progress _ _ _ _ _ _ _ _ _ _ Hcollect).
    assert (Mar143.progress_values
              (Mar143.trace (Mar143.os_makedirs "temp_frames" w).2) = []) as ->.
    { cbn [Mar143.os_makedirs Mar143.trace snd]. cbn.
      unfold Mar143.progress_values. by rewrite omap_app, Hempty. }
    rewrite app_nil_l.
    assert (List.length (completion_order fd) = List.length layer0) as ->.
    { rewrite (Permutation_length (Hperm fd)).
      rewrite <- (length_fmap fst), (prepare_frame_data_indices _ _ _ Hprep).
      apply length_seq. }
    apply percent_sequence; [|done].
    unfold index in H0. destruct image_paths as [|l0 rest]; [done|].
    cbn in H0. inversion H0; subst.
    destruct layer0; [done|cbn; lia].
Qed.
End ProgressRuns.

Lemma progress_non_decreasing_ends_at_100_witness :
  hundred_once_at_end
    (Mar143.progress_values
       (Mar143.trace
          (Mar143.merge_layers sample_disk reverse_completion sample_ffmpeg
             [["a0.png"; "a1.png"]; ["b0.png"; "b1.png"]] "out.mp4" 30 0 0
             [] [] true empty_world).2)).
Proof.
  assert (∀ jobs, reverse_completion jobs ≡ₚ jobs) as Hperm.
  { intros jobs. unfold reverse_completion. symmetry. apply Permutation_rev. }
  destruct (@progress_non_decreasing_ends_at_100 SymPillow sample_disk
              reverse_completion sample_ffmpeg Hperm) as [_ H143].
  refine (proj2 (proj2
    (H143 [["a0.png"; "a1.png"]; ["b0.png"; "b1.png"]] "out.mp4" 30%Z 0%Z 0%Z
       [] [] empty_world _ _ _ _))).
  - reflexivity.
  - discriminate.
  - vm_compute. reflexivity.
Defined.

(** C5, refuted as stated: a successful run of mar143's
    [merge_layers] that never calls the callback.  Layer 0 is empty, so
    there is no job; the staging directory still holds frame 0 of an
    earlier run, which ffmpeg encodes. *)
Lemma successful_run_without_callback :
  Mar143.merge_layers sample_disk reverse_completion sample_ffmpeg
    [[]] "out.mp4" 30 0 0 [] [] true stale_world =
  (Ok tt,
   Mar143.World ∅
     [Mar143.makedirs "temp_frames";
      Mar143.ffmpeg_run "out.mp4" 30 [(0, Decoded "old0.png" (4, 4)%Z)];
      Mar143.rmtree "temp_frames"]) ∧
  ¬ hundred_once_at_end
      (Mar143.progress_values
         (Mar143.trace
            (Mar143.merge_layers sample_disk reverse_completion sample_ffmpeg
               [[]] "out.mp4" 30 0 0 [] [] true stale_world).2)).
Proof.
  split; [vm_compute; reflexivity|].
  intros [(q & Hlast & _) _]. vm_compute in Hlast. discriminate.
Qed.

(** ** Frame file names *)

Lemma string_length_app (s1 s2 : string) :
  String.length (s1 +:+ s2) = String.length s1 + String.length s2.
Proof. induction s1 as [|c s1 IHs1]; simpl; [done|]. by rewrite IHs1. Qed.

Lemma string_app_inj_r (s x : string) : ∀ y, x +:+ s = y +:+ s → x = y.
Proof.
  induction x as [|c x IHx]; intros [|d y] Heq; simpl in Heq.
  - reflexivity.
  - apply (f_equal String.length) in Heq. simpl in Heq.
    rewrite !string_length_app in Heq. simpl in Heq. lia.
  - apply (f_equal String.length) in Heq. simpl in Heq.
    rewrite !string_length_app in Heq. simpl in Heq. lia.
  - injection Heq as -> Heq. f_equal. by apply IHx.
Qed.

Lemma uint_of_string_zeros (k : nat) (s : string) :
  NilEmpty.uint_of_string (Mar143.zeros k +:+ s) =
  Nat.iter k Decimal.D0 <$> NilEmpty.uint_of_string s.
Proof.
  induction k as [|k IHk]; simpl.
  - change ("" +:+ s) with s. by destruct (NilEmpty.uint_of_string s).
  - rewrite IHk. by destruct (NilEmpty.uint_of_string s).
Qed.

Lemma of_uint_leading_zeros (k : nat) (d : Decimal.uint) :
  Nat.of_uint (Nat.iter k Decimal.D0 d) = Nat.of_uint d.
Proof. induction k as [|k IHk]; [reflexivity|]. cbn. exact IHk. Qed.

Lemma read_format_05d (n : nat) :
  Mar143.read_decimal (Mar143.format_05d n) = Some n.
Proof.
  unfold Mar143.read_decimal, Mar143.format_05d.
  rewrite uint_of_string_zeros, NilEmpty.usu. cbn.
  by rewrite of_uint_leading_zeros, DecimalNat.Unsigned.of_to.
Qed.

Instance frame_name_inj : Inj (=) (=) Mar143.frame_name.
Proof.
  intros n m Heq. unfold Mar143.frame_name in Heq.
  apply (inj (String.append "frame_")) in Heq.
  apply string_app_inj_r in Heq.
  apply (f_equal Mar143.read_decimal) in Heq.
  rewrite !read_format_05d in Heq. congruence.
Qed.

Example frame_names :
  Mar143.frame_name 0 = "frame_00000.png" ∧
  Mar143.frame_name 7 = "frame_00007.png" ∧
  Mar143.frame_name 42 = "frame_00042.png".
Proof. repeat split; vm_compute; reflexivity. Qed.

(** ** What ffmpeg reads from a directory *)

Section Reading.
Context `{Pillow}.

Lemma read_from_indices (files : gmap string image) : ∀ fuel start,
  (Mar143.read_from fuel files start).*1 =
  seq start (List.length (Mar143.read_from fuel files start)).
Proof.
  induction fuel as [|fuel IHfuel]; intros start; [reflexivity|].
  cbn. destruct (files !! Mar143.frame_name start); [|reflexivity].
  cbn. by rewrite IHfuel.
Qed.

Lemma read_from_lookup (files : gmap string image) : ∀ fuel start k im,
  k < fuel →
  (∀ j, j < k → is_Some (files !! Mar143.frame_name (start + j))) →
  files !! Mar143.frame_name (start + k) = Some im →
  Mar143.read_from fuel files start !! k = Some (start + k, im).
Proof.
  induction fuel as [|fuel IHfuel]; intros start k im Hk Hbefore Hat; [lia|].
  cbn. destruct k as [|k].
  - rewrite Nat.add_0_r in Hat |- *. by rewrite Hat.
  - destruct (Hbefore 0) as [im0 Him0]; [lia|].
    rewrite Nat.add_0_r in Him0. rewrite Him0. cbn.
    replace (start + S k) with (S start + k) in Hat |- * by lia.
    apply IHfuel; [lia| |done].
    intros j Hj. replace (S start + j) with (start + S j) by lia.
    apply Hbefore. lia.
Qed.

Lemma strictly_ascending_seq (start len : nat) :
  Mar143.strictly_ascending (seq start len).
Proof.
  intros i j a b Hij Hi Hj.
  apply lookup_seq in Hi as [-> _]. apply lookup_seq in Hj as [-> _]. lia.
Qed.

Lemma read_sequence_ascending (files : gmap string image) :
  Mar143.strictly_ascending (Mar143.read_sequence files).*1.
Proof.
  unfold Mar143.read_sequence. destruct (Mar143.first_index files) as [start|].
  - rewrite read_from_indices. apply strictly_ascending_seq.
  - intros i j a b _ Hi. done.
Qed.

(** A directory that holds [n] consecutive frames holds at least [n]
    files. *)
Lemma size_at_least_from (files : gmap string image) (start n : nat) :
  (∀ i, i < n → is_Some (files !! Mar143.frame_name (start + i))) →
  n ≤ size files.
Proof.
  intros Hframes. rewrite <- size_dom.
  set (names := list_to_set (Mar143.frame_name <$> seq start n) : gset string).
  assert (size names = n) as Hsize.
  { unfold names. rewrite size_list_to_set.
    - by rewrite length_fmap, length_seq.
    - apply NoDup_fmap_2; [apply _|apply NoDup_seq]. }
  apply (Nat.le_trans _ (size names)); [lia|].
  apply subseteq_size. intros name Hname.
  apply elem_of_list_to_set, list_elem_of_fmap in Hname as (i & -> & Hi).
  apply elem_of_seq in Hi. apply elem_of_dom.
  replace i with (start + (i - start)) by lia. apply Hframes. lia.
Qed.

Lemma size_at_least (files : gmap string image) (n : nat) :
  (∀ i, i < n → is_Some (files !! Mar143.frame_name i)) → n ≤ size files.
Proof. apply (size_at_least_from files 0). Qed.

(** The fuel of [read_sequence] is enough: reading stops at a file that
    is missing, not because the fuel ran out. *)
Lemma read_from_present (files : gmap string image) : ∀ fuel start k,
  k < List.length (Mar143.read_from fuel files start) →
  is_Some (files !! Mar143.frame_name (start + k)).
Proof.
  induction fuel as [|fuel IHfuel]; intros start k Hk; cbn in Hk; [lia|].
  destruct (files !! Mar143.frame_name start) as [im|] eqn:Hstart;
    cbn in Hk; [|lia].
  destruct k as [|k]; [rewrite Nat.add_0_r; eauto|].
  replace (start + S k) with (S start + k) by lia. apply IHfuel. lia.
Qed.

Lemma read_from_stops (files : gmap string image) : ∀ fuel start,
  List.length (Mar143.read_from fuel files start) < fuel →
  files !! Mar143.frame_name
             (start + List.length (Mar143.read_from fuel files start)) = None.
Proof.
  induction fuel as [|fuel IHfuel]; intros start Hlen; [lia|]. cbn in Hlen |- *.
  destruct (files !! Mar143.frame_name start) as [im|] eqn:Hstart; cbn in *.
  - replace (start + S (List.length (Mar143.read_from fuel files (S start))))
      with (S start + List.length (Mar143.read_from fuel files (S start))) by lia.
    apply IHfuel. lia.
  - by rewrite Nat.add_0_r.
Qed.

Lemma read_from_length (files : gmap string image) (fuel start : nat) :
  List.length (Mar143.read_from fuel files start) ≤ fuel.
Proof.
  revert start. induction fuel as [|fuel IHfuel]; intros start; cbn; [lia|].
  destruct (files !! Mar143.frame_name start); cbn; [|lia].
  specialize (IHfuel (S start)). lia.
Qed.

Lemma read_sequence_stops_at_missing_frame (files : gmap string image) start :
  Mar143.first_index files = Some start →
  files !! Mar143.frame_name
             (start + List.length (Mar143.read_sequence files)) = None.
Proof.
  intros Hstart. unfold Mar143.read_sequence. rewrite Hstart.
  set (frames := Mar143.read_from (size files) files start).
  pose proof (read_from_length files (size files) start) as Hle. fold frames in Hle.
  destruct (decide (List.length frames < size files)) as [Hlt|Hfull].
  { by apply read_from_stops. }
  destruct (files !! Mar143.frame_name (start + List.length frames)) as [im|] eqn:Hnext;
    [exfalso|done].
  assert (S (List.length frames) ≤ size files); [|lia].
  apply (size_at_least_from files start). intros i Hi.
  destruct (decide (i = List.length frames)) as [->|Hne]; [eauto|].
  apply (read_from_present files (size files)). fold frames. lia.
Qed.

Lemma first_index_zero (files : gmap string image) :
  is_Some (files !! Mar143.frame_name 0) → Mar143.first_index files = Some 0.
Proof.
  intros Hzero. unfold Mar143.first_index. cbn [seq List.find].
  by rewrite bool_decide_eq_true_2.
Qed.

(** With the frames [0 .. n-1] present, the [i]-th frame read is frame
    [i], for every [i < n]. *)
Lemma read_sequence_lookup (files : gmap string image) (n i : nat) (im : image) :
  (∀ j, j < n → is_Some (files !! Mar143.frame_name j)) →
  i < n → files !! Mar143.frame_name i = Some im →
  Mar143.read_sequence files !! i = Some (i, im).
Proof.
  intros Hframes Hi Him. unfold Mar143.read_sequence.
  rewrite first_index_zero by (apply Hframes; lia).
  apply (read_from_lookup files (size files) 0 i im).
  - pose proof (size_at_least files n Hframes). lia.
  - intros j Hj. apply Hframes. lia.
  - exact Him.
Qed.
End Reading.

(** ** Frames reach the encoder in index order *)

Section Ordering.
Context `{Pillow}.
Variable disk : string → result image.
Variable completion_order : list (nat * list string) → list (nat * list string).
Variable ffmpeg_exit : string → Z → list (nat * image) → Z.

Lemma process_frame_ok_inv frame_index layer_paths temp_dir bl fl ba fa w w' k :
  Mar143.process_frame disk (frame_index, layer_paths) temp_dir bl fl ba fa w
    = (Ok k, w') →
  ∃ merged files,
    Mar143.composite disk None 0 layer_paths bl fl ba fa = Ok (Some merged) ∧
    Mar143.dirs w !! temp_dir = Some files ∧
    Mar143.dirs w' =
      <[temp_dir := <[Mar143.frame_name frame_index := merged]> files]>
        (Mar143.dirs w).
Proof.
  unfold Mar143.process_frame. intros Hrun.
  apply bind_ok_inv in Hrun as (merged & w1 & Hcomposite & Hrun).
  unfold lift in Hcomposite. inversion Hcomposite as [[Hc Hw1]]. subst w1.
  destruct merged as [merged|]; [|done].
  apply bind_ok_inv in Hrun as ([] & w2 & Hsave & Hrun).
  inversion Hrun; subst. unfold Mar143.save in Hsave.
  apply bind_ok_inv in Hsave as (w0 & w0' & Hget & Hsave).
  inversion Hget; subst.
  destruct (Mar143.dirs w0' !! temp_dir) as [files|] eqn:Hdir; [|done].
  apply bind_ok_inv in Hsave as ([] & w3 & Hmod & Hemit).
  inversion Hmod; subst. inversion Hemit; subst. cbn.
  exists merged, files. by rewrite Hc.
Qed.

(** What the staging directory holds once all jobs have completed. *)
Lemma collect_files temp_dir n bl fl ba fa cb (completed : list (nat * list string)) :
  ∀ i w w' files,
    Mar143.collect disk i completed temp_dir n bl fl ba fa cb w = (Ok tt, w') →
    Mar143.dirs w !! temp_dir = Some files →
    ∃ files',
      Mar143.dirs w' !! temp_dir = Some files' ∧
      (∀ name, name ∉ Mar143.frame_name <$> completed.*1 →
               files' !! name = files !! name) ∧
      (NoDup completed.*1 →
       ∀ frame_index layer_paths, (frame_index, layer_paths) ∈ completed →
         ∃ merged,
           Mar143.composite disk None 0 layer_paths bl fl ba fa
             = Ok (Some merged) ∧
           files' !! Mar143.frame_name frame_index = Some merged).
Proof.
  induction completed as [|[idx paths] rest IHrest]; intros i w w' files Hrun Hdir.
  - cbn in Hrun. inversion Hrun; subst. exists files.
    split; [done|]. split; [done|]. intros _ ? ? Hin. by apply elem_of_nil in Hin.
  - cbn [Mar143.collect] in Hrun.
    apply bind_ok_inv in Hrun as (k & w1 & Hjob & Hrun).
    apply bind_ok_inv in Hrun as ([] & w2 & Hcb & Hrun).
    apply process_frame_ok_inv in Hjob as (merged & files0 & Hmerged & Hdir0 & Hw1).
    assert (files0 = files) as -> by congruence.
    assert (Mar143.dirs w2 = Mar143.dirs w1) as Hw2.
    { destruct cb; by inversion Hcb. }
    destruct (IHrest (S i) w2 w' (<[Mar143.frame_name idx := merged]> files) Hrun)
      as (files' & Hdir' & Hframe & Hwritten).
    { by rewrite Hw2, Hw1, lookup_insert_eq. }
    exists files'. split; [done|]. split.
    + intros name Hname. cbn in Hname. apply not_elem_of_cons in Hname as [Hne Hname].
      rewrite Hframe by done. by rewrite lookup_insert_ne.
    + intros Hnodup frame_index layer_paths Hin. cbn in Hnodup.
      apply NoDup_cons in Hnodup as [Hfresh Hnodup].
      apply elem_of_cons in Hin as [Heq|Hin].
      * inversion Heq; subst. exists merged. split; [done|].
        rewrite Hframe; [apply lookup_insert_eq|].
        intros (j & Hj & Hjin)%list_elem_of_fmap.
        apply (inj Mar143.frame_name) in Hj. by subst.
      * by apply Hwritten.
Qed.

Lemma os_makedirs_creates path w :
  is_Some (Mar143.dirs (Mar143.os_makedirs path w).2 !! path).
Proof.
  cbn. destruct (Mar143.dirs w !! path) as [files|] eqn:Hdir.
  - by rewrite Hdir.
  - by rewrite lookup_insert_eq.
Qed.

(** C3. Whatever the order in which the workers complete, the
    frames that the encoder reads are in strictly ascending index order,
    and the [i]-th of them is the composite of the layers' [i]-th paths,
    for every index [i] of layer 0: each frame was staged under its own
    index and is read back by that index. *)
Theorem encoder_reads_frames_in_index_order :
  (∀ jobs, completion_order jobs ≡ₚ jobs) →
  ∀ image_paths output_video fps ba fa bl fl cb w o f frames,
    Mar143.trace w = [] →
    Mar143.ffmpeg_run o f frames ∈
      Mar143.trace (Mar143.merge_layers disk completion_order ffmpeg_exit
                      image_paths output_video fps ba fa bl fl cb w).2 →
    Mar143.strictly_ascending frames.*1 ∧
    ∀ layer0 i, image_paths !! 0 = Some layer0 → i < List.length layer0 →
      ∃ merged,
        frames !! i = Some (i, merged) ∧
        Mar143.composite disk None 0
          ((λ layer, default "" (layer !! i)) <$> image_paths) bl fl ba fa
          = Ok (Some merged).
Proof.
  intros Hperm image_paths output_video fps ba fa bl fl cb w o f frames Hempty Hin.
  assert (Mar143.trace (Mar143.os_makedirs "temp_frames" w).2 =
          [Mar143.makedirs "temp_frames"]) as Htrace1.
  { cbn. by rewrite Hempty. }
  destruct (merge_layers_143_run disk completion_order ffmpeg_exit
              image_paths output_video fps ba fa bl fl cb w)
    as [(e & evs & _ & Htrace & Hevs)
       |(layer0 & fd & w2 & H0 & Hprep & Hcollect & Htrace & _)];
    rewrite Htrace in Hin.
  { exfalso. rewrite Htrace1 in Hin.
    apply elem_of_cons in Hin as [?|Hin]; [done|].
    apply elem_of_app in Hin as [Hin|Hin].
    - rewrite Forall_forall in Hevs. by apply (Hevs _ Hin o f frames).
    - apply list_elem_of_singleton in Hin. done. }
  assert (frames = Mar143.read_sequence
                     (default ∅ (Mar143.dirs w2 !! "temp_frames"))) as ->.
  { destruct (appends_collect disk
      (λ ev, ∀ o f frames, ev ≠ Mar143.ffmpeg_run o f frames)
      (completion_order fd) "temp_frames" (List.length layer0)
      bl fl ba fa cb ltac:(done) ltac:(done) 0
      (Mar143.os_makedirs "temp_frames" w).2) as (evs & Htrace2 & Hevs).
    rewrite Hcollect in Htrace2. cbn [snd] in Htrace2.
    rewrite Htrace2, Htrace1 in Hin.
    apply elem_of_app in Hin as [Hin|Hin].
    - exfalso. apply elem_of_cons in Hin as [?|Hin]; [done|].
      rewrite Forall_forall in Hevs. by apply (Hevs _ Hin o f frames).
    - apply elem_of_cons in Hin as [Heq|Hin]; [by inversion Heq|].
      apply list_elem_of_singleton in Hin. done. }
  split; [apply read_sequence_ascending|].
  intros layer0' i Hhead Hi.
  assert (layer0' = layer0) as ->.
  { unfold index in H0. rewrite Hhead in H0. congruence. }
  set (n := List.length layer0) in *.
  assert (∀ layer, layer ∈ image_paths → n ≤ List.length layer) as Hlong.
  { intros layer Hlayer. destruct (decide (n ≤ List.length layer)); [done|].
    rewrite (prepare_frame_data_short image_paths n layer) in Hprep; [done|done|lia]. }
  pose proof (prepare_frame_data_indices _ _ _ Hprep) as Hindices.
  rewrite (prepare_frame_data_ok _ _ Hlong) in Hprep. inversion Hprep as [Hfd].
  destruct (os_makedirs_creates "temp_frames" w) as [files1 Hdir1].
  destruct (collect_files _ _ _ _ _ _ _ _ _ _ _ _ Hcollect Hdir1)
    as (files2 & Hdir2 & _ & Hwritten).
  rewrite Hdir2. cbn [default].
  assert (NoDup (completion_order fd).*1) as Hnodup.
  { rewrite (Hperm fd), Hindices. apply NoDup_seq. }
  assert (∀ j, j < n →
            ∃ merged,
              Mar143.composite disk None 0
                ((λ layer, default "" (layer !! j)) <$> image_paths) bl fl ba fa
                = Ok (Some merged) ∧
              files2 !! Mar143.frame_name j = Some merged) as Hframes.
  { intros j Hj. apply (Hwritten Hnodup). rewrite (Hperm fd), <- Hfd.
    apply list_elem_of_fmap. exists j. split; [done|]. apply elem_of_seq. lia. }
  destruct (Hframes i Hi) as (merged & Hmerged & Hfile).
  exists merged. split; [|done].
  apply (read_sequence_lookup files2 n); [|done|done].
  intros j Hj. destruct (Hframes j Hj) as (m & _ & Hm). eauto.
Qed.
End Ordering.

Lemma encoder_reads_frames_in_index_order_witness :
  ∃ frames,
    Mar143.ffmpeg_run "out.mp4" 30 frames ∈
      Mar143.trace
        (Mar143.merge_layers sample_disk reverse_completion sample_ffmpeg
           [["a0.png"; "a1.png"]; ["b0.png"; "b1.png"]] "out.mp4" 30 0 0
           [] [] true empty_world).2 ∧
    Mar143.strictly_ascending frames.*1.
Proof.
  assert (∀ jobs, reverse_completion jobs ≡ₚ jobs) as Hperm.
  { intros jobs. unfold reverse_completion. symmetry. apply Permutation_rev. }
  eexists. split.
  - vm_compute. do 5 right. left.
  - refine (proj1 (@encoder_reads_frames_in_index_order SymPillow sample_disk
        reverse_completion sample_ffmpeg Hperm
        [["a0.png"; "a1.png"]; ["b0.png"; "b1.png"]] "out.mp4" 30%Z 0%Z 0%Z
        [] [] true empty_world "out.mp4" 30%Z _ _ _)).
    + reflexivity.
    + vm_compute. do 5 right. left.
Defined.

(** The pool finishing in reverse order, on a directory that already
    holds old frames: frame 0 is overwritten, frame 2 is read after the
    new ones. *)
Example reverse_completion_on_stale_directory :
  Mar143.merge_layers sample_disk reverse_completion sample_ffmpeg
    [["a0.png"; "a1.png"]; ["b0.png"; "b1.png"]] "out.mp4" 30 0 0
    [] [] false stale_world =
  (Ok tt,
   Mar143.World ∅
     [Mar143.makedirs "temp_frames";
      Mar143.saved "temp_frames" "frame_00001.png";
      Mar143.saved "temp_frames" "frame_00000.png";
      Mar143.ffmpeg_run "out.mp4" 30
        [(0, Over (Decoded "a0.png" (4, 4)%Z) (Decoded "b0.png" (4, 4)%Z));
         (1, Over (Decoded "a1.png" (4, 4)%Z) (Decoded "b1.png" (4, 4)%Z));
         (2, Decoded "old2.png" (4, 4)%Z)];
      Mar143.rmtree "temp_frames"]).
Proof. vm_compute. reflexivity. Qed.

(** ** The staging directory from [os.makedirs] to [shutil.rmtree] *)

Section Mar143FSFacts.
Context `{Pillow}.
Variable disk : string → result image.
Variable completion_order : list (nat * list string) → list (nat * list string).
Variable ffmpeg_exit : string → Z → list (nat * image) → Z.
Variable rmtree_leaves :
  string → gmap string image → option (gmap string image).

Local Abbreviation try_block :=
  (Mar143FS.try_block disk completion_order ffmpeg_exit).
Local Abbreviation merge_layers_fs :=
  (Mar143FS.merge_layers disk completion_order ffmpeg_exit rmtree_leaves).

Lemma keeps_ret {A} dir (a : A) : Mar143FS.keeps_directory dir (ret a).
Proof. by intros w. Qed.

Lemma keeps_raise {A} dir e : Mar143FS.keeps_directory (A := A) dir (raise e).
Proof. by intros w. Qed.

Lemma keeps_lift {A} dir (r : result A) : Mar143FS.keeps_directory dir (lift r).
Proof. by intros w. Qed.

Lemma keeps_get dir : Mar143FS.keeps_directory dir get.
Proof. by intros w. Qed.

Lemma keeps_emit dir e : Mar143FS.keeps_directory dir (Mar143.emit e).
Proof. by intros w. Qed.

Lemma keeps_bind {A B} dir (c : M Mar143.world A) (k : A → M Mar143.world B) :
  Mar143FS.keeps_directory dir c → (∀ a, Mar143FS.keeps_directory dir (k a)) →
  Mar143FS.keeps_directory dir (bind c k).
Proof.
  intros Hc Hk w Hdir. specialize (Hc w Hdir). unfold bind.
  destruct (c w) as [[a|e] w1]; cbn in *; [by apply Hk|done].
Qed.

Lemma keeps_save dir temp_dir name im :
  Mar143FS.keeps_directory dir (Mar143.save temp_dir name im).
Proof.
  unfold Mar143.save. apply keeps_bind; [apply keeps_get|]. intros w0.
  destruct (Mar143.dirs w0 !! temp_dir); [|apply keeps_raise].
  apply keeps_bind; [|intros _; apply keeps_emit].
  intros w Hdir. cbn. destruct (decide (temp_dir = dir)) as [->|Hne].
  - by rewrite lookup_insert_eq.
  - by rewrite lookup_insert_ne.
Qed.

Lemma keeps_process_frame dir job temp_dir bl fl ba fa :
  Mar143FS.keeps_directory dir (Mar143.process_frame disk job temp_dir bl fl ba fa).
Proof.
  destruct job as [frame_index layer_paths]. unfold Mar143.process_frame.
  apply keeps_bind; [apply keeps_lift|]. intros [merged|]; [|apply keeps_raise].
  apply keeps_bind; [apply keeps_save|]. intros _. apply keeps_ret.
Qed.

Lemma keeps_collect dir completed temp_dir n bl fl ba fa cb :
  ∀ i, Mar143FS.keeps_directory dir
         (Mar143.collect disk i completed temp_dir n bl fl ba fa cb).
Proof.
  induction completed as [|job rest IHrest]; intros i.
  - apply keeps_ret.
  - cbn. apply keeps_bind; [apply keeps_process_frame|]. intros _.
    apply keeps_bind; [|intros _; apply IHrest].
    destruct cb; [apply keeps_emit|apply keeps_ret].
Qed.

Lemma keeps_run_ffmpeg dir temp_dir output_video fps :
  Mar143FS.keeps_directory dir
    (Mar143.run_ffmpeg ffmpeg_exit temp_dir output_video fps).
Proof.
  unfold Mar143.run_ffmpeg. apply keeps_bind; [apply keeps_get|].
  intros w0. apply keeps_bind; [apply keeps_emit|]. intros _.
  destruct (_ =? _)%Z; [apply keeps_ret|apply keeps_raise].
Qed.

Lemma try_block_keeps dir image_paths output_video fps ba fa bl fl cb :
  Mar143FS.keeps_directory dir
    (try_block image_paths output_video fps ba fa bl fl cb).
Proof.
  unfold Mar143FS.try_block.
  apply keeps_bind; [apply keeps_lift|]. intros layer0.
  apply keeps_bind; [apply keeps_lift|]. intros frame_data.
  apply keeps_bind; [apply keeps_collect|]. intros _.
  apply keeps_run_ffmpeg.
Qed.

(** Where the path of the staging directory is not taken by a file and
    [shutil.rmtree] removes what it is given, the run is the one of
    [Mar143.merge_layers]. *)
Lemma merge_layers_fs_plain image_paths output_video fps ba fa bl fl cb fs :
  "temp_frames" ∉ Mar143FS.regular_files fs →
  (∀ files, rmtree_leaves "temp_frames" files = None) →
  merge_layers_fs image_paths output_video fps ba fa bl fl cb fs =
  Mar143FS.on_world
    (Mar143.merge_layers disk completion_order ffmpeg_exit
       image_paths output_video fps ba fa bl fl cb) fs.
Proof.
  intros Hfile Hremoves. rewrite merge_layers_try_block.
  unfold Mar143FS.merge_layers, Mar143FS.os_makedirs, Mar143FS.shutil_rmtree,
    Mar143FS.on_world, try_finally, bind, get.
  rewrite (bool_decide_eq_false_2 (_ ∈ Mar143FS.regular_files fs)) by done.
  assert ((match Mar143.dirs (Mar143FS.world fs) !! "temp_frames" with
           | Some _ => Mar143FS.on_world (Mar143.os_makedirs "temp_frames")
           | None => Mar143FS.on_world (Mar143.os_makedirs "temp_frames")
           end) = Mar143FS.on_world (Mar143.os_makedirs "temp_frames")) as Hmk.
  { by destruct (_ !! _). }
  unfold Mar143FS.on_world in Hmk. rewrite Hmk. clear Hmk.
  destruct (Mar143.os_makedirs "temp_frames" (Mar143FS.world fs)) as [[[]|e] w1];
    [|reflexivity].
  cbn [Mar143FS.world Mar143FS.regular_files].
  destruct (Mar143FS.try_block _ _ _ _ _ _ _ _ _ _ _ w1) as [r w2].
  cbn [Mar143FS.world Mar143FS.regular_files].
  unfold Mar143.shutil_rmtree, Mar143.emit, bind, modify. cbn.
  do 3 f_equal. unfold Mar143FS.after_rmtree.
  destruct (Mar143.dirs w2 !! "temp_frames") as [files|] eqn:Hdir.
  - by rewrite Hremoves.
  - symmetry. by apply delete_id.
Qed.

(** C7, amended.  When something that is not a directory is at
    the path of the staging directory, [os.makedirs] raises
    [FileExistsError] before the [try] statement and the run ends there:
    nothing is created, processed or removed.  On every other run,
    whatever its outcome, the staging directory exists when the [try]
    block starts (it was created, or it was there and keeps its files)
    and still exists when the block ends, normally or by an exception;
    everything the run does to frames and to the encoder lies between the
    two; [shutil.rmtree] is called last, and what the run returns or
    propagates is the outcome of the [try] block.  The directory is gone
    then if [shutil.rmtree] could remove it; if it could not, the error is
    ignored and the directory survives with the files that are left. *)
Theorem staging_directory_lifecycle
    image_paths output_video fps ba fa bl fl cb fs :
  let temp_dir := "temp_frames" in
  let w := Mar143FS.world fs in
  let run := merge_layers_fs image_paths output_video fps ba fa bl fl cb fs in
  (Mar143.dirs w !! temp_dir = None → temp_dir ∈ Mar143FS.regular_files fs →
   run = (Raise "FileExistsError", fs)) ∧
  (is_Some (Mar143.dirs w !! temp_dir) ∨ temp_dir ∉ Mar143FS.regular_files fs →
   ∃ w1 w2 mid files,
     Mar143.dirs w1 =
       <[temp_dir := default ∅ (Mar143.dirs w !! temp_dir)]> (Mar143.dirs w) ∧
     Mar143.trace w1 = Mar143.trace w ++ [Mar143.makedirs temp_dir] ∧
     try_block image_paths output_video fps ba fa bl fl cb w1 = (run.1, w2) ∧
     Mar143.dirs w2 !! temp_dir = Some files ∧
     Mar143.trace w2 = Mar143.trace w1 ++ mid ∧
     Forall Mar143.during_processing mid ∧
     Mar143.trace (Mar143FS.world run.2) =
       Mar143.trace w2 ++ [Mar143.rmtree temp_dir] ∧
     Mar143.dirs (Mar143FS.world run.2) =
       match rmtree_leaves temp_dir files with
       | None => delete temp_dir (Mar143.dirs w2)
       | Some rest => <[temp_dir := rest]> (Mar143.dirs w2)
       end ∧
     Mar143FS.regular_files run.2 = Mar143FS.regular_files fs).
Proof.
  intros temp_dir w run. split.
  - intros Hfree Hfile. unfold run, Mar143FS.merge_layers, Mar143FS.os_makedirs,
      bind, get, raise.
    fold temp_dir. fold w. rewrite Hfree.
    by rewrite bool_decide_eq_true_2.
  - intros Hcan.
    set (w1 := (Mar143.os_makedirs temp_dir w).2).
    assert (Mar143FS.os_makedirs temp_dir fs =
            (Ok tt, Mar143FS.FileSystem w1 (Mar143FS.regular_files fs))) as Hmk.
    { unfold Mar143FS.os_makedirs, bind, get. fold w.
      destruct (Mar143.dirs w !! temp_dir) as [files|] eqn:Hdir; [reflexivity|].
      destruct Hcan as [[? ?]|Hcan]; [done|].
      by rewrite bool_decide_eq_false_2. }
    pose proof (try_block_appends disk completion_order ffmpeg_exit
                  image_paths output_video fps ba fa bl fl cb w1)
      as (mid & Hmid & Hduring).
    pose proof (try_block_keeps temp_dir image_paths output_video fps
                  ba fa bl fl cb w1 (os_makedirs_creates temp_dir w))
      as [files Hfiles].
    destruct (try_block image_paths output_video fps ba fa bl fl cb w1)
      as [r w2] eqn:Hblock.
    cbn [snd] in Hmid, Hfiles.
    assert (run =
            (r, Mar143FS.FileSystem
                  (Mar143.World
                     (Mar143FS.after_rmtree rmtree_leaves temp_dir (Mar143.dirs w2))
                     (Mar143.trace w2 ++ [Mar143.rmtree temp_dir]))
                  (Mar143FS.regular_files fs))) as Hrun.
    { unfold run, Mar143FS.merge_layers. fold temp_dir.
      rewrite (bind_ok _ _ fs _ tt Hmk).
      unfold try_finally, Mar143FS.on_world at 1.
      cbn [Mar143FS.world Mar143FS.regular_files].
      rewrite Hblock. reflexivity. }
    exists w1, w2, mid, files. rewrite Hrun.
    cbn [fst snd Mar143FS.world Mar143.dirs Mar143.trace Mar143FS.regular_files].
    repeat split; try done.
    + unfold w1. cbn. destruct (Mar143.dirs w !! temp_dir) as [files0|] eqn:Hdir.
      * cbn. by rewrite insert_id.
      * reflexivity.
    + unfold Mar143FS.after_rmtree. by rewrite Hfiles.
Qed.
End Mar143FSFacts.

Lemma staging_directory_lifecycle_witness :
  Mar143.dirs
    (Mar143FS.world
       (Mar143FS.merge_layers sample_disk reverse_completion sample_ffmpeg
          rmtree_removes [["a0.png"; "a1.png"]] "out.mp4" 30 0 0 [] [] true
          free_fs).2)
    !! "temp_frames" = None.
Proof.
  destruct (@staging_directory_lifecycle SymPillow sample_disk reverse_completion
              sample_ffmpeg rmtree_removes [["a0.png"; "a1.png"]] "out.mp4"
              30%Z 0%Z 0%Z [] [] true free_fs) as [_ Hlife].
  destruct Hlife as (w1 & w2 & mid & files & _ & _ & _ & _ & _ & _ & _ & Hdirs & _).
  - right. apply not_elem_of_empty.
  - rewrite Hdirs. apply lookup_delete_eq.
Defined.

(** C7, refuted as stated: when "temp_frames" is a symbolic link to
    a directory, a run that succeeds leaves the directory behind with the
    frame it staged: [shutil.rmtree] refuses the link and its error is
    ignored.  When "temp_frames" is a regular file, [os.makedirs] raises
    before the [try] statement: no directory is created and
    [shutil.rmtree] is never called. *)
Lemma staging_directory_survives_as_link :
  (let run := Mar143FS.merge_layers sample_disk reverse_completion sample_ffmpeg
                rmtree_refuses_link [["a0.png"]] "out.mp4" 30 0 0 [] [] true
                linked_fs in
   run.1 = Ok tt ∧
   Mar143.dirs (Mar143FS.world run.2) !! "temp_frames" =
     Some {[ "frame_00000.png" := Decoded "a0.png" (4, 4)%Z ]}) ∧
  Mar143FS.merge_layers sample_disk reverse_completion sample_ffmpeg
    rmtree_removes [["a0.png"]] "out.mp4" 30 0 0 [] [] true blocked_fs
  = (Raise "FileExistsError", blocked_fs).
Proof.
  split; [split|]; vm_compute; reflexivity.
Qed.

(** * Further properties of the code

    ** Compositing one frame (mar143.py, [process_frame]) *)

Section CompositeFacts.
Context `{Pillow}.
Variable disk : string → result image.

(** Compositing a stack of layers in two parts. *)
Lemma composite_app (xs ys : list string) (bl fl : list Z) (ba fa : Z) :
  ∀ merged layer_index,
    Mar143.composite disk merged layer_index (xs ++ ys) bl fl ba fa =
    (below ← Mar143.composite disk merged layer_index xs bl fl ba fa;
     Mar143.composite disk below (layer_index + List.length xs) ys bl fl ba fa).
Proof.
  induction xs as [|path rest IHrest]; intros merged layer_index.
  - cbn. by rewrite Nat.add_0_r.
  - cbn. destruct (disk path) as [frame|e]; cbn; [|reflexivity].
    destruct (apply_effects _ _ _ _ _ frame) as [frame'|e]; cbn; [|reflexivity].
    destruct (match merged with
              | Some m => alpha_composite m frame'
              | None => Ok frame'
              end) as [m'|e]; cbn; [|reflexivity].
    rewrite IHrest. by replace (S layer_index + List.length rest)
                         with (layer_index + S (List.length rest)) by lia.
Qed.

(** X1. The top layer is composited over the result of all the
    layers below it: compositing [paths ++ [top]] is compositing [paths],
    then decoding [top], applying the effects selected for its layer index
    and alpha-compositing it over what the lower layers gave.  A failure
    of a lower layer comes first. *)
Theorem composite_top_layer_over_lower_layers
    (paths : list string) (top : string) (bl fl : list Z) (ba fa : Z)
    (merged : option image) (layer_index : nat) :
  Mar143.composite disk merged layer_index (paths ++ [top]) bl fl ba fa =
  (below ← Mar143.composite disk merged layer_index paths bl fl ba fa;
   frame ← disk top;
   frame ← apply_effects (layer_index + List.length paths) bl fl ba fa frame;
   merged ← match below with
            | Some below => alpha_composite below frame
            | None => Ok frame
            end;
   Ok (Some merged)).
Proof.
  rewrite composite_app.
  destruct (Mar143.composite disk merged layer_index paths bl fl ba fa)
    as [below|e]; cbn; [|reflexivity].
  destruct (disk top) as [frame|e]; cbn; [|reflexivity].
  destruct (apply_effects _ _ _ _ _ frame) as [frame'|e]; cbn; [|reflexivity].
  by destruct (match below with
               | Some m => alpha_composite m frame'
               | None => Ok frame'
               end).
Qed.

Lemma composite_ok_from (sz : Z * Z) (paths : list string) (bl fl : list Z)
    (ba fa : Z) :
  amounts_accepted ba fa →
  (∀ p, p ∈ paths → ∃ im, disk p = Ok im ∧ image_size im = sz) →
  ∀ m layer_index, image_size m = sz →
    ∃ merged,
      Mar143.composite disk (Some m) layer_index paths bl fl ba fa
        = Ok (Some merged) ∧
      image_size merged = sz.
Proof.
  intros Hacc.
  induction paths as [|path rest IHrest]; intros Hdecode m layer_index Hm.
  - by exists m.
  - destruct (Hdecode path) as (im & Him & Hsz); [left|].
    destruct (apply_effects_ok layer_index bl fl ba fa im Hacc)
      as (im' & Heff & Hsz').
    destruct (alpha_composite_match m im') as (m' & Hover & Hm'); [congruence|].
    cbn. rewrite Him. cbn. rewrite Heff. cbn. rewrite Hover. cbn.
    apply IHrest; [|congruence]. intros p Hp. apply Hdecode. by right.
Qed.

Lemma composite_same_size_ok (sz : Z * Z) (paths : list string)
    (bl fl : list Z) (ba fa : Z) :
  amounts_accepted ba fa →
  paths ≠ [] →
  (∀ p, p ∈ paths → ∃ im, disk p = Ok im ∧ image_size im = sz) →
  ∃ merged,
    Mar143.composite disk None 0 paths bl fl ba fa = Ok (Some merged) ∧
    image_size merged = sz.
Proof.
  intros Hacc Hne Hdecode. destruct paths as [|path rest]; [done|].
  destruct (Hdecode path) as (im & Him & Hsz); [left|].
  destruct (apply_effects_ok 0 bl fl ba fa im Hacc) as (im' & Heff & Hsz').
  cbn. rewrite Him. cbn. rewrite Heff. cbn.
  apply composite_ok_from; [done| |congruence].
  intros p Hp. apply Hdecode. by right.
Qed.

(** X2. When every layer path decodes, all the decoded images
    have one size and the library accepts the blur radius and the fog
    opacity (as far as the gates let them through), compositing the frame
    succeeds and the merged image has that size. *)
Theorem composite_same_size_succeeds (sz : Z * Z) (paths : list string)
    (bl fl : list Z) (ba fa : Z) :
  amounts_accepted ba fa →
  paths ≠ [] →
  (∀ p, p ∈ paths → ∃ im, disk p = Ok im ∧ image_size im = sz) →
  ∃ merged,
    Mar143.composite disk None 0 paths bl fl ba fa = Ok (Some merged) ∧
    image_size merged = sz.
Proof. apply composite_same_size_ok. Qed.

(** X3. The first layer that goes wrong decides the error of the
    frame.  With amounts that the library accepts and the layers below
    decoding to images of one size: a path that cannot be opened raises
    the error of [Image.open]; an image of another size raises the
    [ValueError] of [Image.alpha_composite].  The layers above are not
    looked at. *)
Theorem composite_first_bad_layer (sz : Z * Z) (good rest : list string)
    (bad : string) (bl fl : list Z) (ba fa : Z) :
  amounts_accepted ba fa →
  (∀ p, p ∈ good → ∃ im, disk p = Ok im ∧ image_size im = sz) →
  (∀ e, disk bad = Raise e →
     Mar143.composite disk None 0 (good ++ bad :: rest) bl fl ba fa = Raise e) ∧
  (∀ im, disk bad = Ok im → image_size im ≠ sz → good ≠ [] →
     Mar143.composite disk None 0 (good ++ bad :: rest) bl fl ba fa
       = Raise "ValueError").
Proof.
  intros Hacc Hdecode. split.
  - intros e Hbad. rewrite composite_app.
    destruct good as [|g good'].
    + cbn. by rewrite Hbad.
    + destruct (composite_same_size_ok sz (g :: good') bl fl ba fa)
        as (m & -> & _); [done|done|done|].
      cbn. by rewrite Hbad.
  - intros im Hbad Hsz Hne. rewrite composite_app.
    destruct (composite_same_size_ok sz good bl fl ba fa)
      as (m & -> & Hm); [done|done|done|].
    cbn. rewrite Hbad. cbn.
    destruct (apply_effects_ok (List.length good) bl fl ba fa im Hacc)
      as (im' & -> & Hsz').
    cbn. rewrite alpha_composite_mismatch; [reflexivity|congruence].
Qed.

(** X4. [process_frame] either stages exactly one file, the merged
    frame under the name of its index, and returns the index, or raises
    and leaves the directory and the trace as they were. *)
Theorem process_frame_effect (frame_index : nat) (layer_paths : list string)
    (temp_dir : string) (bl fl : list Z) (ba fa : Z) (w : Mar143.world) :
  match Mar143.process_frame disk (frame_index, layer_paths) temp_dir
          bl fl ba fa w with
  | (Ok k, w') =>
      k = frame_index ∧
      ∃ merged files,
        Mar143.composite disk None 0 layer_paths bl fl ba fa = Ok (Some merged) ∧
        Mar143.dirs w !! temp_dir = Some files ∧
        w' = Mar143.World
               (<[temp_dir := <[Mar143.frame_name frame_index := merged]> files]>
                  (Mar143.dirs w))
               (Mar143.trace w ++
                [Mar143.saved temp_dir (Mar143.frame_name frame_index)])
  | (Raise e, w') => w' = w
  end.
Proof.
  unfold Mar143.process_frame, bind, lift.
  destruct (Mar143.composite disk None 0 layer_paths bl fl ba fa)
    as [[merged|]|e]; [|reflexivity|reflexivity].
  unfold Mar143.save, bind, get, modify, Mar143.emit, modify, ret.
  destruct (Mar143.dirs w !! temp_dir) as [files|] eqn:Hdir; cbn.
  - split; [reflexivity|]. by exists merged, files.
  - reflexivity.
Qed.
End CompositeFacts.

Lemma composite_same_size_succeeds_witness :
  ∃ merged,
    Mar143.composite sample_disk None 0 ["bg.png"; "fg.png"] [1%Z] [] 3 0
      = Ok (Some merged) ∧
    sym_size merged = (4, 4)%Z.
Proof.
  apply (@composite_same_size_succeeds SymPillow sample_disk (4, 4)%Z
           ["bg.png"; "fg.png"] [1%Z] [] 3%Z 0%Z).
  - apply sample_amounts_accepted; lia.
  - discriminate.
  - intros p Hp. exists (Decoded p (4, 4)%Z). split; [|reflexivity].
    repeat (apply elem_of_cons in Hp as [->|Hp]; [reflexivity|]).
    by apply elem_of_nil in Hp.
Defined.

Lemma composite_first_bad_layer_witness :
  Mar143.composite sample_disk None 0 ["bg.png"; "missing.png"; "fg.png"]
    [0%Z] [] 3 0 = Raise "FileNotFoundError".
Proof.
  refine (proj1 (@composite_first_bad_layer SymPillow sample_disk (4, 4)%Z
                   ["bg.png"] ["fg.png"] "missing.png" [0%Z] [] 3%Z 0%Z _ _)
            "FileNotFoundError" _).
  - apply sample_amounts_accepted; lia.
  - intros p Hp. exists (Decoded p (4, 4)%Z). split; [|reflexivity].
    apply list_elem_of_singleton in Hp as ->. reflexivity.
  - reflexivity.
Defined.

(** X5. Staging file names: the number can be read back from
    [f"{n:05d}"], which has at least five characters, and distinct frame
    indices get distinct file names, so that no job overwrites the frame of
    another. *)
Theorem frame_names_distinct (n m : nat) :
  Mar143.read_decimal (Mar143.format_05d n) = Some n ∧
  5 ≤ String.length (Mar143.format_05d n) ∧
  (n ≠ m → Mar143.frame_name n ≠ Mar143.frame_name m).
Proof.
  split; [apply read_format_05d|]. split.
  - unfold Mar143.format_05d. rewrite string_length_app.
    assert (∀ k, String.length (Mar143.zeros k) = k) as ->.
    { induction k as [|k IHk]; [done|]. simpl. by rewrite IHk. }
    lia.
  - intros Hne Heq. by apply (inj Mar143.frame_name) in Heq.
Qed.

Lemma frame_names_distinct_witness :
  Mar143.frame_name 3 ≠ Mar143.frame_name 30.
Proof. apply (frame_names_distinct 3 30). lia. Defined.

(** ** Runs of mar143.py's [merge_layers] *)

Section Mar143MoreRuns.
Context `{Pillow}.
Variable disk : string → result image.
Variable completion_order : list (nat * list string) → list (nat * list string).
Variable ffmpeg_exit : string → Z → list (nat * image) → Z.

Abbreviation run_143 := (Mar143.merge_layers disk completion_order ffmpeg_exit).

Lemma collect_raises temp_dir n bl fl ba fa cb (completed : list (nat * list string)) :
  ∀ i w,
    (∃ job, job ∈ completed ∧
            ∀ m, Mar143.composite disk None 0 job.2 bl fl ba fa ≠ Ok (Some m)) →
    ∃ e, (Mar143.collect disk i completed temp_dir n bl fl ba fa cb w).1 = Raise e.
Proof.
  induction completed as [|[idx paths] rest IHrest]; intros i w (job & Hin & Hfail).
  - by apply elem_of_nil in Hin.
  - cbn [Mar143.collect]. unfold bind at 1.
    destruct (Mar143.process_frame disk (idx, paths) temp_dir bl fl ba fa w)
      as [[k|e] w1] eqn:Hjob; [|by exists e].
    apply process_frame_ok_inv in Hjob as (merged & files & Hmerged & _).
    apply elem_of_cons in Hin as [->|Hin]; [by destruct (Hfail merged)|].
    unfold bind at 1.
    destruct cb; cbn; apply IHrest; by exists job.
Qed.


(** A path that cannot be opened makes the frame fail. *)
Lemma composite_undecodable (paths : list string) (p : string) e bl fl ba fa :
  p ∈ paths → disk p = Raise e →
  ∀ m, Mar143.composite disk None 0 paths bl fl ba fa ≠ Ok (Some m).
Proof.
  intros Hin Hbad m. apply list_elem_of_split in Hin as (xs & ys & ->).
  rewrite composite_app.
  destruct (Mar143.composite disk None 0 xs bl fl ba fa) as [below|e']; cbn;
    [|done].
  by rewrite Hbad.
Qed.

(** Once every job has completed, the run is the run of ffmpeg on what
    the staging directory holds. *)
Lemma merge_layers_143_encoder image_paths output_video fps ba fa bl fl cb w
    layer0 frame_data w2 :
  index image_paths 0 = Ok layer0 →
  Mar143.prepare_frame_data image_paths (List.length layer0) = Ok frame_data →
  Mar143.collect disk 0 (completion_order frame_data) "temp_frames"
    (List.length layer0) bl fl ba fa cb (Mar143.os_makedirs "temp_frames" w).2
    = (Ok tt, w2) →
  let frames :=
    Mar143.read_sequence (default ∅ (Mar143.dirs w2 !! "temp_frames")) in
  run_143 image_paths output_video fps ba fa bl fl cb w =
  (if (ffmpeg_exit output_video fps frames =? 0)%Z then Ok tt
   else Raise "CalledProcessError",
   Mar143.World (delete "temp_frames" (Mar143.dirs w2))
     (Mar143.trace w2 ++
      [Mar143.ffmpeg_run output_video fps frames; Mar143.rmtree "temp_frames"])).
Proof.
  intros H0 Hprep Hcollect frames. unfold Mar143.merge_layers.
  rewrite (bind_ok _ _ w (Mar143.os_makedirs "temp_frames" w).2 tt) by reflexivity.
  rewrite try_finally_rmtree. rewrite H0.
  rewrite (bind_ok _ _ _ (Mar143.os_makedirs "temp_frames" w).2 layer0)
    by reflexivity.
  cbv beta zeta. rewrite Hprep.
  rewrite (bind_ok _ _ _ (Mar143.os_makedirs "temp_frames" w).2 frame_data)
    by reflexivity.
  rewrite (bind_ok _ _ _ w2 tt Hcollect).
  unfold Mar143.run_ffmpeg, bind, get, Mar143.emit, modify. cbn. fold frames.
  destruct (_ =? _)%Z; cbn; by rewrite <- app_assoc.
Qed.

(** The only [ffmpeg_run] event of a run is the one of its encoder step. *)
Lemma ffmpeg_run_inv image_paths output_video fps ba fa bl fl cb w o f frames :
  Mar143.trace w = [] →
  Mar143.ffmpeg_run o f frames ∈
    Mar143.trace (run_143 image_paths output_video fps ba fa bl fl cb w).2 →
  ∃ layer0 frame_data w2,
    index image_paths 0 = Ok layer0 ∧
    Mar143.prepare_frame_data image_paths (List.length layer0) = Ok frame_data ∧
    Mar143.collect disk 0 (completion_order frame_data) "temp_frames"
      (List.length layer0) bl fl ba fa cb (Mar143.os_makedirs "temp_frames" w).2
      = (Ok tt, w2) ∧
    o = output_video ∧ f = fps ∧
    frames = Mar143.read_sequence (default ∅ (Mar143.dirs w2 !! "temp_frames")).
Proof.
  intros Hempty Hin.
  assert (Mar143.trace (Mar143.os_makedirs "temp_frames" w).2 =
          [Mar143.makedirs "temp_frames"]) as Htrace1.
  { cbn. by rewrite Hempty. }
  destruct (merge_layers_143_run disk completion_order ffmpeg_exit
              image_paths output_video fps ba fa bl fl cb w)
    as [(e & evs & _ & Htrace & Hevs)
       |(layer0 & fd & w2 & H0 & Hprep & Hcollect & Htrace & _)];
    rewrite Htrace in Hin.
  { exfalso. rewrite Htrace1 in Hin.
    apply elem_of_cons in Hin as [?|Hin]; [done|].
    apply elem_of_app in Hin as [Hin|Hin].
    - rewrite Forall_forall in Hevs. by apply (Hevs _ Hin o f frames).
    - apply list_elem_of_singleton in Hin. done. }
  exists layer0, fd, w2. split; [done|]. split; [done|]. split; [done|].
  destruct (appends_collect disk
    (λ ev, ∀ o f frames, ev ≠ Mar143.ffmpeg_run o f frames)
    (completion_order fd) "temp_frames" (List.length layer0)
    bl fl ba fa cb ltac:(done) ltac:(done) 0
    (Mar143.os_makedirs "temp_frames" w).2) as (evs & Htrace2 & Hevs).
  rewrite Hcollect in Htrace2. cbn [snd] in Htrace2.
  rewrite Htrace2, Htrace1 in Hin.
  apply elem_of_app in Hin as [Hin|Hin].
  - exfalso. apply elem_of_cons in Hin as [?|Hin]; [done|].
    rewrite Forall_forall in Hevs. by apply (Hevs _ Hin o f frames).
  - apply elem_of_cons in Hin as [Heq|Hin]; [by inversion Heq|].
    apply list_elem_of_singleton in Hin. done.
Qed.

(** X6. If any image of any frame cannot be opened, [merge_layers]
    raises and ffmpeg is never started: no video is encoded from a partial
    set of frames. *)
Theorem undecodable_image_prevents_encoding
    image_paths output_video fps ba fa bl fl cb w layer0 layer i p e0 :
  (∀ jobs, completion_order jobs ≡ₚ jobs) →
  Mar143.trace w = [] →
  image_paths !! 0 = Some layer0 →
  layer ∈ image_paths → i < List.length layer0 → layer !! i = Some p →
  disk p = Raise e0 →
  (∃ e, (Mar143.merge_layers disk completion_order ffmpeg_exit
         image_paths output_video fps ba fa bl fl cb w).1 = Raise e) ∧
  ∀ o f frames,
    Mar143.ffmpeg_run o f frames ∉
      Mar143.trace (Mar143.merge_layers disk completion_order ffmpeg_exit
         image_paths output_video fps ba fa bl fl cb w).2.
Proof.
  intros Hperm Hempty H0 Hlayer Hi Hp Hbad.
  assert (∀ layer0' fd w2,
            index image_paths 0 = Ok layer0' →
            Mar143.prepare_frame_data image_paths (List.length layer0') = Ok fd →
            Mar143.collect disk 0 (completion_order fd) "temp_frames"
              (List.length layer0') bl fl ba fa cb
              (Mar143.os_makedirs "temp_frames" w).2 = (Ok tt, w2) →
            False) as Hnever.
  { intros layer0' fd w2 H0' Hprep Hcollect.
    assert (layer0' = layer0) as ->.
    { unfold index in H0'. rewrite H0 in H0'. congruence. }
    assert (∀ l, l ∈ image_paths → List.length layer0 ≤ List.length l) as Hlong.
    { intros l Hl. destruct (decide (List.length layer0 ≤ List.length l)); [done|].
      rewrite (prepare_frame_data_short image_paths _ l) in Hprep; [done|done|lia]. }
    rewrite (prepare_frame_data_ok _ _ Hlong) in Hprep. inversion Hprep as [Hfd].
    destruct (collect_raises "temp_frames" (List.length layer0) bl fl ba fa cb
                (completion_order fd) 0 (Mar143.os_makedirs "temp_frames" w).2)
      as (e & Hraise); [|by rewrite Hcollect in Hraise].
    exists (i, (λ l, default "" (l !! i)) <$> image_paths). split.
    - rewrite (Hperm fd), <- Hfd. apply list_elem_of_fmap.
      exists i. split; [done|]. apply elem_of_seq. lia.
    - apply (composite_undecodable _ p e0); [|done].
      apply list_elem_of_fmap. exists layer. by rewrite Hp. }
  split.
  - destruct (merge_layers_143_run disk completion_order ffmpeg_exit
                image_paths output_video fps ba fa bl fl cb w)
      as [(e & evs & Hraise & _)|(layer0' & fd & w2 & H0' & Hprep & Hcollect & _)].
    + by exists e.
    + by destruct (Hnever layer0' fd w2).
  - intros o f frames Hin.
    apply (ffmpeg_run_inv _ _ _ _ _ _ _ _ _ _ _ _ Hempty) in Hin
      as (layer0' & fd & w2 & H0' & Hprep & Hcollect & _).
    by destruct (Hnever layer0' fd w2).
Qed.

(** X7. [merge_layers] returns normally exactly when ffmpeg was
    run and exited with status 0; when ffmpeg exits with another status
    the run raises [CalledProcessError]. *)
Theorem merge_layers_succeeds_iff_ffmpeg_exits_0
    image_paths output_video fps ba fa bl fl cb w :
  Mar143.trace w = [] →
  let run := Mar143.merge_layers disk completion_order ffmpeg_exit
         image_paths output_video fps ba fa bl fl cb w in
  (run.1 = Ok tt ↔
   ∃ frames, Mar143.ffmpeg_run output_video fps frames ∈ Mar143.trace run.2 ∧
             ffmpeg_exit output_video fps frames = 0%Z) ∧
  (∀ frames, Mar143.ffmpeg_run output_video fps frames ∈ Mar143.trace run.2 →
             ffmpeg_exit output_video fps frames ≠ 0%Z →
             run.1 = Raise "CalledProcessError").
Proof.
  intros Hempty run. split; [split|].
  - intros Hok.
    destruct (merge_layers_143_run disk completion_order ffmpeg_exit
                image_paths output_video fps ba fa bl fl cb w)
      as [(e & evs & Hraise & _)|(layer0 & fd & w2 & H0 & Hprep & Hcollect & _)].
    { fold run in Hraise. congruence. }
    pose proof (merge_layers_143_encoder _ output_video fps ba fa bl fl cb w
                  _ _ _ H0 Hprep Hcollect) as Hrun.
    cbv zeta in Hrun. fold run in Hrun. rewrite Hrun in Hok |- *. cbn in *.
    eexists. split; [apply elem_of_app; right; left|].
    destruct (_ =? _)%Z eqn:Hexit; [by apply Z.eqb_eq|done].
  - intros (frames & Hin & Hexit).
    apply (ffmpeg_run_inv _ _ _ _ _ _ _ _ _ _ _ _ Hempty) in Hin
      as (layer0 & fd & w2 & H0 & Hprep & Hcollect & _ & _ & ->).
    unfold run. rewrite (merge_layers_143_encoder _ output_video fps ba fa bl fl
                           cb w _ _ _ H0 Hprep Hcollect).
    cbn. by rewrite Hexit.
  - intros frames Hin Hexit.
    apply (ffmpeg_run_inv _ _ _ _ _ _ _ _ _ _ _ _ Hempty) in Hin
      as (layer0 & fd & w2 & H0 & Hprep & Hcollect & _ & _ & ->).
    unfold run. rewrite (merge_layers_143_encoder _ output_video fps ba fa bl fl
                           cb w _ _ _ H0 Hprep Hcollect).
    cbn. by apply Z.eqb_neq in Hexit as ->.
Qed.


(** X9. What the staging directory holds when all jobs have
    completed, in any order: the merged frame of each job under the name
    of its index, and every other file as it was before, the frames left
    by an earlier run included.  Other directories are untouched. *)
Theorem staging_directory_after_collect
    temp_dir n bl fl ba fa cb (completed : list (nat * list string)) i w w' files :
  NoDup completed.*1 →
  Mar143.dirs w !! temp_dir = Some files →
  Mar143.collect disk i completed temp_dir n bl fl ba fa cb w = (Ok tt, w') →
  ∃ files',
    Mar143.dirs w' !! temp_dir = Some files' ∧
    (∀ frame_index layer_paths, (frame_index, layer_paths) ∈ completed →
       ∃ merged,
         Mar143.composite disk None 0 layer_paths bl fl ba fa = Ok (Some merged) ∧
         files' !! Mar143.frame_name frame_index = Some merged) ∧
    (∀ name, name ∉ Mar143.frame_name <$> completed.*1 →
             files' !! name = files !! name) ∧
    (∀ dir, dir ≠ temp_dir → Mar143.dirs w' !! dir = Mar143.dirs w !! dir).
Proof.
  intros Hnodup Hdir Hcollect.
  destruct (collect_files disk _ _ _ _ _ _ _ _ _ _ _ _ Hcollect Hdir)
    as (files' & Hdir' & Hframe & Hwritten).
  exists files'. split; [done|]. split; [by apply Hwritten|]. split; [done|].
  clear Hdir' Hframe Hwritten Hnodup Hdir files files'.
  revert i w Hcollect.
  induction completed as [|[idx paths] others IHothers]; intros i w Hcollect dir Hne.
  - cbn in Hcollect. by inversion Hcollect.
  - cbn [Mar143.collect] in Hcollect.
    apply bind_ok_inv in Hcollect as (k & w1 & Hjob & Hcollect).
    apply bind_ok_inv in Hcollect as ([] & w2 & Hcb & Hcollect).
    apply process_frame_ok_inv in Hjob as (merged & files0 & _ & _ & Hw1).
    assert (Mar143.dirs w2 = Mar143.dirs w1) as Hw2.
    { destruct cb; by inversion Hcb. }
    rewrite (IHothers _ _ Hcollect dir Hne), Hw2, Hw1.
    by rewrite lookup_insert_ne.
Qed.
End Mar143MoreRuns.

Lemma undecodable_image_prevents_encoding_witness :
  ∃ e, (Mar143.merge_layers sample_disk reverse_completion sample_ffmpeg
          [["a0.png"; "a1.png"]; ["b0.png"; "missing.png"]] "out.mp4" 30 0 0
          [] [] true empty_world).1 = Raise e.
Proof.
  refine (proj1 (@undecodable_image_prevents_encoding SymPillow sample_disk
    reverse_completion sample_ffmpeg
    [["a0.png"; "a1.png"]; ["b0.png"; "missing.png"]] "out.mp4" 30%Z 0%Z 0%Z
    [] [] true empty_world ["a0.png"; "a1.png"] ["b0.png"; "missing.png"] 1
    "missing.png" "FileNotFoundError" _ _ _ _ _ _ _)).
  - intros jobs. unfold reverse_completion. symmetry. apply Permutation_rev.
  - reflexivity.
  - reflexivity.
  - apply elem_of_cons. right. apply elem_of_cons. left. reflexivity.
  - simpl. lia.
  - reflexivity.
  - reflexivity.
Defined.

Lemma merge_layers_succeeds_iff_ffmpeg_exits_0_witness :
  (Mar143.merge_layers sample_disk reverse_completion sample_ffmpeg
     [["a0.png"]] "out.mp4" 30 0 0 [] [] true empty_world).1 = Ok tt.
Proof.
  apply (proj1 (@merge_layers_succeeds_iff_ffmpeg_exits_0 SymPillow sample_disk
    reverse_completion sample_ffmpeg [["a0.png"]] "out.mp4" 30%Z 0%Z 0%Z
    [] [] true empty_world eq_refl)).
  eexists. split; [vm_compute; do 3 right; left|reflexivity].
Defined.


Lemma staging_directory_after_collect_witness :
  ∃ files',
    Mar143.dirs
      (Mar143.collect sample_disk 0 [(1, ["a1.png"]); (0, ["a0.png"])]
         "temp_frames" 2 [] [] 0 0 false stale_world).2 !! "temp_frames"
      = Some files' ∧
    files' !! "frame_00002.png" = Some (Decoded "old2.png" (4, 4)%Z).
Proof.
  destruct (@staging_directory_after_collect SymPillow sample_disk
    "temp_frames" 2 [] [] 0%Z 0%Z false [(1, ["a1.png"]); (0, ["a0.png"])] 0
    stale_world
    (Mar143.collect (H := SymPillow) sample_disk 0
       [(1, ["a1.png"]); (0, ["a0.png"])]
       "temp_frames" 2 [] [] 0 0 false stale_world).2
    (<[ "frame_00000.png" := Decoded "old0.png" (4, 4)%Z ]>
       {[ "frame_00002.png" := Decoded "old2.png" (4, 4)%Z ]}))
    as (files' & Hdir & _ & Hkept & _).
  - simpl. apply NoDup_cons. split.
    + intros Hin. apply list_elem_of_singleton in Hin. discriminate.
    + apply NoDup_singleton.
  - vm_compute. reflexivity.
  - vm_compute. reflexivity.
  - exists files'. split; [exact Hdir|]. rewrite Hkept; [vm_compute; reflexivity|].
    simpl. intros Hin.
    repeat (apply elem_of_cons in Hin as [Hin|Hin]; [vm_compute in Hin; discriminate|]).
    by apply elem_of_nil in Hin.
Defined.

(** ** Normalizing twice, and runs of mar141.py's [merge_layers] *)

Lemma normalize_run (σ : heap) (layers : list loc) :
  layers ≠ [] →
  (∀ l, l ∈ layers → ∃ layer, σ !! l = Some layer ∧ layer ≠ []) →
  let n := max_list ((λ l, List.length (σ !!! l)) <$> layers) in
  ∃ σ' : heap,
    normalize layers σ = (Ok n, σ') ∧
    ∀ x, σ' !! x = if decide (x ∈ layers) then padded n <$> σ !! x else σ !! x.
Proof.
  intros Hne Hall n. destruct layers as [|l0 rest]; [done|].
  destruct (pad_loop_run n (l0 :: rest) σ Hall) as (σ' & Hloop & Hσ').
  exists σ'. split; [|done]. rewrite normalize_cons. cbv zeta. fold n.
  by rewrite Hloop.
Qed.

Lemma max_list_constant {A} (f : A → nat) (xs : list A) (n : nat) :
  xs ≠ [] → (∀ x, x ∈ xs → f x = n) → max_list (f <$> xs) = n.
Proof.
  induction xs as [|x rest IHrest]; intros Hne Hall; [done|].
  cbn. rewrite (Hall x) by left. destruct rest as [|y rest'].
  - cbn. lia.
  - rewrite IHrest; [lia|done|]. intros z Hz. apply Hall. by right.
Qed.

Lemma elem_of_padded (n : nat) (layer : list string) (p : string) :
  p ∈ padded n layer → p ∈ layer.
Proof.
  unfold padded. destruct (last layer) as [q|] eqn:Hlast; [|done].
  intros [Hp|Hp]%elem_of_app; [done|].
  apply elem_of_replicate_inv in Hp as ->. by apply last_Some_elem_of.
Qed.

(** X10. Normalizing layers that were just normalized changes
    nothing and finds the same number of frames: the padding that
    [start_merge] does and the one that mar141's [merge_layers] then repeats
    on the same lists agree. *)
Theorem normalize_twice (σ σ' : heap) (layers : list loc) (n : nat) :
  (∀ l, l ∈ layers → ∃ layer, σ !! l = Some layer ∧ layer ≠ []) →
  normalize layers σ = (Ok n, σ') →
  normalize layers σ' = (Ok n, σ').
Proof.
  intros Hall Hrun.
  assert (layers ≠ []) as Hne.
  { intros ->. cbv [normalize max_len bind get raise] in Hrun. discriminate. }
  destruct (normalize_run σ layers Hne Hall) as (σ1 & Hrun1 & Hσ1).
  rewrite Hrun in Hrun1. inversion Hrun1 as [[Hn Hσ]]. subst σ1.
  assert (∀ l, l ∈ layers → List.length (σ !!! l) ≤ n) as Hle.
  { intros l Hl. rewrite Hn. apply max_list_elem_of_le, list_elem_of_fmap.
    by exists l. }
  assert (∀ l, l ∈ layers →
            ∃ layer, σ !! l = Some layer ∧ layer ≠ [] ∧
                     σ' !! l = Some (padded n layer) ∧
                     List.length (padded n layer) = n) as Hpadded.
  { intros l Hl. destruct (Hall l Hl) as (layer & Hlayer & Hnonempty).
    exists layer. split; [done|]. split; [done|]. split.
    - rewrite Hσ1, decide_True, Hlayer by done. by rewrite <- Hn.
    - rewrite padded_length by done. specialize (Hle l Hl).
      rewrite (lookup_total_correct _ _ _ Hlayer) in Hle. lia. }
  destruct (normalize_run σ' layers Hne) as (σ2 & Hrun2 & Hσ2).
  { intros l Hl. destruct (Hpadded l Hl) as (layer & _ & Hnonempty & Hl' & _).
    exists (padded n layer). split; [done|]. by apply padded_nonempty_inv. }
  assert (max_list ((λ l, List.length (σ' !!! l)) <$> layers) = n) as Hmax.
  { apply max_list_constant; [done|]. intros l Hl.
    destruct (Hpadded l Hl) as (layer & _ & _ & Hl' & Hlen).
    by rewrite (lookup_total_correct _ _ _ Hl'). }
  rewrite Hmax in Hrun2, Hσ2. rewrite Hrun2.
  assert (σ2 = σ') as ->; [|done].
  apply map_eq. intros x. rewrite Hσ2. case_decide as Hx; [|done].
  destruct (Hpadded x Hx) as (layer & _ & _ & -> & _). cbn.
  by rewrite padded_idemp.
Qed.

Lemma normalize_twice_witness :
  ∃ σ' : heap,
    normalize [0; 1; 2] layers_3_5_1 = (Ok 5, σ') ∧
    normalize [0; 1; 2] σ' = (Ok 5, σ').
Proof.
  exists (normalize [0; 1; 2] layers_3_5_1).2.
  assert (normalize [0; 1; 2] layers_3_5_1 =
          (Ok 5, (normalize [0; 1; 2] layers_3_5_1).2)) as Hrun
    by (vm_compute; reflexivity).
  split; [exact Hrun|].
  apply (normalize_twice layers_3_5_1 _ [0; 1; 2] 5); [|exact Hrun].
  intros l Hl. exists (layers_3_5_1 !!! l).
  repeat (apply elem_of_cons in Hl as [->|Hl]); [..|by apply elem_of_nil in Hl];
    split; vm_compute; done.
Defined.

Lemma mapM_result_length {A B} (f : A → result B) (xs : list A) : ∀ ys,
  mapM f xs = Ok ys → List.length ys = List.length xs.
Proof.
  induction xs as [|x rest IHrest]; intros ys Hm.
  - cbn in Hm. by inversion Hm.
  - cbn in Hm. destruct (f x); cbn in Hm; [|done].
    destruct (mapM f rest) as [ys'|] eqn:Hrest; cbn in Hm; [|done].
    inversion Hm; subst. cbn. f_equal. by apply IHrest.
Qed.

Section Mar141Runs.
Context `{Pillow}.
Variable disk : string → result image.

Abbreviation run_141 := (Mar141.merge_layers disk).

Lemma frame_step_run layers n ba fa bl fl cb i w :
  Mar141.frame_step disk layers n ba fa bl fl cb i w =
  match Mar141.merge_frame disk ((λ l, Mar141.lists w !!! l) <$> layers) i
          ba fa bl fl with
  | Ok frame =>
      (Ok tt, Mar141.World (Mar141.lists w)
                (Mar141.trace w ++ Mar141App.frame_events n cb i frame))
  | Raise e => (Raise e, w)
  end.
Proof.
  unfold Mar141.frame_step, bind, get, lift.
  destruct (Mar141.merge_frame disk _ i ba fa bl fl) as [frame|e]; [|reflexivity].
  unfold Mar141App.frame_events, Mar141.emit, modify, ret.
  destruct cb; cbn; [by rewrite <- app_assoc|reflexivity].
Qed.

(** The frame loop, on the indices [xs]: it runs to the end, or stops
    at the first index whose frame fails. *)
Lemma frame_loop_spec layers n ba fa bl fl cb (xs : list nat) : ∀ w,
  let merge i :=
    Mar141.merge_frame disk ((λ l, Mar141.lists w !!! l) <$> layers) i
      ba fa bl fl in
  match for_each xs (Mar141.frame_step disk layers n ba fa bl fl cb) w with
  | (Ok _, w') =>
      ∃ frames,
        mapM merge xs = Ok frames ∧
        w' = Mar141.World (Mar141.lists w)
               (Mar141.trace w ++
                concat (zip_with (Mar141App.frame_events n cb) xs frames))
  | (Raise e, w') =>
      ∃ k i frames,
        xs !! k = Some i ∧ merge i = Raise e ∧
        mapM merge (take k xs) = Ok frames ∧
        w' = Mar141.World (Mar141.lists w)
               (Mar141.trace w ++
                concat (zip_with (Mar141App.frame_events n cb) (take k xs) frames))
  end.
Proof.
  induction xs as [|x rest IHrest]; intros w merge.
  - cbn. exists []. split; [done|]. destruct w. cbn. by rewrite app_nil_r.
  - cbn [for_each]. unfold bind at 1. rewrite frame_step_run. fold (merge x).
    destruct (merge x) as [frame|e] eqn:Hx.
    + specialize (IHrest (Mar141.World (Mar141.lists w)
                            (Mar141.trace w ++ Mar141App.frame_events n cb x frame))).
      cbn [Mar141.lists Mar141.trace] in IHrest. fold merge in IHrest.
      destruct (for_each rest _ _) as [[[]|e] w'].
      * destruct IHrest as (frames & Hframes & ->).
        exists (frame :: frames). cbn. rewrite Hx. cbn. rewrite Hframes. cbn.
        split; [done|]. by rewrite <- app_assoc.
      * destruct IHrest as (k & i & frames & Hk & Hi & Hframes & ->).
        exists (S k), i, (frame :: frames). cbn. rewrite Hx. cbn.
        rewrite Hframes. cbn. repeat split; [done|done|]. by rewrite <- app_assoc.
    + exists 0, x, []. cbn. repeat split; [done|]. destruct w. cbn.
      by rewrite app_nil_r.
Qed.

(** How a run of [merge_layers] is put together. *)
Lemma merge_layers_141_run layers output_video fps ba fa bl fl cb w :
  run_141 layers output_video fps ba fa bl fl cb w =
  match normalize layers (Mar141.lists w) with
  | (Raise e, σ) => (Raise e, Mar141.World σ (Mar141.trace w))
  | (Ok n, σ) =>
      match (layer0 ← index ((λ l, σ !!! l) <$> layers) 0;
             path ← index layer0 0;
             disk path) with
      | Raise e => (Raise e, Mar141.World σ (Mar141.trace w))
      | Ok first_image =>
          match for_each (seq 0 n)
                  (Mar141.frame_step disk layers n ba fa bl fl cb)
                  (Mar141.World σ
                     (Mar141.trace w ++
                      [Mar141.writer_open output_video fps
                         (image_size first_image)])) with
          | (Ok _, w') =>
              (Ok tt, Mar141.World (Mar141.lists w')
                        (Mar141.trace w' ++ [Mar141.writer_release]))
          | (Raise e, w') => (Raise e, w')
          end
      end
  end.
Proof.
  unfold Mar141.merge_layers. unfold bind at 1. unfold Mar141.on_lists.
  destruct (normalize layers (Mar141.lists w)) as [[n|e] σ]; [|reflexivity].
  unfold bind at 1. unfold get. unfold bind at 1. unfold lift. cbn [Mar141.lists].
  destruct (index ((λ l, σ !!! l) <$> layers) 0 ≫= _) as [first_image|e];
    [|reflexivity].
  unfold bind at 1. unfold Mar141.emit at 1. unfold modify. cbn [Mar141.lists Mar141.trace].
  unfold bind at 1.
  destruct (for_each (seq 0 n) _ _) as [[[]|e] w']; reflexivity.
Qed.

Lemma merge_layers_141_success
    layers output_video fps ba fa bl fl cb w w' :
  run_141 layers output_video fps ba fa bl fl cb w = (Ok tt, w') →
  ∃ n first_image frames,
    normalize layers (Mar141.lists w) = (Ok n, Mar141.lists w') ∧
    (layer0 ← index ((λ l, Mar141.lists w' !!! l) <$> layers) 0;
     path ← index layer0 0;
     disk path) = Ok first_image ∧
    mapM (λ i, Mar141.merge_frame disk
                 ((λ l, Mar141.lists w' !!! l) <$> layers) i ba fa bl fl)
         (seq 0 n) = Ok frames ∧
    List.length frames = n ∧
    Mar141.trace w' =
      Mar141.trace w ++
      [Mar141.writer_open output_video fps (image_size first_image)] ++
      concat (zip_with (Mar141App.frame_events n cb) (seq 0 n) frames) ++
      [Mar141.writer_release].
Proof.
  rewrite merge_layers_141_run.
  destruct (normalize layers (Mar141.lists w)) as [[n|e] σ]; [|done].
  destruct (index ((λ l, σ !!! l) <$> layers) 0 ≫= _) as [first_image|e] eqn:Hfirst;
    [|done].
  pose proof (frame_loop_spec layers n ba fa bl fl cb (seq 0 n)
                (Mar141.World σ
                   (Mar141.trace w ++
                    [Mar141.writer_open output_video fps
                       (image_size first_image)]))) as Hloop.
  cbv zeta in Hloop. cbn [Mar141.lists Mar141.trace] in Hloop.
  destruct (for_each (seq 0 n) _ _) as [[[]|e] w1]; [|done].
  destruct Hloop as (frames & Hframes & ->). intros Hrun.
  inversion Hrun; subst. cbn [Mar141.lists Mar141.trace].
  exists n, first_image, frames. repeat split; try done.
  - rewrite (mapM_result_length _ _ _ Hframes). apply length_seq.
  - by rewrite <- !app_assoc.
Qed.

(** X11. A successful run of mar141's [merge_layers] opens the
    writer with the size of the first image of layer 0, writes the merged
    frames [0 .. n-1] of the padded layers in this order, each followed by
    its progress callback if there is one, and releases the writer. *)
Theorem merge_layers_141_success_trace
    layers output_video fps ba fa bl fl cb w w' :
  run_141 layers output_video fps ba fa bl fl cb w = (Ok tt, w') →
  ∃ n first_image frames,
    normalize layers (Mar141.lists w) = (Ok n, Mar141.lists w') ∧
    (layer0 ← index ((λ l, Mar141.lists w' !!! l) <$> layers) 0;
     path ← index layer0 0;
     disk path) = Ok first_image ∧
    mapM (λ i, Mar141.merge_frame disk
                 ((λ l, Mar141.lists w' !!! l) <$> layers) i ba fa bl fl)
         (seq 0 n) = Ok frames ∧
    List.length frames = n ∧
    Mar141.trace w' =
      Mar141.trace w ++
      [Mar141.writer_open output_video fps (image_size first_image)] ++
      concat (zip_with (Mar141App.frame_events n cb) (seq 0 n) frames) ++
      [Mar141.writer_release].
Proof. apply merge_layers_141_success. Qed.
End Mar141Runs.

Section Mar141Failures.
Context `{Pillow}.
Variable disk : string → result image.



(** *** Well-formed input *)

Lemma merge_upper_141_ok (sz : Z * Z) (i : nat) ba fa bl fl
    (upper : list (list string)) :
  amounts_accepted ba fa →
  (∀ layer, layer ∈ upper →
     i < List.length layer ∧
     ∀ p, p ∈ layer → ∃ im, disk p = Ok im ∧ image_size im = sz) →
  ∀ merged layer_index, image_size merged = sz →
    ∃ m, Mar141.merge_upper disk merged layer_index upper i ba fa bl fl = Ok m ∧
         image_size m = sz.
Proof.
  intros [Hblur Hfog].
  induction upper as [|layer rest IHrest]; intros Hgood merged layer_index Hsz.
  - by exists merged.
  - destruct (Hgood layer) as (Hi & Hdecode); [left|].
    destruct (lookup_lt_is_Some_2 layer i Hi) as [p Hp].
    destruct (Hdecode p) as (im & Him & Himsz).
    { by apply list_elem_of_lookup_2 in Hp. }
    cbn. unfold index. rewrite Hp. cbn. rewrite Him. cbn.
    assert (∃ blurred,
              (if Mar141.selected layer_index bl ba
               then apply_blur im ba else Ok im) = Ok blurred ∧
              image_size blurred = sz) as (blurred & -> & Hblurred).
    { destruct (Mar141.selected layer_index bl ba) eqn:Hsel; [|by exists im].
      assert (0 < ba)%Z as Hpos.
      { unfold Mar141.selected in Hsel.
        apply andb_true_iff in Hsel as [_ Hsel]. by apply Z.ltb_lt. }
      destruct (Hblur Hpos im) as [blurred Hb]. exists blurred.
      split; [exact Hb|]. apply apply_blur_size in Hb. congruence. }
    cbn.
    assert (∃ fogged,
              (if Mar141.selected layer_index fl fa
               then apply_fog blurred fa else Ok blurred) = Ok fogged ∧
              image_size fogged = sz) as (fogged & -> & Hfogged).
    { destruct (Mar141.selected layer_index fl fa) eqn:Hsel; [|by exists blurred].
      assert (0 < fa)%Z as Hpos.
      { unfold Mar141.selected in Hsel.
        apply andb_true_iff in Hsel as [_ Hsel]. by apply Z.ltb_lt. }
      pose proof (apply_fog_run blurred fa) as Hrun.
      destruct (Hfog Hpos blurred) as [fog Hnew]. rewrite Hnew in Hrun.
      destruct Hrun as (fogged & -> & Hsize).
      exists fogged. split; [done|congruence]. }
    cbn.
    destruct (alpha_composite_match merged fogged) as (m' & -> & Hm');
      [congruence|].
    cbn. apply IHrest; [|congruence].
    intros l Hl. apply Hgood. by right.
Qed.

Lemma merge_frame_141_ok (sz : Z * Z) (i : nat) ba fa bl fl
    (layers : list (list string)) :
  amounts_accepted ba fa →
  layers ≠ [] →
  (∀ layer, layer ∈ layers →
     i < List.length layer ∧
     ∀ p, p ∈ layer → ∃ im, disk p = Ok im ∧ image_size im = sz) →
  ∃ m, Mar141.merge_frame disk layers i ba fa bl fl = Ok m ∧ image_size m = sz.
Proof.
  intros Hacc Hne Hgood. destruct layers as [|layer0 upper]; [done|].
  destruct (Hgood layer0) as (Hi & Hdecode); [left|].
  destruct (lookup_lt_is_Some_2 layer0 i Hi) as [p Hp].
  destruct (Hdecode p) as (im & Him & Himsz).
  { by apply list_elem_of_lookup_2 in Hp. }
  unfold Mar141.merge_frame, index. cbn. rewrite Hp. cbn. rewrite Him. cbn.
  apply (merge_upper_141_ok sz); [done| |done].
  intros l Hl. apply Hgood. by right.
Qed.

(** X13. mar141's [merge_layers] completes on well-formed input:
    with at least one layer, no layer empty, every path decoding to an
    image of one size and a blur radius and a fog opacity that the library
    accepts (as far as the gates let them through), the run returns
    normally, whatever the lengths of the layers. *)
Theorem merge_layers_141_completes (sz : Z * Z)
    layers output_video fps ba fa bl fl cb w :
  amounts_accepted ba fa →
  layers ≠ [] →
  (∀ l, l ∈ layers →
     ∃ layer, Mar141.lists w !! l = Some layer ∧ layer ≠ [] ∧
              ∀ p, p ∈ layer → ∃ im, disk p = Ok im ∧ image_size im = sz) →
  (Mar141.merge_layers disk layers output_video fps ba fa bl fl cb w).1 = Ok tt.
Proof.
  intros Hacc Hne Hall. rewrite merge_layers_141_run.
  destruct (normalize_run (Mar141.lists w) layers Hne) as (σ & -> & Hσ).
  { intros l Hl. destruct (Hall l Hl) as (layer & ? & ? & _). by exists layer. }
  set (n := max_list ((λ l, List.length (Mar141.lists w !!! l)) <$> layers)) in *.
  assert (∀ layer, layer ∈ (λ l, σ !!! l) <$> layers →
            List.length layer = n ∧ layer ≠ [] ∧
            ∀ p, p ∈ layer → ∃ im, disk p = Ok im ∧ image_size im = sz)
    as Hpadded.
  { intros layer' (l & -> & Hl)%list_elem_of_fmap.
    destruct (Hall l Hl) as (layer & Hlayer & Hnonempty & Hdecode).
    assert (σ !! l = Some (padded n layer)) as Hl'.
    { by rewrite Hσ, decide_True, Hlayer. }
    rewrite (lookup_total_correct _ _ _ Hl'). split; [|split].
    - rewrite padded_length by done.
      assert (List.length layer ≤ n); [|lia].
      unfold n. apply max_list_elem_of_le, list_elem_of_fmap.
      exists l. split; [|done]. by rewrite (lookup_total_correct _ _ _ Hlayer).
    - by apply padded_nonempty_inv.
    - intros p Hp. apply Hdecode. by apply elem_of_padded in Hp. }
  assert ((λ l, σ !!! l) <$> layers ≠ []) as Hne'.
  { destruct layers; [done|]. discriminate. }
  assert (∃ first_image,
            (layer0 ← index ((λ l, σ !!! l) <$> layers) 0;
             path ← index layer0 0;
             disk path) = Ok first_image) as (first_image & ->).
  { destruct ((λ l, σ !!! l) <$> layers) as [|layer0 upper] eqn:Hls; [done|].
    destruct (Hpadded layer0) as (_ & Hnonempty & Hdecode); [left|].
    destruct layer0 as [|p layer0']; [done|].
    destruct (Hdecode p) as (im & Him & _); [left|].
    exists im. cbn. by rewrite Him. }
  pose proof (frame_loop_spec disk layers n ba fa bl fl cb (seq 0 n)
                (Mar141.World σ
                   (Mar141.trace w ++
                    [Mar141.writer_open output_video fps
                       (image_size first_image)]))) as Hloop.
  cbv zeta in Hloop. cbn [Mar141.lists Mar141.trace] in Hloop.
  destruct (for_each (seq 0 n) _ _) as [[[]|e] w1]; [done|].
  exfalso. destruct Hloop as (k & i & frames & Hk & Hfail & _).
  apply lookup_seq in Hk as [-> Hk]. change (0 + k) with k in Hfail.
  destruct (merge_frame_141_ok sz k ba fa bl fl ((λ l, σ !!! l) <$> layers)
              Hacc Hne')
    as (m & Hm & _); [|congruence].
  intros layer Hlayer. destruct (Hpadded layer Hlayer) as (Hlen & _ & Hdecode).
  split; [lia|done].
Qed.
End Mar141Failures.

Lemma merge_layers_141_success_trace_witness :
  ∃ n (frames : list sym_image),
    normalize [0; 1; 2] layers_3_5_1 =
      (Ok n, Mar141.lists
               (Mar141.merge_layers sample_disk [0; 1; 2] "out.mp4" 30 0 0
                  None None true (Mar141.World layers_3_5_1 [])).2) ∧
    List.length frames = n.
Proof.
  destruct (@merge_layers_141_success_trace SymPillow sample_disk [0; 1; 2]
              "out.mp4" 30%Z 0%Z 0%Z None None true
              (Mar141.World layers_3_5_1 [])
              (Mar141.merge_layers (H := SymPillow) sample_disk [0; 1; 2]
                 "out.mp4" 30 0 0 None None true
                 (Mar141.World layers_3_5_1 [])).2)
    as (n & first_image & frames & Hnorm & _ & _ & Hlen & _).
  - vm_compute. reflexivity.
  - exists n, frames. split; [exact Hnorm|exact Hlen].
Defined.


Lemma merge_layers_141_completes_witness :
  (Mar141.merge_layers sample_disk [0; 1] "out.mp4" 30 3 0 (Some [1%Z]) None true
     (Mar141.World layers_1_2 [])).1 = Ok tt.
Proof.
  apply (@merge_layers_141_completes SymPillow sample_disk (4, 4)%Z).
  - apply sample_amounts_accepted; lia.
  - discriminate.
  - intros l Hl. exists (layers_1_2 !!! l).
    repeat (apply elem_of_cons in Hl as [->|Hl]); [..|by apply elem_of_nil in Hl].
    + split; [vm_compute; reflexivity|]. split; [vm_compute; discriminate|].
      intros p Hp. vm_compute in Hp. exists (Decoded p (4, 4)%Z).
      split; [|reflexivity].
      apply list_elem_of_singleton in Hp as ->. reflexivity.
    + split; [vm_compute; reflexivity|]. split; [vm_compute; discriminate|].
      intros p Hp. exists (Decoded p (4, 4)%Z). split; [|reflexivity].
      assert (p = "b.png" ∨ p = "c.png") as [-> | ->]; [|reflexivity..].
      change (layers_1_2 !!! 1) with ["b.png"; "c.png"] in Hp.
      apply elem_of_cons in Hp as [->|Hp]; [by left|].
      apply list_elem_of_singleton in Hp as ->. by right.
Defined.

(** ** The preview shows what is encoded *)

Section Preview.
Context `{Pillow}.
Variable disk : string → result image.

(** The merged image that [process_frame] computes for the layer paths of
    a job. *)
Let staged (bl fl : list Z) (ba fa : Z) (job : nat * list string) : result image :=
  merged ← Mar143.composite disk None 0 job.2 bl fl ba fa;
  match merged with Some merged => Ok merged | None => Raise "AttributeError" end.

Lemma merge_upper_143_composite (i : nat) bl fl ba fa (upper : list (list string)) :
  (∀ layer, layer ∈ upper → i < List.length layer) →
  ∀ base layer_index,
    Mar143.merge_upper disk base layer_index upper i ba fa bl fl =
    (merged ← Mar143.composite disk (Some base) layer_index
                ((λ layer, default "" (layer !! i)) <$> upper) bl fl ba fa;
     match merged with Some merged => Ok merged | None => Raise "AttributeError" end).
Proof.
  induction upper as [|layer rest IHrest]; intros Hlong base layer_index;
    [reflexivity|].
  destruct (lookup_lt_is_Some_2 layer i) as [p Hp]; [apply Hlong; left|].
  cbn. unfold index. rewrite Hp. cbn.
  destruct (disk p) as [im|e]; cbn; [|reflexivity].
  destruct (apply_effects _ _ _ _ _ im) as [im'|e]; cbn; [|reflexivity].
  destruct (alpha_composite base im') as [m|e]; cbn; [|reflexivity].
  apply IHrest. intros l Hl. apply Hlong. by right.
Qed.

(** X14. In mar143.py the preview images are the staged frames:
    when no layer is shorter than layer 0, [generate_merged_images] returns
    for each job of the frame data, in order, the merged image that
    [process_frame] computes for it (and saves, converted to RGB), and
    raises where the first of them raises. *)
Theorem preview_is_staged_frames_143
    (layer0 : list string) (rest : list (list string)) ba fa bl fl :
  (∀ layer, layer ∈ rest → List.length layer0 ≤ List.length layer) →
  ∃ frame_data,
    Mar143.prepare_frame_data (layer0 :: rest) (List.length layer0)
      = Ok frame_data ∧
    Mar143.generate_merged_images disk (layer0 :: rest) ba fa bl fl =
    mapM (staged bl fl ba fa) frame_data.
Proof.
  intros Hlong. set (layers := layer0 :: rest). set (n := List.length layer0).
  assert (∀ layer, layer ∈ layers → n ≤ List.length layer) as Hlong'.
  { intros layer [->|Hin]%elem_of_cons; [done|by apply Hlong]. }
  eexists. split; [by apply prepare_frame_data_ok|].
  rewrite mapM_result_fmap. unfold Mar143.generate_merged_images. cbn.
  apply mapM_result_ext. intros i Hi. apply elem_of_seq in Hi.
  unfold Mar143.merged_image_at, staged, index. cbn.
  destruct (lookup_lt_is_Some_2 layer0 i) as [p Hp]; [lia|].
  rewrite Hp. cbn.
  destruct (disk p) as [im|e]; cbn; [|reflexivity].
  destruct (apply_effects _ _ _ _ _ im) as [im'|e]; cbn; [|reflexivity].
  rewrite drop_0. apply merge_upper_143_composite.
  intros l Hl. specialize (Hlong l Hl). lia.
Qed.

Lemma selected_list (layer_index : nat) (sel : list Z) (amount : Z) :
  Mar141.selected layer_index (Some sel) amount =
  py_in (Z.of_nat layer_index) sel && (0 <? amount)%Z.
Proof.
  unfold Mar141.selected. destruct sel as [|x sel']; [|reflexivity].
  cbn. unfold py_in. by rewrite bool_decide_eq_false_2 by apply not_elem_of_nil.
Qed.

Lemma preview_upper_merge_upper (i : nat) ba fa bl fl (upper : list (list string)) :
  ∀ merged layer_index,
    Mar141App.preview_upper disk merged layer_index upper i ba fa bl fl =
    Mar141.merge_upper disk merged layer_index upper i ba fa (Some bl) (Some fl).
Proof.
  induction upper as [|layer rest IHrest]; intros merged layer_index;
    [reflexivity|].
  cbn. destruct (index layer i) as [p|e]; cbn; [|reflexivity].
  destruct (disk p) as [im|e]; cbn; [|reflexivity].
  rewrite !selected_list. unfold apply_effects.
  destruct (if py_in (Z.of_nat layer_index) bl && (0 <? ba)%Z then _ else _)
    as [blurred|e]; cbn; [|reflexivity].
  destruct (if py_in (Z.of_nat layer_index) fl && (0 <? fa)%Z then _ else _)
    as [im'|e]; cbn; [|reflexivity].
  destruct (alpha_composite merged im'); cbn; [apply IHrest|reflexivity].
Qed.

Lemma preview_is_video_frames_141_eq (layers : list (list string)) ba fa bl fl :
  Mar141App.generate_merged_images disk layers ba fa bl fl =
  (layer0 ← index layers 0;
   mapM (λ i, Mar141.merge_frame disk layers i ba fa (Some bl) (Some fl))
        (seq 0 (List.length layer0))).
Proof.
  unfold Mar141App.generate_merged_images.
  destruct (index layers 0) as [layer0|e]; cbn; [|reflexivity].
  apply mapM_result_ext. intros i _.
  unfold Mar141App.preview_image_at, Mar141.merge_frame.
  destruct (index layers 0) as [l0|e]; cbn; [|reflexivity].
  destruct (index l0 i) as [p|e]; cbn; [|reflexivity].
  destruct (disk p) as [im|e]; cbn; [|reflexivity].
  apply preview_upper_merge_upper.
Qed.

(** X15. In mar141.py the preview images are the frames of the
    video: [generate_merged_images] returns, for the same layers and
    parameters, the images that [merge_layers] merges for the frames
    [0 .. len(layers[0]) - 1]; in both the bottom layer gets no effect. *)
Theorem preview_is_video_frames_141 (layers : list (list string)) ba fa bl fl :
  Mar141App.generate_merged_images disk layers ba fa bl fl =
  (layer0 ← index layers 0;
   mapM (λ i, Mar141.merge_frame disk layers i ba fa (Some bl) (Some fl))
        (seq 0 (List.length layer0))).
Proof. apply preview_is_video_frames_141_eq. Qed.
End Preview.

Lemma preview_is_staged_frames_143_witness :
  Mar143.generate_merged_images sample_disk [["a0.png"; "a1.png"]; ["b0.png"; "b1.png"]]
    3 0 [0%Z] [] =
  Ok [Over (Blurred 3 (Decoded "a0.png" (4, 4)%Z)) (Decoded "b0.png" (4, 4)%Z);
      Over (Blurred 3 (Decoded "a1.png" (4, 4)%Z)) (Decoded "b1.png" (4, 4)%Z)].
Proof.
  destruct (@preview_is_staged_frames_143 SymPillow sample_disk
              ["a0.png"; "a1.png"] [["b0.png"; "b1.png"]] 3%Z 0%Z [0%Z] [])
    as (frame_data & Hprep & ->).
  - intros layer Hin. apply list_elem_of_singleton in Hin as ->. simpl. lia.
  - vm_compute in Hprep. inversion Hprep; subst. vm_compute. reflexivity.
Defined.

(** ** The layer rows of the window *)

Section PNGtoMP4AppFacts.
Import PNGtoMP4App.

Lemma fill_listbox (f : nat → string) (xs : list nat) :
∀ lb, foldl (λ lb i, listbox_insert_end (f i) lb) lb xs =
      Listbox (items lb ++ (f <$> xs)) (selection lb).
Proof.
induction xs as [|x xs IHxs]; intros [its sel]; cbn.
- by rewrite app_nil_r.
- rewrite IHxs. cbn. by rewrite <- app_assoc.
Qed.

Lemma update_layer_listboxes_eq (a : app) :
update_layer_listboxes a =
App (layers a) (layer_frames a)
    (Listbox ((λ i, "Layer " +:+ str (i + 1)) <$> seq 0 (List.length (layers a))) [])
    (Listbox ((λ i, "Layer " +:+ str (i + 1)) <$> seq 0 (List.length (layers a))) [])
    (output_video a) (fps a) (blur_amount a) (fog_amount a).
Proof. unfold update_layer_listboxes. by rewrite !fill_listbox. Qed.

Lemma add_layer_ui_eq (a : app) :
add_layer_ui a =
App (layers a ++ [[]])
    (layer_frames a ++
       [LayerFrame (10 + List.length (layers a))
          ("Layer " +:+ str (List.length (layers a) + 1) +:+ " (Folder or PNG):") ""])
    (Listbox ((λ i, "Layer " +:+ str (i + 1)) <$> seq 0 (List.length (layers a) + 1)) [])
    (Listbox ((λ i, "Layer " +:+ str (i + 1)) <$> seq 0 (List.length (layers a) + 1)) [])
    (output_video a) (fps a) (blur_amount a) (fog_amount a).
Proof.
unfold add_layer_ui. rewrite update_layer_listboxes_eq.
cbn [layers layer_frames blur_layer_listbox fog_layer_listbox
     output_video fps blur_amount fog_amount].
by rewrite length_app.
Qed.

Lemma valid_selection_nil (its : list string) : valid_selection (Listbox its []).
Proof. intros i Hi. cbn in Hi. by apply elem_of_nil in Hi. Qed.

Lemma well_formed_add (a : app) : well_formed a → well_formed (add_layer_ui a).
Proof.
intros (Hk & Hlayers & Hlen & Hrows & Hlabels & _).
unfold add_layer_ui. rewrite update_layer_listboxes_eq. unfold well_formed. cbn.
rewrite !length_app. cbn. set (k := List.length (layers a)) in *.
replace (k + 1) with (S k) by lia.
repeat split; try apply valid_selection_nil; try lia.
- rewrite Hlayers at 1. by rewrite replicate_S_end.
- rewrite fmap_app, Hrows, seq_S. done.
- rewrite fmap_app, Hlabels, seq_S, fmap_app. cbn.
  by replace (k + 1) with (S k) by lia.
Qed.

Lemma well_formed_init : well_formed init.
Proof.
unfold well_formed. cbn. repeat split; try lia; try apply valid_selection_nil.
Qed.

Lemma pop_eq {A} (xs : list A) :
0 < List.length xs → pop xs = Ok (take (List.length xs - 1) xs).
Proof. destruct xs; cbn; [lia|done]. Qed.

Lemma remove_layer_ui_eq (a : app) :
List.length (layer_frames a) = List.length (layers a) →
remove_layer_ui a =
Ok (if (1 <? List.length (layers a))%nat then
      update_layer_listboxes
        (App (take (List.length (layers a) - 1) (layers a))
             (take (List.length (layers a) - 1) (layer_frames a))
             (blur_layer_listbox a) (fog_layer_listbox a)
             (output_video a) (fps a) (blur_amount a) (fog_amount a))
    else a).
Proof.
intros Hlen. unfold remove_layer_ui.
destruct (1 <? List.length (layers a))%nat eqn:Hk; [|reflexivity].
apply Nat.ltb_lt in Hk.
rewrite !pop_eq by lia. cbn. by rewrite Hlen.
Qed.

Lemma well_formed_remove (a a' : app) :
well_formed a → remove_layer_ui a = Ok a' → well_formed a'.
Proof.
intros Hwf Hrem. pose proof Hwf as (Hk & Hlayers & Hlen & Hrows & Hlabels & _).
rewrite remove_layer_ui_eq in Hrem by done. injection Hrem as <-.
destruct (1 <? List.length (layers a))%nat eqn:Hlt; [|done].
apply Nat.ltb_lt in Hlt. rewrite update_layer_listboxes_eq.
unfold well_formed. cbn. set (k := List.length (layers a)) in *.
rewrite !length_take. replace (k - 1 `min` k) with (k - 1) by lia.
repeat split; try apply valid_selection_nil; try lia.
- rewrite Hlayers at 1. rewrite take_replicate. f_equal; lia.
- rewrite fmap_take, Hrows, take_seq. f_equal; lia.
- rewrite fmap_take, Hlabels, <- fmap_take, take_seq. do 2 f_equal; lia.
Qed.

Lemma well_formed_edit (a a' : app) :
well_formed a → user_edit a a' → well_formed a'.
Proof.
intros (Hk & Hlayers & Hlen & Hrows & Hlabels & Hblur & Hfog & _)
       (El & Er & Ela & Eb & Ef & Vb & Vf).
unfold well_formed. rewrite El, Er, Ela, Eb, Ef.
repeat split; try done.
apply (f_equal List.length) in Er. rewrite !length_fmap in Er. congruence.
Qed.

Lemma reachable_invariant (a : app) : reachable a → well_formed a.
Proof.
induction 1 as [|a _ IH|a a' _ IH Hrem|a a' _ IH Hedit].
- apply well_formed_init.
- by apply well_formed_add.
- by apply (well_formed_remove a).
- by apply (well_formed_edit a).
Qed.

(** X16. In every state the window can reach (after [__init__],
  by the Add Layer and Remove Layer buttons and by the user's edits of
  entries, sliders and selections) there is at least one layer row, the
  rows sit at grid rows 10, 11, ... and are labelled Layer 1, Layer 2, ...
  in order, [self.layers] holds one empty list per row, both list boxes
  list exactly these layers in order, and every selected index is the index
  of a layer. *)
Theorem reachable_well_formed (a : app) : reachable a → well_formed a.
Proof. apply reachable_invariant. Qed.

(** X17. Remove Layer never raises in a reachable state: with one
  layer row it changes nothing; with more it drops the last row and the last
  entry of [self.layers], keeps the other rows and the entries' values, and
  clears the selection of both list boxes. *)
Theorem remove_layer_ui_reachable (a : app) :
reachable a →
∃ a', remove_layer_ui a = Ok a' ∧
  if bool_decide (List.length (layer_frames a) = 1) then a' = a
  else
    layer_frames a = layer_frames a' ++ drop (List.length (layer_frames a) - 1) (layer_frames a) ∧
    List.length (layer_frames a') = List.length (layer_frames a) - 1 ∧
    List.length (layers a') = List.length (layers a) - 1 ∧
    selection (blur_layer_listbox a') = [] ∧
    selection (fog_layer_listbox a') = [] ∧
    output_video a' = output_video a ∧ fps a' = fps a ∧
    blur_amount a' = blur_amount a ∧ fog_amount a' = fog_amount a.
Proof.
intros Hreach.
pose proof (reachable_invariant a Hreach) as Hwf.
destruct Hwf as (Hk & _ & Hlen & _).
eexists. split; [by apply remove_layer_ui_eq|].
rewrite Hlen. case_bool_decide as Hone.
- by rewrite Hone.
- replace (1 <? List.length (layers a))%nat with true
    by (symmetry; apply Nat.ltb_lt; lia).
  rewrite update_layer_listboxes_eq. cbn.
  rewrite !length_take, take_drop. repeat split; try done; lia.
Qed.

(** X18. Add Layer followed by Remove Layer gives back the rows,
  [self.layers] and the entries' values of a reachable state; what is lost
  is the selection of the two list boxes. *)
Theorem add_then_remove_layer (a : app) :
reachable a →
remove_layer_ui (add_layer_ui a) = Ok (update_layer_listboxes a) ∧
layers (update_layer_listboxes a) = layers a ∧
layer_frames (update_layer_listboxes a) = layer_frames a ∧
items (blur_layer_listbox (update_layer_listboxes a)) = items (blur_layer_listbox a) ∧
items (fog_layer_listbox (update_layer_listboxes a)) = items (fog_layer_listbox a) ∧
selection (blur_layer_listbox (update_layer_listboxes a)) = [] ∧
selection (fog_layer_listbox (update_layer_listboxes a)) = [].
Proof.
intros Hreach.
pose proof (reachable_invariant a Hreach) as Hwf.
destruct Hwf as (Hk & _ & Hlen & _ & _ & Hblur & Hfog & _).
split.
- rewrite remove_layer_ui_eq; rewrite add_layer_ui_eq;
    cbn [layers layer_frames blur_layer_listbox fog_layer_listbox
         output_video fps blur_amount fog_amount];
    rewrite !length_app; change (List.length [_]) with 1; [|lia].
  replace (1 <? List.length (layers a) + 1)%nat with true
    by (symmetry; apply Nat.ltb_lt; lia).
  rewrite Nat.add_sub, !update_layer_listboxes_eq.
  cbn [layers layer_frames blur_layer_listbox fog_layer_listbox
       output_video fps blur_amount fog_amount].
  rewrite take_app_length. rewrite <- Hlen at 1. by rewrite take_app_length.
- rewrite update_layer_listboxes_eq. cbn. by rewrite Hblur, Hfog.
Qed.
End PNGtoMP4AppFacts.

Lemma sample_app_reachable : PNGtoMP4App.reachable sample_app.
Proof.
  apply (PNGtoMP4App.reachable_edit PNGtoMP4App.init); [constructor|].
  repeat split; try reflexivity.
  - intros i Hi. apply list_elem_of_singleton in Hi as ->. cbn. lia.
  - intros i Hi. by apply elem_of_nil in Hi.
Qed.

Lemma reachable_well_formed_witness : PNGtoMP4App.well_formed sample_app.
Proof. exact (reachable_well_formed sample_app sample_app_reachable). Defined.

Lemma remove_layer_ui_reachable_witness :
  ∃ a', PNGtoMP4App.remove_layer_ui sample_app = Ok a' ∧
        List.length (PNGtoMP4App.layer_frames a') = 1 ∧
        PNGtoMP4App.selection (PNGtoMP4App.blur_layer_listbox a') = [].
Proof.
  destruct (remove_layer_ui_reachable sample_app sample_app_reachable)
    as (a' & Hrem & Hshape).
  exists a'. split; [exact Hrem|].
  rewrite bool_decide_eq_false_2 in Hshape by (cbn; lia).
  destruct Hshape as (_ & Hlen & _ & Hblur & _). split; [exact Hlen|exact Hblur].
Defined.

Lemma add_then_remove_layer_witness :
  PNGtoMP4App.remove_layer_ui (PNGtoMP4App.add_layer_ui sample_app)
  = Ok (PNGtoMP4App.update_layer_listboxes sample_app).
Proof. exact (proj1 (add_then_remove_layer sample_app sample_app_reachable)). Defined.

(** ** What [start_merge] hands to the merger *)

Section StartMergeFacts.
Import PNGtoMP4App.
Variable isfile : string → bool.
Variable isdir : string → bool.
Variable listdir : string → list string.

Local Abbreviation acceptable := (acceptable isfile isdir listdir).
Local Abbreviation layer_of := (layer_of isfile listdir).
Local Abbreviation read_layers := (read_layers isfile isdir listdir).
Local Abbreviation start_merge_prepare := (start_merge_prepare isfile isdir listdir).
Local Abbreviation rejected := (rejected isdir).
Local Abbreviation merged_layers := (merged_layers isfile listdir).

Lemma list_ascii_of_string_app (a b : string) :
  String.list_ascii_of_string (a +:+ b) =
  String.list_ascii_of_string a ++ String.list_ascii_of_string b.
Proof. induction a as [|c a IHa]; simpl; [done|by f_equal]. Qed.

Lemma endswith_os_path_join (a f suffix : string) :
  endswith f suffix = true → endswith (os_path_join a f) suffix = true.
Proof.
  unfold endswith. intros Hf%bool_decide_eq_true. apply bool_decide_eq_true.
  unfold os_path_join. destruct (startswith f "/"); [done|].
  destruct (_ || _); rewrite !list_ascii_of_string_app;
    repeat apply suffix_app_r; done.
Qed.

(** X19. The frames of a folder layer: [png_files] is in
    ascending string order, holds exactly the joined paths of the
    directory entries that end in ".png" (as many times as the listing
    has them), and each of them ends in ".png". *)
Theorem png_files_sorted_png_entries (path : string) :
  StronglySorted String.le (png_files listdir path) ∧
  png_files listdir path ≡ₚ
    os_path_join path <$> filter (λ f, endswith f ".png" = true) (listdir path) ∧
  ∀ p, p ∈ png_files listdir path → endswith p ".png" = true.
Proof.
  unfold png_files. split; [|split].
  - apply StronglySorted_merge_sort; apply _.
  - apply merge_sort_Permutation.
  - intros p Hp. rewrite merge_sort_Permutation in Hp.
    apply list_elem_of_fmap in Hp as (f & -> & Hf).
    apply list_elem_of_filter in Hf as [Hf _].
    by apply endswith_os_path_join.
Qed.

Lemma layer_of_nonempty (frame : layer_frame) :
  acceptable frame → layer_of frame ≠ [].
Proof.
  intros (_ & [Hfile|[_ Hfiles]]); unfold PNGtoMP4App.layer_of.
  - by rewrite Hfile.
  - by destruct (_ && _).
Qed.

Lemma read_layers_step (frame : layer_frame) rest acc :
  acceptable frame →
  read_layers (frame :: rest) acc = read_layers rest (acc ++ [layer_of frame]).
Proof.
  intros (Hpath & Hkind). cbn. unfold PNGtoMP4App.layer_of.
  rewrite bool_decide_eq_false_2 by done.
  destruct (isfile _ && endswith _ _) eqn:Hfile; [done|].
  destruct Hkind as [?|[-> Hfiles]]; [done|].
  by destruct (png_files listdir (layer_path frame)).
Qed.

Lemma read_layers_acceptable (frames : list layer_frame) :
  Forall acceptable frames →
  ∀ acc, read_layers frames acc = Ok (inl (acc ++ (layer_of <$> frames))).
Proof.
  induction 1 as [|frame rest Hframe _ IH]; intros acc; cbn -[PNGtoMP4App.read_layers].
  - cbn. by rewrite app_nil_r.
  - rewrite read_layers_step by done. rewrite IH. by rewrite <- app_assoc.
Qed.

Lemma read_layers_rejected (frame : layer_frame) rest acc :
  ¬ acceptable frame → read_layers (frame :: rest) acc = rejected frame.
Proof.
  intros Hbad. cbn. unfold PNGtoMP4App.rejected. case_bool_decide as Hpath; [done|].
  destruct (isfile _ && endswith _ _) eqn:Hfile.
  { destruct Hbad. split; [done|by left]. }
  destruct (isdir _) eqn:Hdir; [|done].
  destruct (png_files listdir (layer_path frame)) eqn:Hfiles; [done|].
  destruct Hbad. split; [done|right]. by rewrite Hfiles.
Qed.

Lemma read_layers_inl (frames : list layer_frame) :
  ∀ acc ls, read_layers frames acc = Ok (inl ls) → Forall acceptable frames.
Proof.
  induction frames as [|frame rest IH]; intros acc ls Hread; [constructor|].
  assert (Decision (acceptable frame)) as [Hok|Hbad].
  { unfold PNGtoMP4App.acceptable. apply _. }
  - constructor; [done|]. rewrite read_layers_step in Hread by done. eauto.
  - rewrite read_layers_rejected in Hread by done. unfold PNGtoMP4App.rejected in Hread.
    repeat case_match; discriminate.
Qed.

Lemma local_lists_read (layers : list (list string)) :
  (λ l, local_lists layers !!! l) <$> seq 0 (List.length layers) = layers.
Proof.
  apply list_eq. intros i. rewrite list_lookup_fmap.
  destruct (layers !! i) as [layer|] eqn:Hi.
  - rewrite lookup_seq_lt by (by eapply lookup_lt_Some). cbn. f_equal.
    apply lookup_total_correct. unfold local_lists.
    by rewrite lookup_map_seq_0.
  - rewrite lookup_seq_ge by (by apply lookup_ge_None). done.
Qed.

Lemma pad_local_nonempty (layers : list (list string)) :
  layers ≠ [] → (∀ layer, layer ∈ layers → layer ≠ []) →
  pad_local layers = Ok (padded (max_list (List.length <$> layers)) <$> layers).
Proof.
  intros Hne Hall. unfold pad_local.
  destruct (normalize_run (local_lists layers) (seq 0 (List.length layers)))
    as (σ' & Hrun & Hσ').
  { destruct layers; [done|]. cbn. done. }
  { intros l Hl%elem_of_seq.
    destruct (lookup_lt_is_Some_2 layers l) as [layer Hlayer]; [lia|].
    exists layer. unfold local_lists. rewrite lookup_map_seq_0.
    split; [done|]. apply Hall. by eapply list_elem_of_lookup_2. }
  rewrite Hrun. f_equal.
  assert (max_list ((λ l, List.length (local_lists layers !!! l))
                      <$> seq 0 (List.length layers))
          = max_list (List.length <$> layers)) as Hn.
  { f_equal. etrans; [|exact (f_equal (fmap List.length) (local_lists_read layers))].
    by rewrite <- list_fmap_compose. }
  rewrite Hn in Hσ'. clear Hn Hrun.
  apply list_eq. intros i. rewrite !list_lookup_fmap.
  destruct (layers !! i) as [layer|] eqn:Hi.
  - rewrite lookup_seq_lt by (by eapply lookup_lt_Some). cbn. f_equal.
    apply lookup_total_correct. rewrite Hσ'.
    rewrite decide_True by (apply elem_of_seq; apply lookup_lt_Some in Hi; lia).
    unfold local_lists. by rewrite lookup_map_seq_0, Hi.
  - rewrite lookup_seq_ge by (by apply lookup_ge_None). done.
Qed.

Lemma pad_local_nil : pad_local [] = Raise "ValueError".
Proof. reflexivity. Qed.

Lemma padded_to_max (layers : list (list string)) (layer : list string) :
  (∀ layer, layer ∈ layers → layer ≠ []) → layer ∈ layers →
  List.length (padded (max_list (List.length <$> layers)) layer)
    = max_list (List.length <$> layers).
Proof.
  intros Hall Hin. rewrite padded_length by auto.
  assert (List.length layer ≤ max_list (List.length <$> layers)); [|lia].
  apply max_list_elem_of_le. apply list_elem_of_fmap. eauto.
Qed.

Lemma start_merge_prepare_acceptable (a : app) :
  Forall acceptable (layer_frames a) →
  start_merge_prepare a =
  if bool_decide (layer_frames a = []) then Raise "ValueError"
  else match fps a with
       | None => Raise "TclError"
       | Some fps =>
           if bool_decide (output_video a = "") then
             Ok (Returned "Error" "Please specify the output video file.")
           else
             Ok (Ready (merged_layers a) (output_video a) fps
                   (blur_amount a) (fog_amount a)
                   (Z.of_nat <$> selection (blur_layer_listbox a))
                   (Z.of_nat <$> selection (fog_layer_listbox a)))
       end.
Proof.
  intros Hok. unfold PNGtoMP4App.start_merge_prepare.
  rewrite read_layers_acceptable by done. cbn [mbind result_bind List.app].
  change ([] ++ ?l) with l.
  destruct (decide (layer_frames a = [])) as [Hnil|Hnil].
  - rewrite (bool_decide_eq_true_2 (layer_frames a = [])) by done.
    rewrite Hnil. reflexivity.
  - rewrite (bool_decide_eq_false_2 (layer_frames a = [])) by done.
    rewrite pad_local_nonempty.
    + cbn. destruct (fps a); reflexivity.
    + by destruct (layer_frames a).
    + intros layer (frame & -> & Hframe)%list_elem_of_fmap.
      apply layer_of_nonempty. by eapply Forall_forall in Hok.
Qed.

(** X20. When every layer row holds a PNG file or a folder with
    a PNG file, [start_merge] reads the frame rate, then checks the output
    path, and then goes on with one list per row -- the file itself, or the
    sorted PNG files of the folder -- each padded to the longest list by
    repeating its last path.  A text that is no number in the frame-rate entry
    raises [TclError] even when the output path is empty too. *)
Theorem start_merge_on_accepted_rows (a : app) :
  layer_frames a ≠ [] →
  Forall acceptable (layer_frames a) →
  start_merge_prepare a =
  match fps a with
  | None => Raise "TclError"
  | Some fps =>
      if bool_decide (output_video a = "") then
        Ok (Returned "Error" "Please specify the output video file.")
      else
        Ok (Ready (merged_layers a) (output_video a) fps
              (blur_amount a) (fog_amount a)
              (Z.of_nat <$> selection (blur_layer_listbox a))
              (Z.of_nat <$> selection (fog_layer_listbox a)))
  end.
Proof.
  intros Hne Hok. rewrite start_merge_prepare_acceptable by done.
  by rewrite (bool_decide_eq_false_2 (layer_frames a = [])).
Qed.

(** X21. The first layer row that is neither a PNG file nor a
    folder with a PNG file decides how [start_merge] ends, whatever the
    rows after it, the frame rate and the output path are: an empty
    path and a folder without PNG files end in an error dialog, anything
    else -- a file that is no PNG, a path that does not exist -- raises
    [ValueError] before the [try] statement, so no dialog reports it. *)
Theorem start_merge_first_rejected_row
    (a : app) (good : list layer_frame) (bad : layer_frame) (rest : list layer_frame) :
  layer_frames a = good ++ bad :: rest →
  Forall acceptable good →
  ¬ acceptable bad →
  start_merge_prepare a =
  if bool_decide (layer_path bad = "") then
    Ok (Returned "Error" "Please provide paths for all layers.")
  else if isdir (layer_path bad) then
    Ok (Returned "Error"
          ("The folder '" +:+ layer_path bad +:+ "' contains no PNG files."))
  else Raise "ValueError".
Proof.
  intros Hframes Hgood Hbad. unfold PNGtoMP4App.start_merge_prepare.
  rewrite Hframes.
  assert (∀ acc, read_layers (good ++ bad :: rest) acc = rejected bad) as ->.
  { clear Hframes. induction Hgood as [|frame good' Hframe _ IH]; intros acc.
    - by apply read_layers_rejected.
    - cbn -[PNGtoMP4App.read_layers]. rewrite read_layers_step by done. apply IH. }
  unfold PNGtoMP4App.rejected. repeat case_match; reflexivity.
Qed.

Lemma start_merge_prepare_ready (a : app) layers out fps ba fa bl fl :
  start_merge_prepare a = Ok (Ready layers out fps ba fa bl fl) →
  layer_frames a ≠ [] ∧ Forall acceptable (layer_frames a) ∧
  layers = merged_layers a ∧ out ≠ "" ∧
  bl = Z.of_nat <$> selection (blur_layer_listbox a) ∧
  fl = Z.of_nat <$> selection (fog_layer_listbox a).
Proof.
  intros Hrun.
  assert (Forall acceptable (layer_frames a)) as Hok.
  { unfold PNGtoMP4App.start_merge_prepare in Hrun.
    destruct (read_layers (layer_frames a) []) as [[ls|msg]|e] eqn:Hread;
      [|discriminate..].
    by eapply read_layers_inl. }
  rewrite start_merge_prepare_acceptable in Hrun by done.
  destruct (decide (layer_frames a = [])) as [Hnil|Hnil].
  { by rewrite (bool_decide_eq_true_2 (layer_frames a = [])) in Hrun. }
  rewrite (bool_decide_eq_false_2 (layer_frames a = [])) in Hrun by done.
  destruct (PNGtoMP4App.fps a); [|discriminate].
  case_bool_decide as Hout; [discriminate|].
  by injection Hrun as <- <- <- <- <- <- <-.
Qed.

(** X22. Whenever [start_merge] gets as far as its [try]
    statement, the layers it passes on are one list per layer row, all of
    one length [n ≥ 1], and the output path is not empty; so the frame data
    of [merge_layers] can be built from them without an [IndexError], one
    job per frame. *)
Theorem start_merge_layers_of_one_length (a : app) layers out fps ba fa bl fl :
  start_merge_prepare a = Ok (Ready layers out fps ba fa bl fl) →
  out ≠ "" ∧
  List.length layers = List.length (layer_frames a) ∧
  ∃ n, 1 ≤ n ∧
    (∀ layer, layer ∈ layers → List.length layer = n) ∧
    ∃ layer0 frame_data,
      index layers 0 = Ok layer0 ∧
      Mar143.prepare_frame_data layers (List.length layer0) = Ok frame_data ∧
      List.length frame_data = n.
Proof.
  intros (Hne & Hok & -> & Hout & _)%start_merge_prepare_ready.
  split; [done|]. unfold PNGtoMP4App.merged_layers. rewrite !length_fmap. split; [done|].
  set (ls := layer_of <$> layer_frames a).
  set (n := max_list (List.length <$> ls)).
  assert (∀ layer, layer ∈ ls → layer ≠ []) as Hall.
  { intros layer (frame & -> & Hframe)%list_elem_of_fmap.
    apply layer_of_nonempty. by eapply Forall_forall in Hok. }
  assert (∀ layer, layer ∈ padded n <$> ls → List.length layer = n) as Hlen.
  { intros layer (l & -> & Hl)%list_elem_of_fmap. by apply padded_to_max. }
  destruct ls as [|l0 ls'] eqn:Hls.
  { destruct (layer_frames a); [done|discriminate]. }
  exists n. split; [|split; [done|]].
  - assert (List.length l0 ≤ n).
    { apply max_list_elem_of_le. left. }
    specialize (Hall l0 (list_elem_of_here _ _)). destruct l0; [done|]. cbn in *. lia.
  - exists (padded n l0). eexists. split; [done|]. split.
    + apply prepare_frame_data_ok. intros layer Hlayer.
      rewrite (Hlen layer Hlayer). rewrite (Hlen (padded n l0)); [done|left].
    + rewrite length_fmap, length_seq. apply Hlen. left.
Qed.

(** X23. In a reachable state of the window every blur and fog
    index that [start_merge] passes on is the index of one of the layers it
    passes on. *)
Theorem start_merge_effect_indices_valid (a : app) layers out fps ba fa bl fl :
  reachable a →
  start_merge_prepare a = Ok (Ready layers out fps ba fa bl fl) →
  ∀ idx, idx ∈ bl ++ fl → (0 ≤ idx < Z.of_nat (List.length layers))%Z.
Proof.
  intros Hreach (_ & _ & -> & _ & -> & ->)%start_merge_prepare_ready idx Hidx.
  destruct (reachable_invariant a Hreach)
    as (_ & _ & Hlen & _ & _ & Hblur & Hfog & Vblur & Vfog).
  unfold PNGtoMP4App.merged_layers. rewrite !length_fmap, Hlen.
  assert (∀ lb, valid_selection lb →
                List.length (items lb) = List.length (PNGtoMP4App.layers a) →
                idx ∈ Z.of_nat <$> selection lb →
                (0 ≤ idx < Z.of_nat (List.length (PNGtoMP4App.layers a)))%Z) as Hsel.
  { intros lb Hvalid Hitems (i & -> & Hi)%list_elem_of_fmap.
    specialize (Hvalid i Hi). lia. }
  apply elem_of_app in Hidx as [Hidx|Hidx].
  - apply (Hsel (blur_layer_listbox a)); [done| |done].
    by rewrite Hblur, length_fmap, length_seq.
  - apply (Hsel (fog_layer_listbox a)); [done| |done].
    by rewrite Hfog, length_fmap, length_seq.
Qed.
End StartMergeFacts.

Lemma sample_app_acceptable :
  Forall (PNGtoMP4App.acceptable sample_isfile sample_isdir sample_listdir)
         (PNGtoMP4App.layer_frames sample_app).
Proof.
  apply Forall_cons_2; [|apply Forall_cons_2; [|apply Forall_nil_2]].
  - split; [discriminate|]. left. reflexivity.
  - split; [discriminate|]. right. split; [reflexivity|]. vm_compute. discriminate.
Qed.

Lemma start_merge_on_accepted_rows_witness :
  PNGtoMP4App.start_merge_prepare sample_isfile sample_isdir sample_listdir sample_app =
  Ok (PNGtoMP4App.Ready
        [["logo.png"; "logo.png"]; ["frames/a.png"; "frames/b.png"]]
        "out.mp4" 30 3 0 [1%Z] []).
Proof.
  rewrite (start_merge_on_accepted_rows sample_isfile sample_isdir sample_listdir
             sample_app); [reflexivity|discriminate|exact sample_app_acceptable].
Defined.

(** The sample window with a text file in its second layer row. *)
Lemma start_merge_first_rejected_row_witness :
  PNGtoMP4App.start_merge_prepare sample_isfile sample_isdir sample_listdir
    (PNGtoMP4App.App [[]; []]
       [PNGtoMP4App.LayerFrame 10 "Layer 1 (Folder or PNG):" "logo.png";
        PNGtoMP4App.LayerFrame 11 "Layer 2 (Folder or PNG):" "notes.txt"]
       (PNGtoMP4App.Listbox ["Layer 1"; "Layer 2"] [])
       (PNGtoMP4App.Listbox ["Layer 1"; "Layer 2"] [])
       "out.mp4" (Some 30%Z) 0%Z 0%Z)
  = Raise "ValueError".
Proof.
  rewrite (start_merge_first_rejected_row sample_isfile sample_isdir sample_listdir _
             [PNGtoMP4App.LayerFrame 10 "Layer 1 (Folder or PNG):" "logo.png"]
             (PNGtoMP4App.LayerFrame 11 "Layer 2 (Folder or PNG):" "notes.txt") []).
  - reflexivity.
  - reflexivity.
  - apply Forall_cons_2; [|apply Forall_nil_2].
    split; [discriminate|]. left. reflexivity.
  - intros (_ & [Hfile|[Hdir _]]); vm_compute in Hfile || vm_compute in Hdir;
      discriminate.
Defined.

Lemma start_merge_layers_of_one_length_witness :
  ∃ n, 1 ≤ n ∧
    ∀ layer, layer ∈ [["logo.png"; "logo.png"]; ["frames/a.png"; "frames/b.png"]] →
             List.length layer = n.
Proof.
  destruct (start_merge_layers_of_one_length sample_isfile sample_isdir sample_listdir
              sample_app _ "out.mp4" 30%Z 3%Z 0%Z [1%Z] [] eq_refl)
    as (_ & _ & n & Hn & Hall & _).
  exists n. split; [exact Hn|exact Hall].
Defined.

Lemma start_merge_effect_indices_valid_witness : (0 ≤ 1 < 2)%Z.
Proof.
  apply (start_merge_effect_indices_valid sample_isfile sample_isdir sample_listdir
           sample_app _ "out.mp4" 30%Z 3%Z 0%Z [1%Z] [] sample_app_reachable eq_refl 1%Z).
  left.
Defined.

(** ** The video of mar141.py holds the preview *)

Section Mar141Video.
Context `{Pillow}.
Variable disk : string → result image.

Lemma written_frames_app (t1 t2 : list Mar141.event) :
  Mar141App.written_frames (t1 ++ t2) =
  Mar141App.written_frames t1 ++ Mar141App.written_frames t2.
Proof. apply omap_app. Qed.

Lemma written_frame_events (n : nat) (cb : bool) (frames : list image) :
  ∀ xs : list nat, List.length xs = List.length frames →
  Mar141App.written_frames
    (concat (zip_with (Mar141App.frame_events n cb) xs frames)) = frames.
Proof.
  induction frames as [|frame rest IH]; intros [|x xs] Hlen; try done.
  cbn [zip_with concat]. rewrite written_frames_app, IH by (cbn in Hlen; lia).
  unfold Mar141App.frame_events. by destruct cb.
Qed.

(** X24. In mar141.py the video holds the preview: when the
    layers are non-empty lists and [merge_layers] succeeds with the lists
    [blur_layers] and [fog_layers], the merged images it hands to the
    writer (converted to BGR) are, in order, the images that
    [generate_merged_images] returns for the padded layers and the same
    parameters. *)
Theorem video_frames_are_preview_141
    layers output_video fps ba fa bl fl cb w w' :
  (∀ l, l ∈ layers → ∃ layer, Mar141.lists w !! l = Some layer ∧ layer ≠ []) →
  Mar141.merge_layers disk layers output_video fps ba fa (Some bl) (Some fl) cb w
    = (Ok tt, w') →
  ∃ frames,
    Mar141App.generate_merged_images disk
      ((λ l, Mar141.lists w' !!! l) <$> layers) ba fa bl fl = Ok frames ∧
    Mar141App.written_frames (Mar141.trace w') =
    Mar141App.written_frames (Mar141.trace w) ++ frames.
Proof.
  intros Hall Hrun.
  destruct (merge_layers_141_success disk _ _ _ _ _ _ _ _ _ _ Hrun)
    as (n & first_image & frames & Hnorm & Hfirst & Hframes & Hlen & Htrace).
  exists frames. split.
  - rewrite preview_is_video_frames_141_eq.
    destruct layers as [|l0 rest]; [discriminate|].
    destruct (normalize_run (Mar141.lists w) (l0 :: rest)) as (σ' & Hrun' & Hσ');
      [done|done|].
    assert (max_list ((λ l, List.length (Mar141.lists w !!! l)) <$> l0 :: rest) = n)
      as Hn by congruence.
    assert (σ' = Mar141.lists w') as -> by congruence.
    destruct (Hall l0) as (layer0 & Hl0 & Hne0); [left|].
    specialize (Hσ' l0). cbv zeta in Hσ'. rewrite decide_True, Hl0, Hn in Hσ' by left.
    cbn [fmap list_fmap index lookup list_lookup mbind result_bind].
    rewrite (lookup_total_correct _ _ _ Hσ').
    rewrite padded_length by done.
    assert (List.length layer0 ≤ n).
    { rewrite <- Hn. cbn. rewrite (lookup_total_correct _ _ _ Hl0). lia. }
    replace (n `max` List.length layer0) with n by lia.
    rewrite <- (lookup_total_correct _ _ _ Hσ').
    exact Hframes.
  - rewrite Htrace, !written_frames_app, written_frame_events
      by (by rewrite length_seq).
    cbn. by rewrite app_nil_r.
Qed.
End Mar141Video.

Lemma video_frames_are_preview_141_witness :
  ∃ frames : list sym_image,
    List.length frames = 5 ∧
    Mar141App.written_frames
      (Mar141.trace
         (Mar141.merge_layers sample_disk [0; 1; 2] "out.mp4" 30 3 0
            (Some [1%Z]) (Some []) true (Mar141.World layers_3_5_1 [])).2)
    = frames.
Proof.
  destruct (@video_frames_are_preview_141 SymPillow sample_disk [0; 1; 2]
              "out.mp4" 30%Z 3%Z 0%Z [1%Z] [] true
              (Mar141.World layers_3_5_1 [])
              (Mar141.merge_layers (H := SymPillow) sample_disk [0; 1; 2]
                 "out.mp4" 30 3 0 (Some [1%Z]) (Some []) true
                 (Mar141.World layers_3_5_1 [])).2)
    as (frames & Hpreview & Hwritten).
  - intros l Hl. exists (layers_3_5_1 !!! l).
    repeat (apply elem_of_cons in Hl as [->|Hl]); [..|by apply elem_of_nil in Hl];
      split; vm_compute; done.
  - vm_compute. reflexivity.
  - exists frames. split; [|exact Hwritten].
    vm_compute in Hpreview. injection Hpreview as <-. reflexivity.
Defined.
